(** * Maker keeper scripts: window arithmetic, protocol state and the work loop

    A shallow embedding of [src/utils/misc.ts], [src/utils/contants.ts] and of
    the two versions of the upkeep script (the one that hands the work call to
    a broadcastor and the one that drives Flashbots bundles itself), followed
    by the properties of the design document that they satisfy or break. *)

From Stdlib Require Import ZArith QArith Lia.
From stdpp Require Import gmap strings list.

Local Open Scope string_scope.
Local Open Scope Z_scope.
Local Open Scope list_scope.

(** ** JavaScript values used by the scripts *)

(** A JavaScript number as the scripts use it: an IEEE 754 double.  Block
    numbers, counts and millisecond durations are integers, so [Num z] is the
    double whose value is the integer [z]; a division by zero gives an
    infinity and an undefined product gives NaN.  An uninitialised
    [let x: number] holds [undefined], which behaves as [NaN] in every place
    the scripts read it (arithmetic, [<], [>=], [=== -1]).  The sign of a zero
    is not tracked: it can only flip the sign of an infinity. *)
Inductive Number : Type :=
  | Num (z : Z)
  | PosInf
  | NegInf
  | NaN.

Module JsNumber.

Definition sign_inf (s : Z) : Number :=
  if s =? 0 then NaN else if 0 <? s then PosInf else NegInf.

Definition sgn (a : Number) : Z :=
  match a with
  | Num z => Z.sgn z
  | PosInf => 1
  | NegInf => -1
  | NaN => 0
  end.

(** *** Rounding

    A double carries 53 significant bits: every integer below [2^53] in
    magnitude is a double, and from there on only the multiples of the power
    of two that leaves 53 bits.  Each operation gives the double nearest to
    its exact result, the one with the even significand when two are equally
    near, and an infinity from [2^1024 - 2^970] on. *)

(** [n / d] to the nearest integer, to the even one from half way, for
    [0 <= n] and [0 < d]. *)
Definition nearest (n d : Z) : Z :=
  let q := n / d in
  let r := n mod d in
  if (d <? 2 * r) || ((2 * r =? d) && Z.odd q) then q + 1 else q.

(** The magnitude of the double nearest to an integer of magnitude [a]. *)
Definition round_magnitude (a : Z) : Z :=
  if a <? 2 ^ 53 then a
  else
    let spacing := 2 ^ (Z.log2 a - 52) in
    nearest a spacing * spacing.

Definition of_magnitude (negative : bool) (m : Z) : Number :=
  if 2 ^ 1024 <=? m then (if negative then NegInf else PosInf)
  else Num (if negative then - m else m).

(** The double an exact integer result is rounded to. *)
Definition round (z : Z) : Number :=
  of_magnitude (z <? 0) (round_magnitude (Z.abs z)).

(** [a * b] *)
Definition mul (a b : Number) : Number :=
  match a, b with
  | NaN, _ | _, NaN => NaN
  | Num x, Num y => round (x * y)
  | _, _ => sign_inf (sgn a * sgn b)
  end.

(** [a + b] *)
Definition add (a b : Number) : Number :=
  match a, b with
  | NaN, _ | _, NaN => NaN
  | Num x, Num y => round (x + y)
  | PosInf, NegInf | NegInf, PosInf => NaN
  | PosInf, _ | _, PosInf => PosInf
  | NegInf, _ | _, NegInf => NegInf
  end.

Definition neg (a : Number) : Number :=
  match a with
  | Num x => Num (- x)
  | PosInf => NegInf
  | NegInf => PosInf
  | NaN => NaN
  end.

(** [a - b] *)
Definition sub (a b : Number) : Number := add a (neg b).

(** For integers [0 < a] and [0 < b], the double [a / b] evaluates to: its
    floor and its ceiling.  Below one the quotient is a positive double (it
    cannot underflow), which is [1] from [1 - 2^-54] on.  From one on, with
    [2^e <= a / b < 2^(e+1)], it is a multiple of [2^(e-52)]. *)
Definition quotient_floor_ceil (a b : Z) : Z * Z :=
  if a <? b then
    (if b * (2 ^ 54 - 1) <=? a * 2 ^ 54 then 1 else 0, 1)
  else
    let e := Z.log2 (a / b) in
    if 52 <=? e then
      let spacing := 2 ^ (e - 52) in
      let v := nearest a (b * spacing) * spacing in
      (v, v)
    else
      let parts := 2 ^ (52 - e) in
      let m := nearest (a * parts) b in
      (m / parts, - ((- m) / parts)).

(** [Math.ceil(a / b)]: the quotient rounded to a double, then that double
    rounded up to an integer.  The ceiling of a negative double is minus the
    floor of its magnitude. *)
Definition ceil_div (a b : Number) : Number :=
  match a, b with
  | NaN, _ | _, NaN => NaN
  | Num x, Num y =>
      if y =? 0 then sign_inf (Z.sgn x)
      else if x =? 0 then Num 0
      else
        let '(down, up) := quotient_floor_ceil (Z.abs x) (Z.abs y) in
        if Z.sgn x * Z.sgn y <? 0 then of_magnitude true down
        else of_magnitude false up
  | Num _, _ => Num 0
  | _, Num y => if y =? 0 then a else sign_inf (sgn a * Z.sgn y)
  | _, _ => NaN
  end.

(** [a < b], [a > b], [a >= b] and [a === b]: false as soon as one side is
    NaN. *)
Definition lt (a b : Number) : bool :=
  match a, b with
  | NaN, _ | _, NaN => false
  | Num x, Num y => x <? y
  | NegInf, NegInf | PosInf, _ => false
  | NegInf, _ => true
  | Num _, PosInf => true
  | Num _, NegInf => false
  end.

Definition gt (a b : Number) : bool := lt b a.

Definition strict_eq (a b : Number) : bool :=
  match a, b with
  | Num x, Num y => x =? y
  | PosInf, PosInf | NegInf, NegInf => true
  | _, _ => false
  end.

Definition ge (a b : Number) : bool := lt b a || strict_eq a b.

End JsNumber.

(** What an evaluation ends with: a value, or a thrown [Error] (its
    message).  An awaited promise settles the same way. *)
Inductive completion (A : Type) : Type :=
  | Return (a : A)
  | Throw (message : string).
Arguments Return {A} a.
Arguments Throw {A} message.

(** ethers' [BigNumber]: the integer a contract call or an event carries.
    [toNumber()] gives it as a JavaScript number and throws (an [overflow]
    fault) when it takes more than 53 bits. *)
Module BigNumber.

Definition toNumber (value : Z) : completion Number :=
  if Z.abs value <? 2 ^ 53 then Return (Num value) else Throw "overflow".

End BigNumber.

(** [Promise.all(promises)] over promises that are in flight together, each
    given with the turn at which it settles.  When one rejects, the result
    rejects with the rejection that settles first (the earliest of the array
    among those of one turn); otherwise it resolves to the values in the
    order of the array. *)
Fixpoint firstRejection {A} (promises : list (nat * completion A))
  : option (nat * string) :=
  match promises with
  | [] => None
  | (_, Return _) :: rest => firstRejection rest
  | (turn, Throw e) :: rest =>
      match firstRejection rest with
      | Some (turn', e') =>
          if (turn' <? turn)%nat then Some (turn', e') else Some (turn, e)
      | None => Some (turn, e)
      end
  end.

Fixpoint fulfilled {A} (promises : list (nat * completion A)) : list A :=
  match promises with
  | [] => []
  | (_, Return a) :: rest => a :: fulfilled rest
  | (_, Throw _) :: rest => fulfilled rest
  end.

Definition promiseAll {A} (promises : list (nat * completion A))
  : completion (list A) :=
  match firstRejection promises with
  | Some (_, e) => Throw e
  | None => Return (fulfilled promises)
  end.

(** ** [src/utils/contants.ts] *)
Module Constants.

Definition CHAIN_ID : Z := 1.
Definition BURST_SIZE : Z := 3.
Definition FUTURE_BLOCKS : Z := 0.
Definition PRIORITY_FEE : Q := (21 # 10)%Q.
Definition GAS_LIMIT : Z := 10000000.

(** [formatBytes32String('KEEP3R')]: the tag right-padded to 32 bytes, as
    the hex string ethers compares with [===]. *)
Definition KEEP3R_NETWORK_TAG : string :=
  "0x4b45455033520000000000000000000000000000000000000000000000000000".

Definition BLOCK_DURATION : Z := 12 * 1000.
Definition TOLERANCE_THRESHOLD : Z := 5 * BLOCK_DURATION.

End Constants.

(** ** [src/utils/misc.ts] *)
Module Misc.

(** What [process.env[name]] can evaluate to besides [undefined]: the string
    an environment variable holds or, under a name the environment does not
    define, what the object inherits from [Object.prototype] (a function, or
    the prototype itself under [__proto__]). *)
Inductive EnvValue : Type :=
  | EnvString (value : string)
  | Inherited (property : string).

(** The names [Object.prototype] defines. *)
Definition objectPrototype : list string :=
  [ "constructor"; "__defineGetter__"; "__defineSetter__"; "hasOwnProperty";
    "__lookupGetter__"; "__lookupSetter__"; "isPrototypeOf";
    "propertyIsEnumerable"; "toString"; "valueOf"; "__proto__";
    "toLocaleString" ].

Definition inherited (name : string) : bool :=
  existsb (String.eqb name) objectPrototype.

(** [process.env[name]], for the variables [env] of the environment: an own
    property first, then the prototype. *)
Definition processEnv (env : gmap string string) (name : string)
  : option EnvValue :=
  match env !! name with
  | Some value => Some (EnvString value)
  | None => if inherited name then Some (Inherited name) else None
  end.

(** [if (!value) throw ...; return value]: [undefined] and the empty string
    are falsy, a function or an object is not. *)
Definition getEnvVariable (env : gmap string string) (name : string)
  : completion EnvValue :=
  match processEnv env name with
  | Some (EnvString value) =>
      if String.eqb value "" then
        Throw ("Environment variable " +:+ name +:+ " not found")
      else Return (EnvString value)
  | Some (Inherited property) => Return (Inherited property)
  | None => Throw ("Environment variable " +:+ name +:+ " not found")
  end.

Definition calculateNextMasterWindow
  (blockNumber blocksInWindow networksAmount mainPosition : Number) : Number :=
  let fullWindow := JsNumber.mul blocksInWindow networksAmount in
  let offset := JsNumber.mul mainPosition blocksInWindow in
  let timesPassedByActiveNetwork :=
    JsNumber.ceil_div (JsNumber.sub blockNumber offset) fullWindow in
  JsNumber.add (JsNumber.mul fullWindow timesPassedByActiveNetwork) offset.

(** The same function under its other name. *)
Definition calculateNextMainWindow
  (blockNumber blocksInWindow networksAmount mainPosition : Number) : Number :=
  let fullWindow := JsNumber.mul blocksInWindow networksAmount in
  let offset := JsNumber.mul mainPosition blocksInWindow in
  let timesPassedByActiveNetwork :=
    JsNumber.ceil_div (JsNumber.sub blockNumber offset) fullWindow in
  JsNumber.add (JsNumber.mul fullWindow timesPassedByActiveNetwork) offset.

End Misc.


(** ** Data shared by the two versions of the upkeep script *)

Definition Address := string.

(** A block as the listener delivers it. *)
Record Block : Type := { number : Z; baseFeePerGas : Z }.

(** The function [blockListener.stream] returns: it cancels the stream it
    names. *)
Definition UnsubscribeFunction := nat.

(** A [Record<Address, V>]: [Object.keys] lists the keys in insertion order,
    an assignment to a present key keeps its place. *)
Module JsObject.
Section Obj.
Context {V : Type}.

Fixpoint get (o : list (Address * V)) (k : Address) : option V :=
  match o with
  | [] => None
  | (k', v) :: o' => if String.eqb k' k then Some v else get o' k
  end.

Fixpoint set (o : list (Address * V)) (k : Address) (v : V)
  : list (Address * V) :=
  match o with
  | [] => [(k, v)]
  | (k', v') :: o' =>
      if String.eqb k' k then (k', v) :: o' else (k', v') :: set o' k v
  end.

Fixpoint delete (o : list (Address * V)) (k : Address)
  : list (Address * V) :=
  match o with
  | [] => []
  | (k', v') :: o' =>
      if String.eqb k' k then o' else (k', v') :: delete o' k
  end.

Definition keys (o : list (Address * V)) : list Address := map fst o.
End Obj.
End JsObject.

(** The watched variables and the two mappings, as both versions declare
    them. *)
Record Globals : Type := {
  jobWorkInProgress : gmap Address bool;
  blocksInWindow : Number;
  networksAmount : Number;
  keep3rSequencerPosition : Number;
  jobs : list (Address * option UnsubscribeFunction)
}.

Definition set_jobWorkInProgress (g : Globals) (job : Address) (b : bool)
  : Globals :=
  {| jobWorkInProgress := <[job := b]> (jobWorkInProgress g);
     blocksInWindow := blocksInWindow g;
     networksAmount := networksAmount g;
     keep3rSequencerPosition := keep3rSequencerPosition g;
     jobs := jobs g |}.

Definition set_blocksInWindow (g : Globals) (n : Number) : Globals :=
  {| jobWorkInProgress := jobWorkInProgress g;
     blocksInWindow := n;
     networksAmount := networksAmount g;
     keep3rSequencerPosition := keep3rSequencerPosition g;
     jobs := jobs g |}.

Definition set_networksAmount (g : Globals) (n : Number) : Globals :=
  {| jobWorkInProgress := jobWorkInProgress g;
     blocksInWindow := blocksInWindow g;
     networksAmount := n;
     keep3rSequencerPosition := keep3rSequencerPosition g;
     jobs := jobs g |}.

Definition set_keep3rSequencerPosition (g : Globals) (n : Number) : Globals :=
  {| jobWorkInProgress := jobWorkInProgress g;
     blocksInWindow := blocksInWindow g;
     networksAmount := networksAmount g;
     keep3rSequencerPosition := n;
     jobs := jobs g |}.

Definition set_jobs (g : Globals)
  (j : list (Address * option UnsubscribeFunction)) : Globals :=
  {| jobWorkInProgress := jobWorkInProgress g;
     blocksInWindow := blocksInWindow g;
     networksAmount := networksAmount g;
     keep3rSequencerPosition := keep3rSequencerPosition g;
     jobs := j |}.

(** [if (jobWorkInProgress[job])]: an absent key reads [undefined]. *)
Definition inProgress (g : Globals) (job : Address) : bool :=
  match jobWorkInProgress g !! job with
  | Some b => b
  | None => false
  end.

(** What the sequencer contract answers to the read calls of one evaluation;
    each call may also reject.  [jobAtSettles index] is the turn at which the
    call [jobAt(index)] settles when the calls are sent together. *)
Record Sequencer : Type := {
  totalWindowSize : completion Z;
  numJobs : completion Z;
  jobAt : Z -> completion Address;
  jobAtSettles : Z -> nat;
  numNetworks : completion Z;
  networkAt : Z -> completion string
}.

(** The decoded sequencer events the scripts listen to. *)
Inductive SequencerEvent : Type :=
  | AddNetwork (network : string) (windowSize : Z)
  | RemoveNetwork (network : string)
  | AddJob (job : Address)
  | RemoveJob (job : Address).

(** The listeners a script registers with [provider.on], named after the
    function that registers them and the filter they are registered for. *)
Inductive Listener : Type :=
  | BlocksInWindow_AddNetwork
  | Jobs_AddJob
  | Jobs_RemoveJob
  | Networks_AddNetwork
  | Networks_RemoveNetwork.

(** *** The three fetch functions

    Their text is the same in both versions, but for the loop of the second,
    which the Flashbots version writes without [await] (see
    [FlashbotsScript.fetchJobs]).  They run against the shared variables and
    may stop on a rejected read or on a count that is no JavaScript number,
    keeping what they had already assigned: a computation takes the variables
    and gives them back with its completion. *)
Definition Fetch (A : Type) : Type := Globals -> Globals * completion A.

Definition ret {A} (a : A) : Fetch A := fun g => (g, Return a).

Definition bind {A B} (m : Fetch A) (k : A -> Fetch B) : Fetch B :=
  fun g =>
    match m g with
    | (g', Return a) => k a g'
    | (g', Throw e) => (g', Throw e)
    end.

(** [await call]: the value the promise resolves to, or its rejection
    thrown. *)
Definition await {A} (c : completion A) : Fetch A := fun g => (g, c).

Definition assign (f : Globals -> Globals) : Fetch unit :=
  fun g => (f g, Return tt).

Definition read {A} (f : Globals -> A) : Fetch A := fun g => (g, Return (f g)).

Notation "'let!' x ':=' m 'in' k" := (bind m (fun x => k))
  (at level 10, x binder, m at level 100, k at level 200).

(** The body of [fetchBlocksInWindowAndSubscribeToChanges] before it
    subscribes. *)
Definition fetchBlocksInWindow (sequencer : Sequencer) : Fetch unit :=
  let! window := await (totalWindowSize sequencer) in
  let! window := await (BigNumber.toNumber window) in
  assign (fun g => set_blocksInWindow g window).

(** How often the body of [for (let index = 0; index < bound; index++)] can
    run for the bound a variable holds. *)
Definition iterations (bound : Number) : nat :=
  match bound with
  | Num n => Z.to_nat n
  | _ => O
  end.

(** [for (let index = 0; index < jobAmount; index++)] collecting
    [await sequencer.jobAt(index)], one call after the other; [todo] counts
    the iterations left. *)
Fixpoint jobAddressesFrom (sequencer : Sequencer) (index : Z) (todo : nat)
  : Fetch (list Address) :=
  match todo with
  | O => ret []
  | S todo' =>
      let! jobAddress := await (jobAt sequencer index) in
      let! rest := jobAddressesFrom sequencer (index + 1) todo' in
      ret (jobAddress :: rest)
  end.

(** [for (const jobAddress of jobAddresses) jobs[jobAddress] = undefined] *)
Definition storeJobs (jobAddresses : list Address) (g : Globals) : Globals :=
  fold_left (fun g jobAddress => set_jobs g (JsObject.set (jobs g) jobAddress None))
    jobAddresses g.

(** The body of [fetchJobsAndSubscribeToChanges] before it subscribes, as
    the broadcastor version has it. *)
Definition fetchJobs (sequencer : Sequencer) : Fetch unit :=
  let! jobAmount := await (numJobs sequencer) in
  let! jobAmount := await (BigNumber.toNumber jobAmount) in
  let! jobAddresses := jobAddressesFrom sequencer 0 (iterations jobAmount) in
  assign (storeJobs jobAddresses).

(** The loop of [fetchAndUpdateNetworksData]:
    [for (let index = 0; index < networksAmount; index++)], leaving the
    function through [return] at the first match.  The result tells whether it
    did. *)
Fixpoint scanNetworks (sequencer : Sequencer) (index : Z) (todo : nat)
  : Fetch bool :=
  match todo with
  | O => ret false
  | S todo' =>
      let! network := await (networkAt sequencer index) in
      if String.eqb network Constants.KEEP3R_NETWORK_TAG then
        let! _ := assign (fun g => set_keep3rSequencerPosition g (Num index)) in
        ret true
      else scanNetworks sequencer (index + 1) todo'
  end.

Definition fetchAndUpdateNetworksData (sequencer : Sequencer) : Fetch unit :=
  let! numberNetworks := await (numNetworks sequencer) in
  let! numberNetworks := await (BigNumber.toNumber numberNetworks) in
  let! _ := assign (fun g => set_networksAmount g numberNetworks) in
  let! bound := read networksAmount in
  let! found := scanNetworks sequencer 0 (iterations bound) in
  if found : bool then ret tt
  else assign (fun g => set_keep3rSequencerPosition g (Num (-1))).

(** *** [fetchAndUpdateNetworksData] between its awaits

    The function gives the event loop back at each read, and the listeners
    start it anew at every [AddNetwork] and [RemoveNetwork]: several of its
    runs can be under way, all writing the same two variables. *)

(** The [await] a run is waiting at. *)
Inductive RefreshPoint : Type :=
  | Refresh_numNetworks
  | Refresh_networkAt (index : Z).

Inductive RefreshAnswer : Type :=
  | NetworksCount (r : completion Z)
  | NetworkAt (r : completion string).

(** The head of the loop: [index < networksAmount], read from the shared
    variable each time round. *)
Definition refreshLoop (index : Z) (g : Globals)
  : Globals * option RefreshPoint :=
  if JsNumber.lt (Num index) (networksAmount g) then
    (g, Some (Refresh_networkAt index))
  else (set_keep3rSequencerPosition g (Num (-1)), None).

(** One stretch of a run, from the answer it waited for to its next [await]
    or to its end. *)
Definition refreshResume (point : RefreshPoint) (answer : RefreshAnswer)
  (g : Globals) : option (Globals * option RefreshPoint) :=
  match point, answer with
  | Refresh_numNetworks, NetworksCount (Return numberNetworks) =>
      match BigNumber.toNumber numberNetworks with
      | Return numberNetworks =>
          Some (refreshLoop 0 (set_networksAmount g numberNetworks))
      | Throw _ => Some (g, None)
      end
  | Refresh_numNetworks, NetworksCount (Throw _) => Some (g, None)
  | Refresh_networkAt index, NetworkAt (Return network) =>
      if String.eqb network Constants.KEEP3R_NETWORK_TAG then
        Some (set_keep3rSequencerPosition g (Num index), None)
      else Some (refreshLoop (index + 1) g)
  | Refresh_networkAt _, NetworkAt (Throw _) => Some (g, None)
  | _, _ => None
  end.

(** The runs under way, with the variables they share. *)
Record Refreshing : Type := {
  variables : Globals;
  refreshes : list RefreshPoint
}.

(** A listener starts a run: it goes as far as its first read. *)
Definition startRefresh (r : Refreshing) : Refreshing :=
  {| variables := variables r;
     refreshes := refreshes r ++ [Refresh_numNetworks] |}.

(** The read the [i]-th run waits for settles. *)
Definition settleRefresh (r : Refreshing) (i : nat) (answer : RefreshAnswer)
  : Refreshing :=
  match nth_error (refreshes r) i with
  | Some point =>
      match refreshResume point answer (variables r) with
      | Some (g, Some next) =>
          {| variables := g;
             refreshes :=
               firstn i (refreshes r) ++ next :: skipn (S i) (refreshes r) |}
      | Some (g, None) =>
          {| variables := g;
             refreshes :=
               firstn i (refreshes r) ++ skipn (S i) (refreshes r) |}
      | None => r
      end
  | None => r
  end.

(** What a sequencer answers to the read a run waits for. *)
Definition answerOf (sequencer : Sequencer) (point : RefreshPoint)
  : RefreshAnswer :=
  match point with
  | Refresh_numNetworks => NetworksCount (numNetworks sequencer)
  | Refresh_networkAt index => NetworkAt (networkAt sequencer index)
  end.

(** A run on its own, every read answered by [sequencer] before anything
    else happens; [turns] bounds the reads. *)
Fixpoint refreshAlone (sequencer : Sequencer) (point : RefreshPoint)
  (turns : nat) (g : Globals) : Globals :=
  match turns with
  | O => g
  | S turns' =>
      match refreshResume point (answerOf sequencer point) g with
      | Some (g', Some next) => refreshAlone sequencer next turns' g'
      | Some (g', None) => g'
      | None => g
      end
  end.

(** The listeners, as one evaluation each. *)
Definition onAddJob (jobAddress : Address) (g : Globals) : Globals :=
  set_jobs g (JsObject.set (jobs g) jobAddress None).

(** The [RemoveJob] listener: the unsubscribe functions it called, and the
    variables after it. *)
Definition onRemoveJob (jobAddress : Address) (g : Globals)
  : list UnsubscribeFunction * Globals :=
  let called :=
    match JsObject.get (jobs g) jobAddress with
    | Some (Some unsubscribe) => [unsubscribe]
    | _ => []
    end in
  (called, set_jobs g (JsObject.delete (jobs g) jobAddress)).

(** What happens to the listeners of an emitted event, in the order they
    were registered.  A listener that throws ends alone.  A listener that
    refreshes the networks reads the sequencer; its reads are answered from
    the one [sequencer] given with the event and the refresh is taken here
    from its start to its end, with nothing in between (for what lies in
    between, see [refreshResume]). *)
Definition listen (l : Listener) (event : SequencerEvent)
  (sequencer : Sequencer) (g : Globals) : list UnsubscribeFunction * Globals :=
  match l, event with
  | BlocksInWindow_AddNetwork, AddNetwork _ window =>
      match BigNumber.toNumber window with
      | Return window => ([], set_blocksInWindow g window)
      | Throw _ => ([], g)
      end
  | Jobs_AddJob, AddJob jobAddress => ([], onAddJob jobAddress g)
  | Jobs_RemoveJob, RemoveJob jobAddress => onRemoveJob jobAddress g
  | Networks_AddNetwork, AddNetwork _ _
  | Networks_RemoveNetwork, RemoveNetwork _ =>
      ([], fst (fetchAndUpdateNetworksData sequencer g))
  | _, _ => ([], g)
  end.

Fixpoint emitEvent (listeners : list Listener) (event : SequencerEvent)
  (sequencer : Sequencer) (g : Globals) : list UnsubscribeFunction * Globals :=
  match listeners with
  | [] => ([], g)
  | l :: rest =>
      let '(called, g') := listen l event sequencer g in
      let '(called', g'') := emitEvent rest event sequencer g' in
      (called ++ called', g'')
  end.

(** The work window a cycle of [run] closes over. *)
Record Window : Type := { windowStart : Number; windowEnd : Number }.

(** [windowStart], [windowEnd] and [time], as [run] computes them from the
    latest block in both versions. *)
Definition nextWindow (g : Globals) (currentBlock : Block) : Window :=
  let windowStart :=
    Misc.calculateNextMasterWindow (Num (number currentBlock))
      (blocksInWindow g) (networksAmount g) (keep3rSequencerPosition g) in
  {| windowStart := windowStart;
     windowEnd := JsNumber.add windowStart (blocksInWindow g) |}.

Definition timeToWindow (w : Window) (currentBlock : Block) : Number :=
  let remainderBlocks :=
    JsNumber.sub (windowStart w) (Num (number currentBlock)) in
  JsNumber.sub (JsNumber.mul remainderBlocks (Num Constants.BLOCK_DURATION))
    (Num Constants.TOLERANCE_THRESHOLD).

(** ** The upkeep script that sends Flashbots bundles itself *)
Module FlashbotsScript.

Inductive LogLine : Type :=
  | START
  | NotWhitelisted
  | NextWindow (w : Window)
  | Sleeping (time : Number)
  | AlreadyStarted (w : Window)
  | StillNotInWindow (current : Z)
  | WindowFinished
  | WorkInProgress (job : Address)
  | NotWorkable (job : Address)
  | IsWorkable (job : Address)
  | TxSuccess (job : Address)
  | Caught (error : string).

Record GasParameters : Type := { priorityFeeInGwei : Z; gasMaxFeePerGas : Z }.

Record Overrides : Type := {
  gasLimit : Z;
  nonce : Z;
  maxFeePerGas : Z;
  maxPriorityFeePerGas : Z;
  type : Z
}.

Definition TransactionRequest := string.

Record Bundle : Type := {
  targetBlock : Z;
  transactions : list TransactionRequest
}.

(** The two helpers of the scripting library that [tryToWorkJob] calls
    without awaiting; either may throw. *)
Record Library : Type := {
  getMainnetGasType2Parameters : Block -> Z -> Q -> completion GasParameters;
  createBundlesWithSameTxs :
    list TransactionRequest -> Z -> Z -> completion (list Bundle)
}.

(** What the script does to the outside, in the order it does it.
    [SendAndRetryUntilNotWorkable] is the broadcast of a work call. *)
Inductive Effect : Type :=
  | Console (line : LogLine)
  | GetBlock
  | SetTimeout (w : Window) (time : Number)
  | Stream (id : nat)
  | Unsubscribe (id : UnsubscribeFunction)
  | JobWorkable (job : Address)
  | GetTransactionCount
  | PopulateTransactions (job : Address) (args : string) (options : Overrides)
  | SendAndRetryUntilNotWorkable (job : Address)
      (txs : list TransactionRequest) (bundles : list Bundle).

(** An async function waiting at one of its [await]s, with the locals it
    still needs. *)
Inductive Suspended : Type :=
  | Run_getBlock
  | Try_workable (job : Address) (block : Block)
  | Try_getTransactionCount (job : Address) (block : Block) (args : string)
  | Try_populateTransactions (job : Address) (firstBlockOfBatch : Z)
  | Try_sendAndRetry (job : Address).

(** What an awaited call settles with. *)
Inductive Response : Type :=
  | LatestBlock (r : completion Block)
  | WorkableResult (r : completion (bool * string))
  | TransactionCount (r : completion Z)
  | Populated (r : completion (list TransactionRequest))
  | Sent (r : completion bool).

(** One stretch of evaluation between two turns of the event loop: the
    variables after it, what it did, and the async functions it left
    waiting. *)
Record Stretch : Type := {
  after : Globals;
  did : list Effect;
  waiting : list Suspended
}.

Definition finished (g : Globals) (effects : list Effect) : Stretch :=
  {| after := g; did := effects; waiting := [] |}.

Definition suspend (g : Globals) (effects : list Effect) (s : Suspended)
  : Stretch :=
  {| after := g; did := effects; waiting := [s] |}.

(** [run], up to its [await provider.getBlock('latest')]. *)
Definition run (g : Globals) : Stretch :=
  if JsNumber.strict_eq (keep3rSequencerPosition g) (Num (-1)) then
    finished g [Console START; Console NotWhitelisted]
  else suspend g [Console START; GetBlock] Run_getBlock.

(** The delay Node's [setTimeout(callback, time)] waits for, in
    milliseconds: [time] itself from 1 to [2^31 - 1], and 1 for anything
    else (a smaller or larger number, NaN). *)
Definition timerDelay (time : Number) : Z :=
  match time with
  | Num t => if (1 <=? t) && (t <=? 2147483647) then t else 1
  | _ => 1
  end.

(** [run], from the latest block on. *)
Definition run_continue (currentBlock : Block) (g : Globals) : Stretch :=
  let w := nextWindow g currentBlock in
  let time := timeToWindow w currentBlock in
  let logged :=
    if JsNumber.gt time (Num 0) then
      [Console (NextWindow w); Console (Sleeping time)]
    else [Console (AlreadyStarted w)] in
  finished g (logged ++ [SetTimeout w time]).

(** [tryToWorkJob], up to its [await job.workable(KEEP3R_NETWORK_TAG)]. *)
Definition tryToWorkJob (job : Address) (block : Block) (g : Globals)
  : Stretch :=
  if inProgress g job then finished g [Console (WorkInProgress job)]
  else suspend g [JobWorkable job] (Try_workable job block).

(** The [catch] and [finally] blocks of [tryToWorkJob]. *)
Definition finally (job : Address) (g : Globals) (effects : list Effect)
  : Stretch :=
  finished (set_jobWorkInProgress g job false) effects.

Definition catch (job : Address) (g : Globals) (error : string) : Stretch :=
  finally job g [Console (Caught error)].

(** [tryToWorkJob], from the answer of [job.workable] on. *)
Definition tryToWorkJob_workable (job : Address) (block : Block)
  (r : completion (bool * string)) (g : Globals) : Stretch :=
  match r with
  | Throw _ => finished g []
  | Return (isWorkable, args) =>
      if negb isWorkable then finished g [Console (NotWorkable job)]
      else
        suspend (set_jobWorkInProgress g job true)
          [Console (IsWorkable job); GetTransactionCount]
          (Try_getTransactionCount job block args)
  end.

Definition tryToWorkJob_nonce (lib : Library) (job : Address)
  (block : Block) (args : string) (r : completion Z) (g : Globals)
  : Stretch :=
  match r with
  | Throw error => catch job g error
  | Return currentNonce =>
      let blocksAhead := Constants.FUTURE_BLOCKS + Constants.BURST_SIZE in
      match getMainnetGasType2Parameters lib block blocksAhead
              Constants.PRIORITY_FEE with
      | Throw error => catch job g error
      | Return gas =>
          let options :=
            {| gasLimit := 5000000;
               nonce := currentNonce;
               maxFeePerGas := gasMaxFeePerGas gas;
               maxPriorityFeePerGas := priorityFeeInGwei gas;
               type := 2 |} in
          let firstBlockOfBatch := number block + Constants.FUTURE_BLOCKS in
          suspend g [PopulateTransactions job args options]
            (Try_populateTransactions job firstBlockOfBatch)
      end
  end.

Definition tryToWorkJob_populated (lib : Library) (job : Address)
  (firstBlockOfBatch : Z) (r : completion (list TransactionRequest))
  (g : Globals) : Stretch :=
  match r with
  | Throw error => catch job g error
  | Return txs =>
      match createBundlesWithSameTxs lib txs Constants.BURST_SIZE
              firstBlockOfBatch with
      | Throw error => catch job g error
      | Return bundles =>
          suspend g [SendAndRetryUntilNotWorkable job txs bundles]
            (Try_sendAndRetry job)
      end
  end.

Definition tryToWorkJob_sent (job : Address) (r : completion bool)
  (g : Globals) : Stretch :=
  match r with
  | Throw error => catch job g error
  | Return result =>
      finally job g (if result : bool then [Console (TxSuccess job)] else [])
  end.

(** An async function taken up again when the call it awaits settles;
    nothing happens when the answer is not the one it waits for. *)
Definition resume (lib : Library) (s : Suspended) (r : Response)
  (g : Globals) : option Stretch :=
  match s, r with
  | Run_getBlock, LatestBlock (Return currentBlock) =>
      Some (run_continue currentBlock g)
  | Run_getBlock, LatestBlock (Throw _) => Some (finished g [])
  | Try_workable job block, WorkableResult r =>
      Some (tryToWorkJob_workable job block r g)
  | Try_getTransactionCount job block args, TransactionCount r =>
      Some (tryToWorkJob_nonce lib job block args r g)
  | Try_populateTransactions job firstBlockOfBatch, Populated r =>
      Some (tryToWorkJob_populated lib job firstBlockOfBatch r g)
  | Try_sendAndRetry job, Sent r => Some (tryToWorkJob_sent job r g)
  | _, _ => None
  end.

(** Two stretches one after the other in the same turn. *)
Definition andThen (a : Stretch) (k : Globals -> Stretch) : Stretch :=
  let b := k (after a) in
  {| after := after b; did := did a ++ did b;
     waiting := waiting a ++ waiting b |}.

(** [Object.keys(jobs).map(async (jobAddress) => tryToWorkJob(...))]: every
    call runs up to its first [await] before the next one starts. *)
Fixpoint workJobs (jobAddresses : list Address) (block : Block)
  (g : Globals) : Stretch :=
  match jobAddresses with
  | [] => finished g []
  | jobAddress :: rest =>
      andThen (tryToWorkJob jobAddress block g) (workJobs rest block)
  end.

(** The callback given to [blockListener.stream] by the cycle that computed
    the window [w]; [unsubscribe] cancels that stream. *)
Definition onBlock (unsubscribe : UnsubscribeFunction) (w : Window)
  (block : Block) (g : Globals) : Stretch :=
  if JsNumber.lt (Num (number block)) (windowStart w) then
    finished g [Console (StillNotInWindow (number block))]
  else if JsNumber.ge (Num (number block)) (windowEnd w) then
    andThen (finished g [Console WindowFinished; Unsubscribe unsubscribe]) run
  else workJobs (JsObject.keys (jobs g)) block g.


(** One call of [tryToWorkJob] carried to its end with nothing else running
    in between: each answer takes the function up from where it waits. *)
Fixpoint continue (lib : Library) (s : Stretch) (answers : list Response)
  : Stretch :=
  match answers, waiting s with
  | r :: rest, [t] =>
      match resume lib t r (after s) with
      | Some s' =>
          continue lib
            {| after := after s'; did := did s ++ did s';
               waiting := waiting s' |}
            rest
      | None => s
      end
  | _, _ => s
  end.

Definition attempt (lib : Library) (job : Address) (block : Block)
  (answers : list Response) (g : Globals) : Stretch :=
  continue lib (tryToWorkJob job block g) answers.

(** *** The process around the functions

    The event loop runs one stretch at a time.  The process keeps the
    variables, the registered listeners, the pending timers (each with the
    window its callback closes over), the running block streams, the async
    functions waiting for an answer, and what has been done so far. *)
Record Process : Type := {
  globals : Globals;
  listeners : list Listener;
  timers : list Window;
  streams : list (nat * Window);
  streamCount : nat;
  tasks : list Suspended;
  history : list Effect
}.

(** What a turn of the event loop starts with. *)
Inductive Input : Type :=
  | TimerFires (i : nat)
  | BlockArrives (block : Block)
  | Settles (i : nat) (r : Response)
  | Emits (event : SequencerEvent) (sequencer : Sequencer).

Definition newTimers (effects : list Effect) : list Window :=
  flat_map (fun e => match e with SetTimeout w _ => [w] | _ => [] end)
    effects.

Definition cancelled (effects : list Effect) (id : nat) : bool :=
  existsb (fun e => match e with Unsubscribe id' => Nat.eqb id' id
                             | _ => false end) effects.

(** The process after a stretch: timers set are pending, streams
    unsubscribed are gone, the functions left waiting are tasks. *)
Definition absorb (p : Process) (s : Stretch) : Process :=
  {| globals := after s;
     listeners := listeners p;
     timers := timers p ++ newTimers (did s);
     streams :=
       List.filter (fun st => negb (cancelled (did s) (fst st)))
         (streams p);
     streamCount := streamCount p;
     tasks := tasks p ++ waiting s;
     history := history p ++ did s |}.

Definition remove_nth {A} (i : nat) (l : list A) : list A :=
  firstn i l ++ skipn (S i) l.

Definition isActive (p : Process) (id : nat) : bool :=
  existsb (fun st => Nat.eqb (fst st) id) (streams p).

(** A block goes to the callback of every stream that is still
    subscribed. *)
Fixpoint deliver (block : Block) (to : list (nat * Window)) (p : Process)
  : Process :=
  match to with
  | [] => p
  | (id, w) :: rest =>
      let p' :=
        if isActive p id then absorb p (onBlock id w block (globals p))
        else p in
      deliver block rest p'
  end.

Definition step (lib : Library) (p : Process) (i : Input) : Process :=
  match i with
  | TimerFires i =>
      match nth_error (timers p) i with
      | Some w =>
          {| globals := globals p;
             listeners := listeners p;
             timers := remove_nth i (timers p);
             streams := streams p ++ [(streamCount p, w)];
             streamCount := S (streamCount p);
             tasks := tasks p;
             history := history p ++ [Stream (streamCount p)] |}
      | None => p
      end
  | BlockArrives block => deliver block (streams p) p
  | Settles i r =>
      match nth_error (tasks p) i with
      | Some s =>
          match resume lib s r (globals p) with
          | Some stretch =>
              absorb
                {| globals := globals p;
                   listeners := listeners p;
                   timers := timers p;
                   streams := streams p;
                   streamCount := streamCount p;
                   tasks := remove_nth i (tasks p);
                   history := history p |}
                stretch
          | None => p
          end
      | None => p
      end
  | Emits event sequencer =>
      let '(called, g) :=
        emitEvent (listeners p) event sequencer (globals p) in
      absorb p (finished g (map Unsubscribe called))
  end.

Definition exec (lib : Library) (p : Process) (inputs : list Input)
  : Process :=
  fold_left (step lib) inputs p.

(** The variables before anything is fetched. *)
Definition initialGlobals : Globals :=
  {| jobWorkInProgress := ∅;
     blocksInWindow := NaN;
     networksAmount := NaN;
     keep3rSequencerPosition := NaN;
     jobs := [] |}.

Definition boot (g : Globals) (ls : list Listener) : Process :=
  {| globals := g; listeners := ls; timers := []; streams := [];
     streamCount := O; tasks := []; history := [] |}.

(** [jobAddressPromises.push(sequencer.jobAt(index))] for
    [index = 0 .. jobAmount - 1]: the calls are sent without waiting for one
    another. *)
Fixpoint jobAtCalls (sequencer : Sequencer) (index : Z) (todo : nat)
  : list (nat * completion Address) :=
  match todo with
  | O => []
  | S todo' =>
      (jobAtSettles sequencer index, jobAt sequencer index)
      :: jobAtCalls sequencer (index + 1) todo'
  end.

(** The body of [fetchJobsAndSubscribeToChanges] before it subscribes, as
    this version has it: one [await Promise.all] for all the addresses. *)
Definition fetchJobs (sequencer : Sequencer) : Fetch unit :=
  let! jobAmount := await (numJobs sequencer) in
  let! jobAmount := await (BigNumber.toNumber jobAmount) in
  let! jobAddresses :=
    await (promiseAll (jobAtCalls sequencer 0 (iterations jobAmount))) in
  assign (storeJobs jobAddresses).

(** The start of the script, after [Flashbots.init]: the three fetches with
    their subscriptions, then [run].  A rejected read ends it there. *)
Definition main (sequencer : Sequencer) : Process :=
  match fetchBlocksInWindow sequencer initialGlobals with
  | (g, Throw _) => boot g []
  | (g, Return _) =>
      let ls := [BlocksInWindow_AddNetwork] in
      match fetchJobs sequencer g with
      | (g, Throw _) => boot g ls
      | (g, Return _) =>
          let ls := ls ++ [Jobs_AddJob; Jobs_RemoveJob] in
          match fetchAndUpdateNetworksData sequencer g with
          | (g, Throw _) => boot g ls
          | (g, Return _) =>
              let ls := ls ++ [Networks_AddNetwork; Networks_RemoveNetwork] in
              absorb (boot g ls) (run g)
          end
      end
  end.

End FlashbotsScript.

(** ** The upkeep script that hands the work call to a broadcastor *)
Module BroadcastorScript.

Inductive LogLine : Type :=
  | START
  | NotWhitelisted
  | NextWindow (w : Window)
  | Sleeping (time : Number)
  | AlreadyStarted (w : Window)
  | StillNotInWindow (current : Z).

(** [Broadcast] is the call of [broadcastMethod] with the upkeep job, the
    work method and [[jobAddress, args]] for the given block. *)
Inductive Effect : Type :=
  | Console (line : LogLine)
  | GetBlock
  | Stream (id : nat)
  | Unsubscribe (id : UnsubscribeFunction)
  | JobWorkable (job : Address)
  | Broadcast (job : Address) (args : string) (block : Block).

Inductive Suspended : Type :=
  | Work_workable (job : Address) (block : Block)
  | Work_broadcast (job : Address).

Inductive Response : Type :=
  | WorkableResult (r : completion (bool * string))
  | Broadcasted (r : completion unit).

Record Stretch : Type := {
  after : Globals;
  did : list Effect;
  waiting : list Suspended
}.

Definition finished (g : Globals) (effects : list Effect) : Stretch :=
  {| after := g; did := effects; waiting := [] |}.

Definition suspend (g : Globals) (effects : list Effect) (s : Suspended)
  : Stretch :=
  {| after := g; did := effects; waiting := [s] |}.

Definition andThen (a : Stretch) (k : Globals -> Stretch) : Stretch :=
  let b := k (after a) in
  {| after := after b; did := did a ++ did b;
     waiting := waiting a ++ waiting b |}.

(** The async arrow function mapped over [Object.keys(jobs)], up to its
    [await job.workable(KEEP3R_NETWORK_TAG)]. *)
Definition workJob (jobAddress : Address) (block : Block) (g : Globals)
  : Stretch :=
  suspend g [JobWorkable jobAddress] (Work_workable jobAddress block).

Definition workJob_workable (jobAddress : Address) (block : Block)
  (r : completion (bool * string)) (g : Globals) : Stretch :=
  match r with
  | Throw _ => finished g []
  | Return (workable, args) =>
      if workable : bool then
        suspend g [Broadcast jobAddress args block]
          (Work_broadcast jobAddress)
      else finished g []
  end.

Definition resume (s : Suspended) (r : Response) (g : Globals)
  : option Stretch :=
  match s, r with
  | Work_workable jobAddress block, WorkableResult r =>
      Some (workJob_workable jobAddress block r g)
  | Work_broadcast _, Broadcasted _ => Some (finished g [])
  | _, _ => None
  end.

Fixpoint workJobs (jobAddresses : list Address) (block : Block)
  (g : Globals) : Stretch :=
  match jobAddresses with
  | [] => finished g []
  | jobAddress :: rest =>
      andThen (workJob jobAddress block g) (workJobs rest block)
  end.

(** The callback given to [blockListener.stream]. *)
Definition onBlock (w : Window) (block : Block) (g : Globals) : Stretch :=
  if JsNumber.lt (Num (number block)) (windowStart w) then
    finished g [Console (StillNotInWindow (number block))]
  else workJobs (JsObject.keys (jobs g)) block g.

Record Process : Type := {
  globals : Globals;
  listeners : list Listener;
  streams : list (nat * Window);
  streamCount : nat;
  tasks : list Suspended;
  history : list Effect
}.

Inductive Input : Type :=
  | BlockArrives (block : Block)
  | Settles (i : nat) (r : Response)
  | Emits (event : SequencerEvent) (sequencer : Sequencer).

Definition cancelled (effects : list Effect) (id : nat) : bool :=
  existsb (fun e => match e with Unsubscribe id' => Nat.eqb id' id
                             | _ => false end) effects.

Definition absorb (p : Process) (s : Stretch) : Process :=
  {| globals := after s;
     listeners := listeners p;
     streams :=
       List.filter (fun st => negb (cancelled (did s) (fst st)))
         (streams p);
     streamCount := streamCount p;
     tasks := tasks p ++ waiting s;
     history := history p ++ did s |}.

Definition subscribe (p : Process) (ls : list Listener) : Process :=
  {| globals := globals p;
     listeners := listeners p ++ ls;
     streams := streams p;
     streamCount := streamCount p;
     tasks := tasks p;
     history := history p |}.

Definition stream (p : Process) (w : Window) : Process :=
  {| globals := globals p;
     listeners := listeners p;
     streams := streams p ++ [(streamCount p, w)];
     streamCount := S (streamCount p);
     tasks := tasks p;
     history := history p ++ [Stream (streamCount p)] |}.

Definition remove_nth {A} (i : nat) (l : list A) : list A :=
  firstn i l ++ skipn (S i) l.

Fixpoint deliver (block : Block) (to : list (nat * Window)) (p : Process)
  : Process :=
  match to with
  | [] => p
  | (_, w) :: rest =>
      deliver block rest (absorb p (onBlock w block (globals p)))
  end.

(** [run], which this script calls once, at its start: the sequencer answers
    the reads of the three fetches and [latest] is what
    [provider.getBlock('latest')] settles with; the call is taken as a single
    evaluation up to the opening of the block stream.  A rejected call ends
    the function there. *)
Definition run (sequencer : Sequencer) (latest : completion Block)
  (p : Process) : Process :=
  let p := absorb p (finished (globals p) [Console START]) in
  if JsNumber.strict_eq (keep3rSequencerPosition (globals p)) (Num (-1)) then
    absorb p (finished (globals p) [Console NotWhitelisted])
  else
    match fetchBlocksInWindow sequencer (globals p) with
    | (g, Throw _) => absorb p (finished g [])
    | (g, Return _) =>
        let p := subscribe (absorb p (finished g []))
                   [BlocksInWindow_AddNetwork] in
        match fetchJobs sequencer g with
        | (g, Throw _) => absorb p (finished g [])
        | (g, Return _) =>
            let p := subscribe (absorb p (finished g []))
                       [Jobs_AddJob; Jobs_RemoveJob] in
            match fetchAndUpdateNetworksData sequencer g with
            | (g, Throw _) => absorb p (finished g [])
            | (g, Return _) =>
                let p := subscribe (absorb p (finished g []))
                           [Networks_AddNetwork; Networks_RemoveNetwork] in
                let p := absorb p (finished g [GetBlock]) in
                match latest with
                | Throw _ => p
                | Return currentBlock =>
                    let w := nextWindow g currentBlock in
                    let time := timeToWindow w currentBlock in
                    let logged :=
                      if JsNumber.gt time (Num 0) then
                        [Console (NextWindow w); Console (Sleeping time)]
                      else [Console (AlreadyStarted w)] in
                    stream (absorb p (finished g logged)) w
                end
            end
        end
    end.

Definition step (p : Process) (i : Input) : Process :=
  match i with
  | BlockArrives block => deliver block (streams p) p
  | Settles i r =>
      match nth_error (tasks p) i with
      | Some s =>
          match resume s r (globals p) with
          | Some stretch =>
              absorb
                {| globals := globals p;
                   listeners := listeners p;
                   streams := streams p;
                   streamCount := streamCount p;
                   tasks := remove_nth i (tasks p);
                   history := history p |}
                stretch
          | None => p
          end
      | None => p
      end
  | Emits event sequencer =>
      let '(called, g) :=
        emitEvent (listeners p) event sequencer (globals p) in
      absorb p (finished g (map Unsubscribe called))
  end.

Definition exec (p : Process) (inputs : list Input) : Process :=
  fold_left step inputs p.

(** [let keep3rSequencerPosition = 0]; the other two numbers are declared
    without a value. *)
Definition initialGlobals : Globals :=
  {| jobWorkInProgress := ∅;
     blocksInWindow := NaN;
     networksAmount := NaN;
     keep3rSequencerPosition := Num 0;
     jobs := [] |}.

Definition boot : Process :=
  {| globals := initialGlobals; listeners := []; streams := [];
     streamCount := O; tasks := []; history := [] |}.

(** The start of the script: the one call of [run]. *)
Definition main (sequencer : Sequencer) (latest : completion Block)
  : Process :=
  run sequencer latest boot.

End BroadcastorScript.

(** * Vocabulary of the statements, and example chains *)

(** Every value stored in a [jobs] mapping is [undefined]. *)
Definition allUndefined (j : list (Address * option UnsubscribeFunction))
  : Prop :=
  Forall (fun entry => snd entry = None) j.

(** The broadcasts of a work call for [job] among the effects of the
    Flashbots script, and among those of the broadcastor script. *)
Definition isSend (job : Address) (e : FlashbotsScript.Effect) : bool :=
  match e with
  | FlashbotsScript.SendAndRetryUntilNotWorkable job' _ _ => String.eqb job' job
  | _ => false
  end.

Definition sends (job : Address) (effects : list FlashbotsScript.Effect) : nat :=
  length (List.filter (isSend job) effects).

Definition isBroadcast (job : Address) (e : BroadcastorScript.Effect) : bool :=
  match e with
  | BroadcastorScript.Broadcast job' _ _ => String.eqb job' job
  | _ => false
  end.

Definition broadcasts (job : Address) (effects : list BroadcastorScript.Effect)
  : nat :=
  length (List.filter (isBroadcast job) effects).

(** Where a call of [tryToWorkJob] for [job] can stand: before the broadcast
    with nothing sent yet, waiting for the broadcast to settle, or concluded,
    and then with the flag down if it did broadcast. *)
Definition stage (job : Address) (s : FlashbotsScript.Stretch) : Prop :=
  match FlashbotsScript.waiting s with
  | [] =>
      sends job (FlashbotsScript.did s) <> O ->
      inProgress (FlashbotsScript.after s) job = false
  | [FlashbotsScript.Try_workable j _]
  | [FlashbotsScript.Try_getTransactionCount j _ _]
  | [FlashbotsScript.Try_populateTransactions j _] =>
      j = job /\ sends job (FlashbotsScript.did s) = O
  | [FlashbotsScript.Try_sendAndRetry j] => j = job
  | _ => False
  end.

(** The cycles of [run] that are alive in a process of the Flashbots script:
    a call of [run] waiting for the latest block, a timer waiting to open the
    stream, or the stream itself. *)
Definition isRun (s : FlashbotsScript.Suspended) : bool :=
  match s with
  | FlashbotsScript.Run_getBlock => true
  | _ => false
  end.

Definition cycles (p : FlashbotsScript.Process) : nat :=
  (length (FlashbotsScript.timers p) + length (FlashbotsScript.streams p)
   + length (List.filter isRun (FlashbotsScript.tasks p)))%nat.

(** A stretch that sets no timer, cancels no stream and starts no [run]. *)
Definition quiet (s : FlashbotsScript.Stretch) : Prop :=
  FlashbotsScript.newTimers (FlashbotsScript.did s) = []
  /\ (forall id, FlashbotsScript.cancelled (FlashbotsScript.did s) id = false)
  /\ List.filter isRun (FlashbotsScript.waiting s) = [].

(** The scripting library answering without throwing. *)
Definition exampleLibrary : FlashbotsScript.Library :=
  {| FlashbotsScript.getMainnetGasType2Parameters := fun block _ _ =>
       Return {| FlashbotsScript.priorityFeeInGwei := 2;
                 FlashbotsScript.gasMaxFeePerGas := 2 * baseFeePerGas block + 2 |};
     FlashbotsScript.createBundlesWithSameTxs := fun txs burstSize first =>
       Return (map (fun k => {| FlashbotsScript.targetBlock := first + Z.of_nat k;
                                FlashbotsScript.transactions := txs |})
                 (List.seq 0 (Z.to_nat burstSize))) |}.

Definition exampleJob : Address := "0x67AD4000e73579B9725eE3A149F85C4Af0A61361".

Definition otherNetwork : string :=
  "0x4f5448455200000000000000000000000000000000000000000000000000000".

Definition blockAt (n : Z) : Block := {| number := n; baseFeePerGas := 30 |}.

(** A sequencer with a window of 13 blocks, one job, and the keeper first of
    two networks. *)
Definition keeperFirstOfTwo : Sequencer :=
  {| totalWindowSize := Return 13;
     numJobs := Return 1;
     jobAt := fun i => if i =? 0 then Return exampleJob else Throw "no job";
     jobAtSettles := Z.to_nat;
     numNetworks := Return 2;
     networkAt := fun i =>
       if i =? 0 then Return Constants.KEEP3R_NETWORK_TAG
       else if i =? 1 then Return otherNetwork else Throw "no network" |}.

(** The same sequencer without the keeper on its whitelist. *)
Definition keeperAbsent : Sequencer :=
  {| totalWindowSize := Return 13;
     numJobs := Return 1;
     jobAt := fun i => if i =? 0 then Return exampleJob else Throw "no job";
     jobAtSettles := Z.to_nat;
     numNetworks := Return 1;
     networkAt := fun i =>
       if i =? 0 then Return otherNetwork else Throw "no network" |}.

(** The variables of a keeper third of five networks, with windows of 13
    blocks and no job. *)
Definition keeperThirdOfFive : Globals :=
  {| jobWorkInProgress := ∅;
     blocksInWindow := Num 13;
     networksAmount := Num 5;
     keep3rSequencerPosition := Num 2;
     jobs := [] |}.

(** A whitelist of three in which the keeper comes last. *)
Definition threeNetworks : Sequencer :=
  {| totalWindowSize := Return 13;
     numJobs := Return 0;
     jobAt := fun _ => Throw "no job";
     jobAtSettles := Z.to_nat;
     numNetworks := Return 3;
     networkAt := fun i =>
       if i =? 2 then Return Constants.KEEP3R_NETWORK_TAG
       else Return otherNetwork |}.

(** *** Vocabulary of the further properties *)

(** A call of [tryToWorkJob] for [job] that has set the flag and not yet
    reached its [finally]. *)
Definition holding (job : Address) (t : FlashbotsScript.Suspended) : bool :=
  match t with
  | FlashbotsScript.Try_getTransactionCount j _ _
  | FlashbotsScript.Try_populateTransactions j _
  | FlashbotsScript.Try_sendAndRetry j => String.eqb j job
  | _ => false
  end.

(** The flag of [job] is up only if a call for [job] holds it. *)
Definition held (p : FlashbotsScript.Process) : Prop :=
  forall job,
    inProgress (FlashbotsScript.globals p) job = true ->
    exists t, In t (FlashbotsScript.tasks p) /\ holding job t = true.

(** How often [job.workable] was called for [job], in either script. *)
Definition isAsk (job : Address) (e : FlashbotsScript.Effect) : bool :=
  match e with
  | FlashbotsScript.JobWorkable j => String.eqb j job
  | _ => false
  end.

Definition asked (job : Address) (effects : list FlashbotsScript.Effect) : nat :=
  length (List.filter (isAsk job) effects).

Definition isAskB (job : Address) (e : BroadcastorScript.Effect) : bool :=
  match e with
  | BroadcastorScript.JobWorkable j => String.eqb j job
  | _ => false
  end.

Definition askedB (job : Address) (effects : list BroadcastorScript.Effect)
  : nat :=
  length (List.filter (isAskB job) effects).

(** Where a call of [tryToWorkJob] for [job] can stand, counting its
    broadcasts: none before the broadcast, one while it waits for it, at most
    one at the end; and it broadcasts for no other job. *)
Definition onlyFor (job : Address) (effects : list FlashbotsScript.Effect)
  : Prop :=
  Forall (fun e => match e with
                   | FlashbotsScript.SendAndRetryUntilNotWorkable j _ _ => j = job
                   | _ => True
                   end) effects.

Definition counted (job : Address) (s : FlashbotsScript.Stretch) : Prop :=
  onlyFor job (FlashbotsScript.did s)
  /\ match FlashbotsScript.waiting s with
     | [] => (sends job (FlashbotsScript.did s) <= 1)%nat
     | [FlashbotsScript.Try_workable j _]
     | [FlashbotsScript.Try_getTransactionCount j _ _]
     | [FlashbotsScript.Try_populateTransactions j _] =>
         j = job /\ sends job (FlashbotsScript.did s) = O
     | [FlashbotsScript.Try_sendAndRetry j] =>
         j = job /\ sends job (FlashbotsScript.did s) = 1%nat
     | _ => False
     end.

(** What the stream callback of the Flashbots script does for the tracked
    jobs on a block of the window: a job whose flag is up is only logged, any
    other is asked whether it is workable and its call is left waiting. *)
Definition dispatched (g : Globals) (jobAddresses : list Address)
  : list FlashbotsScript.Effect :=
  map (fun job =>
         if inProgress g job then
           FlashbotsScript.Console (FlashbotsScript.WorkInProgress job)
         else FlashbotsScript.JobWorkable job)
    jobAddresses.

Definition started (g : Globals) (block : Block) (jobAddresses : list Address)
  : list FlashbotsScript.Suspended :=
  map (fun job => FlashbotsScript.Try_workable job block)
    (List.filter (fun job => negb (inProgress g job)) jobAddresses).

(** [storeJobs] in terms of the mapping alone. *)
Definition storeAll (jobAddresses : list Address)
  (o : list (Address * option UnsubscribeFunction))
  : list (Address * option UnsubscribeFunction) :=
  fold_left (fun o jobAddress => JsObject.set o jobAddress None) jobAddresses o.

(** A sequencer whose second job cannot be read. *)
Definition secondJobUnreadable : Sequencer :=
  {| totalWindowSize := Return 13;
     numJobs := Return 2;
     jobAt := fun i => if i =? 0 then Return exampleJob else Throw "timeout";
     jobAtSettles := Z.to_nat;
     numNetworks := Return 2;
     networkAt := fun i =>
       if i =? 0 then Return otherNetwork else Throw "timeout" |}.

(** The variables of a keeper first of two networks whose window length has
    been set to 0. *)
Definition zeroWindow : Globals :=
  {| jobWorkInProgress := ∅;
     blocksInWindow := Num 0;
     networksAmount := Num 2;
     keep3rSequencerPosition := Num 0;
     jobs := [(exampleJob, None)] |}.

(** Two refreshes of the networks that overlap.  The first is started by an
    event that leaves a whitelist of three with the keeper last; it has read
    the size and the first two members, and has asked for the third, when a
    network is removed and the keeper moves to index 1.  The second, started
    by that removal, runs from its first read to its end. *)
Definition secondRefreshDone : Refreshing :=
  let first :=
    startRefresh {| variables := keeperThirdOfFive; refreshes := [] |} in
  let first := settleRefresh first 0 (NetworksCount (Return 3)) in
  let first := settleRefresh first 0 (NetworkAt (Return otherNetwork)) in
  let first := settleRefresh first 0 (NetworkAt (Return otherNetwork)) in
  let both := startRefresh first in
  let both := settleRefresh both 1 (NetworksCount (Return 2)) in
  let both := settleRefresh both 1 (NetworkAt (Return otherNetwork)) in
  settleRefresh both 1 (NetworkAt (Return Constants.KEEP3R_NETWORK_TAG)).

(** Then the third member the first refresh had asked for arrives. *)
Definition overlappingRefreshes : Refreshing :=
  settleRefresh secondRefreshDone 0
    (NetworkAt (Return Constants.KEEP3R_NETWORK_TAG)).

(** * Properties *)

(** ** Window arithmetic *)
Section WindowMath.

Lemma safe_lt_huge : 2 ^ 53 < 2 ^ 1024.
Proof. apply Z.pow_lt_mono_r; lia. Qed.

Lemma of_magnitude_small (negative : bool) (m : Z) :
  m < 2 ^ 1024 ->
  JsNumber.of_magnitude negative m = Num (if negative then - m else m).
Proof.
  intros H. unfold JsNumber.of_magnitude.
  destruct (Z.leb_spec (2 ^ 1024) m); [lia | reflexivity].
Qed.

Lemma round_exact (z : Z) : Z.abs z < 2 ^ 53 -> JsNumber.round z = Num z.
Proof.
  intros H. pose proof safe_lt_huge as Hh.
  unfold JsNumber.round, JsNumber.round_magnitude.
  destruct (Z.ltb_spec (Z.abs z) (2 ^ 53)); [| lia].
  rewrite of_magnitude_small by lia.
  destruct (Z.ltb_spec z 0); f_equal; lia.
Qed.

Lemma round_not_NaN (z : Z) : JsNumber.round z <> NaN.
Proof.
  unfold JsNumber.round, JsNumber.of_magnitude.
  destruct (2 ^ 1024 <=? _); destruct (z <? 0); discriminate.
Qed.

Lemma nearest_bounds (n d : Z) :
  0 <= n -> 0 < d ->
  n / d <= JsNumber.nearest n d <= n / d + 1 /\
  (2 * (n mod d) < d -> JsNumber.nearest n d = n / d) /\
  (d < 2 * (n mod d) -> JsNumber.nearest n d = n / d + 1).
Proof.
  intros Hn Hd. unfold JsNumber.nearest.
  destruct (Z.ltb_spec d (2 * (n mod d))); cbn [orb].
  - repeat split; lia.
  - destruct (Z.eqb_spec (2 * (n mod d)) d); cbn [andb].
    + destruct (Z.odd (n / d)); repeat split; lia.
    + repeat split; lia.
Qed.

(** Rounding to the nearest integer keeps a quotient on its side of every
    integer and of every half. *)
Lemma nearest_le (n d k : Z) :
  0 <= n -> 0 < d -> n <= k * d -> JsNumber.nearest n d <= k.
Proof.
  intros Hn Hd H.
  destruct (nearest_bounds n d Hn Hd) as (Hb & Hlow & _).
  pose proof (Z.div_mod n d ltac:(lia)) as E.
  pose proof (Z.mod_pos_bound n d Hd) as Hr.
  destruct (Z.eq_dec (n mod d) 0) as [Hz | Hz].
  - rewrite Hlow by lia. nia.
  - assert (n / d < k) by nia. lia.
Qed.

Lemma nearest_ge (n d k : Z) :
  0 <= n -> 0 < d -> k * d <= n -> k <= JsNumber.nearest n d.
Proof.
  intros Hn Hd H.
  destruct (nearest_bounds n d Hn Hd) as (Hb & _ & _).
  pose proof (Z.div_mod n d ltac:(lia)) as E.
  pose proof (Z.mod_pos_bound n d Hd) as Hr.
  assert (k <= n / d) by nia. lia.
Qed.

Lemma nearest_above_half (n d k : Z) :
  0 <= n -> 0 < d -> (2 * k + 1) * d < 2 * n -> k + 1 <= JsNumber.nearest n d.
Proof.
  intros Hn Hd H.
  destruct (nearest_bounds n d Hn Hd) as (Hb & _ & Hup).
  pose proof (Z.div_mod n d ltac:(lia)) as E.
  pose proof (Z.mod_pos_bound n d Hd) as Hr.
  assert (k <= n / d) by nia.
  destruct (Z.eq_dec k (n / d)) as [-> | Hne]; [| lia].
  rewrite Hup by nia. lia.
Qed.

Lemma nearest_below_half (n d k : Z) :
  0 <= n -> 0 < d -> 2 * n < (2 * k + 1) * d -> JsNumber.nearest n d <= k.
Proof.
  intros Hn Hd H.
  destruct (nearest_bounds n d Hn Hd) as (Hb & Hlow & _).
  pose proof (Z.div_mod n d ltac:(lia)) as E.
  pose proof (Z.mod_pos_bound n d Hd) as Hr.
  assert (n / d <= k) by nia.
  destruct (Z.eq_dec k (n / d)) as [-> | Hne]; [| lia].
  rewrite Hlow by nia. lia.
Qed.

(** The quotient of two integers below [2^53] is rounded to a double on the
    same side of every integer: its floor and its ceiling are those of the
    exact quotient. *)
Lemma quotient_floor_ceil_exact (a b : Z) :
  0 < a < 2 ^ 53 -> 0 < b <= 2 ^ 53 ->
  JsNumber.quotient_floor_ceil a b = (a / b, - ((- a) / b)).
Proof.
  intros Ha Hb. unfold JsNumber.quotient_floor_ceil.
  assert (H54 : 2 ^ 54 = 2 * 2 ^ 53) by reflexivity.
  destruct (Z.ltb_spec a b) as [Hlt | Hge].
  - destruct (Z.leb_spec (b * (2 ^ 54 - 1)) (a * 2 ^ 54)) as [Hc | Hc]; [nia |].
    rewrite Z.div_small by lia.
    replace ((- a) / b) with (-1); [reflexivity |].
    apply Z.div_unique with (r := b - a); lia.
  - pose proof (Z.div_mod a b ltac:(lia)) as E.
    pose proof (Z.mod_pos_bound a b ltac:(lia)) as Hr.
    assert (Hq : 0 < a / b) by (apply Z.div_str_pos; lia).
    destruct (Z.log2_spec (a / b) Hq) as [Hlo Hhi].
    pose proof (Z.log2_nonneg (a / b)) as He0.
    set (e := Z.log2 (a / b)) in *. clearbody e.
    assert (Hq53 : a / b < 2 ^ 53) by nia.
    assert (He : e <= 52).
    { destruct (Z.le_gt_cases e 52) as [|Hgt]; [assumption |].
      assert (2 ^ 53 <= 2 ^ e) by (apply Z.pow_le_mono_r; lia). lia. }
    pose proof (Z.div_mod (- a) b ltac:(lia)) as E'.
    pose proof (Z.mod_pos_bound (- a) b ltac:(lia)) as Hr'.
    destruct (Z.leb_spec 52 e) as [H52 | H52].
    + assert (e = 52) by lia. subst e.
      change (2 ^ (52 - 52)) with 1. rewrite !Z.mul_1_r.
      assert (H53 : 2 ^ 53 = 2 * 2 ^ 52) by reflexivity.
      assert (b = 1) by nia.
      subst b. rewrite !Z.div_1_r.
      destruct (nearest_bounds a 1 ltac:(lia) ltac:(lia)) as (_ & Hlow & _).
      rewrite Hlow by (rewrite Z.mod_1_r; lia).
      rewrite Z.div_1_r. f_equal. lia.
    + set (k := 52 - e). assert (Hk : 0 < k) by lia.
      assert (HP : 0 < 2 ^ k) by (apply Z.pow_pos_nonneg; lia).
      assert (Hsplit : 2 ^ 53 = 2 ^ e * (2 * 2 ^ k)).
      { replace 53 with (e + (1 + k)) by lia.
        rewrite Z.pow_add_r by lia. rewrite Z.pow_add_r by lia. reflexivity. }
      assert (He' : 0 < 2 ^ e) by (apply Z.pow_pos_nonneg; lia).
      assert (Hb2 : b < 2 * 2 ^ k) by nia.
      set (P := 2 ^ k) in *.
      set (m := JsNumber.nearest (a * P) b).
      set (f := a / b) in *. set (c' := (- a) / b) in *.
      assert (Hf1 : f * P <= m) by (apply nearest_ge; nia).
      assert (Hf2 : m <= (f + 1) * P - 1) by (apply nearest_below_half; nia).
      assert (Hc1 : m <= (- c') * P) by (apply nearest_le; nia).
      assert (Hc2 : (- c' - 1) * P + 1 <= m) by (apply nearest_above_half; nia).
      f_equal.
      * symmetry. apply Z.div_unique with (r := m - f * P); lia.
      * f_equal. symmetry. apply Z.div_unique with (r := - m - c' * P); lia.
Qed.

Lemma ceil_div_exact (x y : Z) :
  Z.abs x < 2 ^ 53 -> 0 < y <= 2 ^ 53 ->
  JsNumber.ceil_div (Num x) (Num y) = Num (- ((- x) / y)).
Proof.
  intros Hx Hy. pose proof safe_lt_huge as Hh. unfold JsNumber.ceil_div.
  destruct (Z.eqb_spec y 0); [lia |].
  destruct (Z.eqb_spec x 0) as [-> | Hx0]; [reflexivity |].
  rewrite quotient_floor_ceil_exact by lia.
  replace (Z.abs y) with y by lia.
  pose proof (Z.div_mod (Z.abs x) y ltac:(lia)) as E.
  pose proof (Z.mod_pos_bound (Z.abs x) y ltac:(lia)) as Hr.
  pose proof (Z.div_mod (- Z.abs x) y ltac:(lia)) as E'.
  pose proof (Z.mod_pos_bound (- Z.abs x) y ltac:(lia)) as Hr'.
  destruct (Z.ltb_spec (Z.sgn x * Z.sgn y) 0) as [Hs | Hs].
  - assert (x < 0) by nia.
    rewrite of_magnitude_small by nia.
    replace (- x) with (Z.abs x) by lia. reflexivity.
  - assert (0 < x) by nia.
    rewrite of_magnitude_small by nia.
    replace (Z.abs x) with x by lia. reflexivity.
Qed.

(** The function in integer terms, when every step of it stays below
    [2^53]. *)
Lemma calculateNextMasterWindow_exact (b w n p : Z) :
  0 < w * n < 2 ^ 53 ->
  Z.abs (p * w) < 2 ^ 53 ->
  Z.abs (b + - (p * w)) < 2 ^ 53 ->
  Z.abs (w * n * - ((- (b + - (p * w))) / (w * n))) < 2 ^ 53 ->
  Z.abs (w * n * - ((- (b + - (p * w))) / (w * n)) + p * w) < 2 ^ 53 ->
  Misc.calculateNextMasterWindow (Num b) (Num w) (Num n) (Num p)
  = Num (w * n * - ((- (b + - (p * w))) / (w * n)) + p * w).
Proof.
  intros Hm Ho Hd Hk Hr. unfold Misc.calculateNextMasterWindow.
  cbv beta iota zeta delta [JsNumber.mul JsNumber.sub JsNumber.neg].
  rewrite (round_exact (w * n)) by lia.
  rewrite (round_exact (p * w)) by lia.
  cbv beta iota zeta delta [JsNumber.add JsNumber.neg].
  rewrite (round_exact (b + - (p * w))) by lia.
  rewrite ceil_div_exact by lia.
  rewrite round_exact by lia.
  rewrite round_exact by lia.
  reflexivity.
Qed.

Lemma calculateNextMainWindow_same (b w n p : Number) :
  Misc.calculateNextMainWindow b w n p = Misc.calculateNextMasterWindow b w n p.
Proof. reflexivity. Qed.

(** The value in integer terms, with what makes it the next window
    start. *)
Lemma next_start_facts (b m off : Z) :
  0 < m ->
  let r := m * - ((- (b - off)) / m) + off in
  b <= r < b + m /\ r mod m = off mod m.
Proof.
  intros Hm r.
  pose proof (Z.div_mod (- (b - off)) m ltac:(lia)) as Hdm.
  pose proof (Z.mod_pos_bound (- (b - off)) m Hm) as Hb.
  split; [subst r; lia|].
  subst r. rewrite Z.add_comm, Z.mul_comm. apply Z.mod_add. lia.
Qed.

Lemma congruent_below (m x y : Z) :
  0 < m -> x mod m = y mod m -> x < y -> x + m <= y.
Proof.
  intros Hm Heq Hlt.
  pose proof (Z.div_mod x m ltac:(lia)).
  pose proof (Z.div_mod y m ltac:(lia)).
  pose proof (Z.mod_pos_bound x m Hm).
  assert (x / m < y / m) by nia.
  nia.
Qed.

(** The function in integer terms, for an offset inside the cycle and a
    block that leaves room for one cycle below [2^53]. *)
Lemma calculateNextMasterWindow_Num (b w n p : Z) :
  0 < w * n ->
  0 <= p * w < w * n ->
  Z.abs b + w * n < 2 ^ 53 ->
  Misc.calculateNextMasterWindow (Num b) (Num w) (Num n) (Num p)
  = Num (w * n * - ((- (b + - (p * w))) / (w * n)) + p * w).
Proof.
  intros Hm Ho Hb.
  pose proof (next_start_facts b (w * n) (p * w) Hm) as [Hr _].
  cbv zeta in Hr.
  replace (b - p * w) with (b + - (p * w)) in Hr by lia.
  apply calculateNextMasterWindow_exact; lia.
Qed.

(** From [2^53] on the products and the sum of the function are rounded: for
    window length 13, whitelist size 5, position 2 and block
    9007199254740990 the cycle count 138572296226785 times 65 is
    9007199254741025, which is stored as 9007199254741024, and the result
    9007199254741050 leaves the remainder 25 modulo 65 where the offset is
    26. *)
Lemma calculateNextMasterWindow_rounded :
  13 >= 1 /\ 5 >= 1 /\ 0 <= 2 < 5
  /\ Misc.calculateNextMasterWindow (Num 9007199254740990) (Num 13) (Num 5)
       (Num 2) = Num 9007199254741050
  /\ 9007199254741050 mod (13 * 5) <> (2 * 13) mod (13 * 5).
Proof.
  split; [lia|]. split; [lia|]. split; [lia|].
  split; [vm_compute; reflexivity|].
  vm_compute. discriminate.
Qed.

(** C1. For integers with [windowLength >= 1], [whitelistSize >= 1],
    [0 <= selfPosition < whitelistSize] and
    [|currentBlock| + windowLength * whitelistSize < 2^53],
    [calculateNextMasterWindow] returns an integer that is at least
    [currentBlock], is congruent to [selfPosition * windowLength] modulo
    [windowLength * whitelistSize], and is the smallest such block; it
    returns [currentBlock] itself when that is the offset plus a multiple of
    the full cycle; and it returns 156 for window length 13, whitelist size
    5, position 2 and block 100.  The function under its other name,
    [calculateNextMainWindow], returns the same. *)
Theorem calculateNextMasterWindow_next_start
  (currentBlock windowLength whitelistSize selfPosition : Z) :
  windowLength >= 1 ->
  whitelistSize >= 1 ->
  0 <= selfPosition < whitelistSize ->
  Z.abs currentBlock + windowLength * whitelistSize < 2 ^ 53 ->
  let fullCycle := windowLength * whitelistSize in
  let offset := selfPosition * windowLength in
  exists r : Z,
    Misc.calculateNextMasterWindow (Num currentBlock) (Num windowLength)
      (Num whitelistSize) (Num selfPosition) = Num r
    /\ Misc.calculateNextMainWindow (Num currentBlock) (Num windowLength)
         (Num whitelistSize) (Num selfPosition) = Num r
    /\ currentBlock <= r
    /\ r mod fullCycle = offset mod fullCycle
    /\ (forall b : Z,
          currentBlock <= b -> b mod fullCycle = offset mod fullCycle ->
          r <= b)
    /\ (forall k : Z, currentBlock = offset + k * fullCycle ->
          r = currentBlock)
    /\ Misc.calculateNextMasterWindow (Num 100) (Num 13) (Num 5) (Num 2)
       = Num 156.
Proof.
  intros Hw Hn Hp Hsafe fullCycle offset.
  assert (Hm : 0 < fullCycle) by (subst fullCycle; nia).
  assert (Ho : 0 <= offset < fullCycle) by (subst fullCycle offset; nia).
  pose proof (next_start_facts currentBlock fullCycle offset Hm) as [Hr Hc].
  cbv zeta in Hr, Hc.
  set (r := fullCycle * - (- (currentBlock - offset) / fullCycle) + offset)
    in *.
  assert (Hmin : forall b : Z,
             currentBlock <= b -> b mod fullCycle = offset mod fullCycle ->
             r <= b).
  { intros b Hb Hbc.
    destruct (Z_lt_le_dec b r) as [Hlt|]; [|assumption].
    pose proof (congruent_below fullCycle b r Hm ltac:(congruence) Hlt).
    lia. }
  exists r. split; [|split; [|split; [|split; [|split; [|split]]]]].
  - rewrite calculateNextMasterWindow_Num by assumption. reflexivity.
  - rewrite calculateNextMainWindow_same.
    rewrite calculateNextMasterWindow_Num by assumption. reflexivity.
  - lia.
  - exact Hc.
  - exact Hmin.
  - intros k Hk.
    assert (r <= currentBlock).
    { apply Hmin; [lia|]. rewrite Hk. apply Z.mod_add. lia. }
    lia.
  - vm_compute. reflexivity.
Qed.

Lemma calculateNextMasterWindow_next_start_witness :
  exists r : Z,
    Misc.calculateNextMasterWindow (Num 26) (Num 13) (Num 5) (Num 2) = Num r
    /\ r = 26.
Proof.
  destruct (calculateNextMasterWindow_next_start 26 13 5 2
              ltac:(lia) ltac:(lia) ltac:(lia) ltac:(lia))
    as (r & Hr & _ & _ & _ & _ & Hk & _).
  exists r. split; [exact Hr|]. apply (Hk 0). reflexivity.
Defined.

End WindowMath.

(** ** Environment variables *)
Section Environment.

(** An unset variable does not always make [getEnvVariable] throw:
    [process.env] inherits [toString] from [Object.prototype], so for that
    name the lookup gives a function, which is truthy and is returned. *)
Lemma getEnvVariable_unset_toString :
  (∅ : gmap string string) !! "toString" = None
  /\ Misc.getEnvVariable ∅ "toString" = Return (Misc.Inherited "toString")
  /\ ~ (exists message, Misc.getEnvVariable ∅ "toString" = Throw message).
Proof.
  split; [reflexivity|]. split; [reflexivity|].
  intros [message H]. discriminate H.
Qed.

(** C10. [getEnvVariable] returns the value of the variable unchanged when it
    is a non-empty string.  It throws exactly when the variable holds the
    empty string, or is unset under a name that [Object.prototype] does not
    define; the error it throws then carries the name of the variable in its
    message.  For an unset variable named like a property of
    [Object.prototype] it returns what [process.env] inherits under that
    name. *)
Theorem getEnvVariable_value_or_error (env : gmap string string) (name : string) :
  (forall value : string,
      env !! name = Some value -> value <> "" ->
      Misc.getEnvVariable env name = Return (Misc.EnvString value))
  /\ (((env !! name = None /\ Misc.inherited name = false)
       \/ env !! name = Some "")
      <-> exists message, Misc.getEnvVariable env name = Throw message)
  /\ (forall message : string,
        Misc.getEnvVariable env name = Throw message ->
        message = "Environment variable " +:+ name +:+ " not found")
  /\ (env !! name = None -> Misc.inherited name = true ->
      Misc.getEnvVariable env name = Return (Misc.Inherited name)).
Proof.
  unfold Misc.getEnvVariable, Misc.processEnv.
  destruct (env !! name) as [value|] eqn:Hlook.
  - destruct (String.eqb_spec value "") as [Hv|Hv].
    + subst value. repeat split.
      * intros v Hs Hne. congruence.
      * intros _. eexists. reflexivity.
      * intros _. right. reflexivity.
      * intros m Hm. congruence.
      * discriminate.
    + repeat split.
      * intros v Hs _. congruence.
      * intros [[H _]|H]; congruence.
      * intros [m Hm]. discriminate.
      * intros m Hm. discriminate.
      * discriminate.
  - destruct (Misc.inherited name) eqn:Hin.
    + repeat split.
      * intros v Hv. discriminate.
      * intros [[_ H]|H]; discriminate.
      * intros [m Hm]. discriminate.
      * intros m Hm. discriminate.
    + repeat split.
      * intros v Hv. discriminate.
      * intros _. eexists. reflexivity.
      * intros _. left. split; reflexivity.
      * intros m Hm. congruence.
      * discriminate.
Qed.

End Environment.

(** ** The position of the keeper in the whitelist *)
Section Networks.

Variable sequencer : Sequencer.

Lemma scanNetworks_step (index : Z) (todo : nat) (g : Globals) :
  scanNetworks sequencer index (S todo) g =
  match networkAt sequencer index with
  | Return network =>
      if String.eqb network Constants.KEEP3R_NETWORK_TAG then
        (set_keep3rSequencerPosition g (Num index), Return true)
      else scanNetworks sequencer (index + 1) todo g
  | Throw e => (g, Throw e)
  end.
Proof.
  cbn [scanNetworks]. unfold bind, await.
  destruct (networkAt sequencer index) as [network|e]; [|reflexivity].
  destruct (String.eqb network Constants.KEEP3R_NETWORK_TAG); reflexivity.
Qed.

(** The scan over resolved reads stops at the first index that holds the tag,
    or runs through all of them. *)
Lemma scanNetworks_first (todo : nat) :
  forall (index : Z) (g : Globals),
    (forall i, index <= i < index + Z.of_nat todo ->
               exists t, networkAt sequencer i = Return t) ->
    (scanNetworks sequencer index todo g = (g, Return false)
     /\ forall i, index <= i < index + Z.of_nat todo ->
                  networkAt sequencer i <> Return Constants.KEEP3R_NETWORK_TAG)
    \/ (exists pos,
          index <= pos < index + Z.of_nat todo
          /\ scanNetworks sequencer index todo g
             = (set_keep3rSequencerPosition g (Num pos), Return true)
          /\ networkAt sequencer pos = Return Constants.KEEP3R_NETWORK_TAG
          /\ forall i, index <= i < pos ->
                       networkAt sequencer i
                       <> Return Constants.KEEP3R_NETWORK_TAG).
Proof.
  induction todo as [|todo IH]; intros index g Hreads.
  - left. split; [reflexivity|]. intros i Hi. lia.
  - rewrite scanNetworks_step.
    destruct (Hreads index ltac:(lia)) as [t Ht]. rewrite Ht.
    destruct (String.eqb_spec t Constants.KEEP3R_NETWORK_TAG) as [Heq|Hne].
    + right. exists index. subst t.
      repeat split; try lia. exact Ht.
    + destruct (IH (index + 1) g) as [[Hscan Hnone]|(pos & Hpos & Hscan & Hat & Hbefore)].
      * intros i Hi. apply Hreads. lia.
      * left. split; [exact Hscan|].
        intros i Hi. destruct (Z.eq_dec i index) as [->|Hi'].
        -- rewrite Ht. congruence.
        -- apply Hnone. lia.
      * right. exists pos. repeat split; try lia; try assumption.
        intros i Hi. destruct (Z.eq_dec i index) as [->|Hi'].
        -- rewrite Ht. congruence.
        -- apply Hbefore. lia.
Qed.

(** A count below [2^53] is a JavaScript number; any other makes
    [toNumber()] throw. *)
Lemma toNumber_safe (value : Z) :
  Z.abs value < 2 ^ 53 -> BigNumber.toNumber value = Return (Num value).
Proof.
  intros H. unfold BigNumber.toNumber.
  destruct (Z.ltb_spec (Z.abs value) (2 ^ 53)); [reflexivity | lia].
Qed.

Lemma toNumber_cases (value : Z) :
  (Z.abs value < 2 ^ 53 /\ BigNumber.toNumber value = Return (Num value))
  \/ (2 ^ 53 <= Z.abs value
      /\ BigNumber.toNumber value = Throw "overflow").
Proof.
  unfold BigNumber.toNumber.
  destruct (Z.ltb_spec (Z.abs value) (2 ^ 53)); [left | right]; split;
    solve [assumption | reflexivity].
Qed.

(** The recomputation over resolved reads, written with the setters. *)
Lemma fetchAndUpdateNetworksData_resolved (g : Globals) (n : Z) :
  numNetworks sequencer = Return n ->
  Z.abs n < 2 ^ 53 ->
  (forall i, 0 <= i < n -> exists t, networkAt sequencer i = Return t) ->
  exists pos : Z,
    fetchAndUpdateNetworksData sequencer g
    = (set_keep3rSequencerPosition (set_networksAmount g (Num n)) (Num pos),
       Return tt)
    /\ ((pos = -1
         /\ forall i, 0 <= i < n ->
              networkAt sequencer i <> Return Constants.KEEP3R_NETWORK_TAG)
        \/ (0 <= pos < n
            /\ networkAt sequencer pos = Return Constants.KEEP3R_NETWORK_TAG
            /\ forall i, 0 <= i < pos ->
                 networkAt sequencer i
                 <> Return Constants.KEEP3R_NETWORK_TAG)).
Proof.
  intros Hn Hsafe Hreads.
  unfold fetchAndUpdateNetworksData, bind, await, assign, read.
  rewrite Hn, (toNumber_safe n Hsafe).
  cbn [networksAmount set_networksAmount iterations].
  set (g1 := set_networksAmount g (Num n)).
  destruct (scanNetworks_first (Z.to_nat n) 0 g1)
    as [[Hscan Hnone]|(pos & Hpos & Hscan & Hat & Hbefore)].
  - intros i Hi. apply Hreads. lia.
  - exists (-1). rewrite Hscan. split; [reflexivity|].
    left. split; [reflexivity|]. intros i Hi. apply Hnone. lia.
  - exists pos. rewrite Hscan. split; [reflexivity|].
    right. repeat split; try lia; assumption.
Qed.

(** The loop of a run on its own is the loop of the function. *)
Lemma refreshAlone_scan (n : Z) (todo : nat) :
  forall (index : Z) (g : Globals),
    networksAmount g = Num n ->
    index + Z.of_nat (S todo) = n ->
    refreshAlone sequencer (Refresh_networkAt index) (S todo) g
    = match scanNetworks sequencer index (S todo) g with
      | (g', Return false) => set_keep3rSequencerPosition g' (Num (-1))
      | (g', _) => g'
      end.
Proof.
  induction todo as [|todo IH]; intros index g Hn Hi.
  - rewrite scanNetworks_step. cbn [refreshAlone answerOf refreshResume].
    destruct (networkAt sequencer index) as [network|e]; [|reflexivity].
    destruct (String.eqb network Constants.KEEP3R_NETWORK_TAG);
      [reflexivity|].
    unfold refreshLoop. rewrite Hn. cbn [JsNumber.lt scanNetworks ret].
    destruct (Z.ltb_spec (index + 1) n); [lia | reflexivity].
  - rewrite scanNetworks_step.
    cbn [refreshAlone answerOf refreshResume].
    destruct (networkAt sequencer index) as [network|e]; [|reflexivity].
    destruct (String.eqb network Constants.KEEP3R_NETWORK_TAG);
      [reflexivity|].
    unfold refreshLoop. rewrite Hn. cbn [JsNumber.lt].
    destruct (Z.ltb_spec (index + 1) n); [|lia].
    apply IH; [exact Hn | lia].
Qed.

(** A run that nothing interrupts leaves the variables as the function
    evaluated in one go does, whatever its reads are answered. *)
Lemma refreshAlone_whole (g : Globals) :
  refreshAlone sequencer Refresh_numNetworks
    (match numNetworks sequencer with
     | Return n => S (Z.to_nat n)
     | Throw _ => 1%nat
     end) g
  = fst (fetchAndUpdateNetworksData sequencer g).
Proof.
  unfold fetchAndUpdateNetworksData, bind, await, assign, read.
  destruct (numNetworks sequencer) as [n|e] eqn:Hn;
    cbn [refreshAlone answerOf refreshResume]; rewrite Hn; [|reflexivity].
  destruct (toNumber_cases n) as [[Hsafe ->]|[Hbig ->]]; [|reflexivity].
  cbn [networksAmount set_networksAmount iterations].
  set (g1 := set_networksAmount g (Num n)).
  unfold refreshLoop. cbn [networksAmount g1 set_networksAmount JsNumber.lt].
  destruct (Z.ltb_spec 0 n) as [Hpos|Hnon].
  - destruct (Z.to_nat n) as [|todo] eqn:Htodo; [lia|].
    rewrite (refreshAlone_scan n todo 0 g1); [|reflexivity|lia].
    destruct (scanNetworks sequencer 0 (S todo) g1) as [g' [[|]|e]];
      reflexivity.
  - replace (Z.to_nat n) with O by lia. reflexivity.
Qed.

(** C8. The position does not always end as the least index that holds the
    keeper's tag, nor below the whitelist size.  Two recomputations that
    overlap, all their reads resolving: the one started last ends with size 2
    and position 1, the keeper's place in the whitelist of two, and the read
    the earlier one was still waiting for then writes position 2, which is no
    index of that whitelist; no recomputation is left to correct it.  And a
    read that rejects ends a recomputation where it stands, with the new size
    and the position of the whitelist before: from the third place of five,
    with a whitelist that has shrunk to two and whose second member cannot be
    read, the position is left at 2. *)
Theorem recomputation_leaves_stale_position :
  (refreshes secondRefreshDone = [Refresh_networkAt 2]
   /\ networksAmount (variables secondRefreshDone) = Num 2
   /\ keep3rSequencerPosition (variables secondRefreshDone) = Num 1
   /\ refreshes overlappingRefreshes = []
   /\ networksAmount (variables overlappingRefreshes) = Num 2
   /\ keep3rSequencerPosition (variables overlappingRefreshes) = Num 2)
  /\ (let g' := fst (fetchAndUpdateNetworksData secondJobUnreadable
                        keeperThirdOfFive) in
      snd (fetchAndUpdateNetworksData secondJobUnreadable keeperThirdOfFive)
      = Throw "timeout"
      /\ networksAmount g' = Num 2
      /\ keep3rSequencerPosition g' = Num 2).
Proof. vm_compute. repeat split. Qed.

(** A recomputation that nothing overlaps and whose reads resolve
    ([numNetworks] with a size [n] below [2^53], and [networkAt] at every
    index below [n]) returns with [networksAmount = n] and with
    [keep3rSequencerPosition] the least index below [n] whose member is the
    keeper's tag, or -1 when no index below [n] holds it; so the position is
    below the whitelist size whenever it is not -1.  It writes no other
    variable.  The recomputation at startup and the listeners of the two
    whitelist events are this same function. *)
Theorem fetchAndUpdateNetworksData_position (g : Globals) (n : Z) :
  numNetworks sequencer = Return n ->
  0 <= n < 2 ^ 53 ->
  (forall i, 0 <= i < n -> exists t, networkAt sequencer i = Return t) ->
  (exists (g' : Globals) (pos : Z),
      fetchAndUpdateNetworksData sequencer g = (g', Return tt)
      /\ refreshAlone sequencer Refresh_numNetworks (S (Z.to_nat n)) g = g'
      /\ networksAmount g' = Num n
      /\ keep3rSequencerPosition g' = Num pos
      /\ blocksInWindow g' = blocksInWindow g
      /\ jobs g' = jobs g
      /\ jobWorkInProgress g' = jobWorkInProgress g
      /\ ((pos = -1
           /\ forall i, 0 <= i < n ->
                networkAt sequencer i <> Return Constants.KEEP3R_NETWORK_TAG)
          \/ (0 <= pos < n
              /\ networkAt sequencer pos = Return Constants.KEEP3R_NETWORK_TAG
              /\ forall i, 0 <= i < pos ->
                   networkAt sequencer i
                   <> Return Constants.KEEP3R_NETWORK_TAG))
      /\ (pos <> -1 -> pos < n))
  /\ (forall network window,
        listen Networks_AddNetwork (AddNetwork network window) sequencer g
        = ([], fst (fetchAndUpdateNetworksData sequencer g)))
  /\ (forall network,
        listen Networks_RemoveNetwork (RemoveNetwork network) sequencer g
        = ([], fst (fetchAndUpdateNetworksData sequencer g))).
Proof.
  intros Hn Hsafe Hreads. split; [|split; reflexivity].
  destruct (fetchAndUpdateNetworksData_resolved g n Hn ltac:(lia) Hreads)
    as (pos & Hfetch & Hleast).
  pose proof (refreshAlone_whole g) as Halone.
  rewrite Hn, Hfetch in Halone. cbn [fst] in Halone.
  eexists. exists pos. split; [exact Hfetch|].
  split; [exact Halone|].
  repeat (split; [reflexivity|]).
  split; [exact Hleast|].
  intros Hpos. destruct Hleast as [[Hminus _]|[Hin _]]; lia.
Qed.

End Networks.


Lemma fetchAndUpdateNetworksData_position_witness :
  exists (g' : Globals) (pos : Z),
    fetchAndUpdateNetworksData threeNetworks FlashbotsScript.initialGlobals
    = (g', Return tt)
    /\ networksAmount g' = Num 3
    /\ keep3rSequencerPosition g' = Num pos
    /\ (pos <> -1 -> pos < 3).
Proof.
  destruct (fetchAndUpdateNetworksData_position threeNetworks
              FlashbotsScript.initialGlobals 3 eq_refl)
    as [(g' & pos & Heq & _ & Hsize & Hposition & _ & _ & _ & _ & Hlt) _].
  - split; [lia | reflexivity].
  - intros i Hi. cbn. destruct (i =? 2); eexists; reflexivity.
  - exists g', pos. repeat split; assumption.
Defined.

(** ** The jobs mapping *)
Section Jobs.

Lemma get_allUndefined (j : list (Address * option UnsubscribeFunction))
  (k : Address) (v : option UnsubscribeFunction) :
  allUndefined j -> JsObject.get j k = Some v -> v = None.
Proof.
  induction 1 as [|[k' v'] j Hv _ IH]; cbn; [discriminate|].
  destruct (String.eqb k' k); [|exact IH].
  intros [= <-]. exact Hv.
Qed.

Lemma set_allUndefined (j : list (Address * option UnsubscribeFunction))
  (k : Address) :
  allUndefined j -> allUndefined (JsObject.set j k None).
Proof.
  induction 1 as [|[k' v'] j Hv Hj IH]; cbn.
  - repeat constructor.
  - destruct (String.eqb k' k); constructor; auto.
Qed.

Lemma delete_allUndefined (j : list (Address * option UnsubscribeFunction))
  (k : Address) :
  allUndefined j -> allUndefined (JsObject.delete j k).
Proof.
  induction 1 as [|[k' v'] j Hv Hj IH]; cbn.
  - constructor.
  - destruct (String.eqb k' k); [assumption|constructor; auto].
Qed.

Lemma storeJobs_allUndefined (jobAddresses : list Address) :
  forall g, allUndefined (jobs g) -> allUndefined (jobs (storeJobs jobAddresses g)).
Proof.
  unfold storeJobs.
  induction jobAddresses as [|a rest IH]; intros g Hg; cbn; [assumption|].
  apply IH. cbn. apply set_allUndefined, Hg.
Qed.

(** With only [undefined] stored, the [RemoveJob] listener calls nothing. *)
Lemma onRemoveJob_calls_nothing (jobAddress : Address) (g : Globals) :
  allUndefined (jobs g) ->
  onRemoveJob jobAddress g
  = ([], set_jobs g (JsObject.delete (jobs g) jobAddress)).
Proof.
  intros Hg. unfold onRemoveJob.
  destruct (JsObject.get (jobs g) jobAddress) as [[f|]|] eqn:Hget;
    try reflexivity.
  apply (get_allUndefined _ _ _ Hg) in Hget. discriminate.
Qed.

Lemma jobAddressesFrom_globals (sequencer : Sequencer) (todo : nat) :
  forall index g, fst (jobAddressesFrom sequencer index todo g) = g.
Proof.
  induction todo as [|todo IH]; intros index g; [reflexivity|].
  cbn [jobAddressesFrom]. unfold bind, await, ret.
  destruct (jobAt sequencer index); [|reflexivity].
  specialize (IH (index + 1) g).
  destruct (jobAddressesFrom sequencer (index + 1) todo g) as [g' [l|e]];
    cbn in *; congruence.
Qed.

(** [Promise.all] over the calls sent together and the calls awaited one by
    one give the same addresses when every call resolves, and both fail when
    one rejects (with the rejection that came first, and with the one of the
    least index). *)
Lemma promiseAll_jobAtCalls (sequencer : Sequencer) (todo : nat) :
  forall index g,
    match promiseAll (FlashbotsScript.jobAtCalls sequencer index todo) with
    | Return l => jobAddressesFrom sequencer index todo g = (g, Return l)
    | Throw _ =>
        exists e, jobAddressesFrom sequencer index todo g = (g, Throw e)
    end.
Proof.
  induction todo as [|todo IH]; intros index g; [reflexivity|].
  specialize (IH (index + 1) g). unfold promiseAll in *.
  cbn [FlashbotsScript.jobAtCalls firstRejection fulfilled jobAddressesFrom].
  unfold bind, await, ret.
  destruct (jobAt sequencer index) as [a|e0].
  - destruct (firstRejection _) as [[turn e]|].
    + destruct IH as [e' ->]. eexists. reflexivity.
    + rewrite IH. reflexivity.
  - destruct (firstRejection _) as [[turn e]|].
    + destruct (turn <? _)%nat; eexists; reflexivity.
    + eexists. reflexivity.
Qed.

(** The two versions of the jobs fetch differ only in the error a rejected
    read makes them throw. *)
Lemma flashbots_fetchJobs_agrees (sequencer : Sequencer) (g : Globals) :
  FlashbotsScript.fetchJobs sequencer g = fetchJobs sequencer g
  \/ exists e e',
       FlashbotsScript.fetchJobs sequencer g = (g, Throw e)
       /\ fetchJobs sequencer g = (g, Throw e').
Proof.
  unfold FlashbotsScript.fetchJobs, fetchJobs, bind, await, assign.
  destruct (numJobs sequencer) as [jobAmount|e]; [|left; reflexivity].
  destruct (BigNumber.toNumber jobAmount) as [amount|e]; [|left; reflexivity].
  pose proof (promiseAll_jobAtCalls sequencer (iterations amount) 0 g) as H.
  destruct (promiseAll _) as [l|e].
  - rewrite H. left. reflexivity.
  - destruct H as [e' ->]. right. exists e, e'. split; reflexivity.
Qed.

(** The start of the Flashbots script in terms of the fetch the two versions
    nearly share: which error ends a fetch makes no difference to it. *)
Lemma flashbots_main_unfold (sequencer : Sequencer) :
  FlashbotsScript.main sequencer
  = match fetchBlocksInWindow sequencer FlashbotsScript.initialGlobals with
    | (g, Throw _) => FlashbotsScript.boot g []
    | (g, Return _) =>
        let ls := [BlocksInWindow_AddNetwork] in
        match fetchJobs sequencer g with
        | (g, Throw _) => FlashbotsScript.boot g ls
        | (g, Return _) =>
            let ls := ls ++ [Jobs_AddJob; Jobs_RemoveJob] in
            match fetchAndUpdateNetworksData sequencer g with
            | (g, Throw _) => FlashbotsScript.boot g ls
            | (g, Return _) =>
                let ls :=
                  ls ++ [Networks_AddNetwork; Networks_RemoveNetwork] in
                FlashbotsScript.absorb (FlashbotsScript.boot g ls)
                  (FlashbotsScript.run g)
            end
        end
    end.
Proof.
  unfold FlashbotsScript.main.
  destruct (fetchBlocksInWindow sequencer FlashbotsScript.initialGlobals)
    as [g [[]|e]]; [|reflexivity].
  destruct (flashbots_fetchJobs_agrees sequencer g)
    as [-> | (e & e' & -> & ->)]; reflexivity.
Qed.

Lemma fetchJobs_allUndefined (sequencer : Sequencer) (g : Globals) :
  allUndefined (jobs g) -> allUndefined (jobs (fst (fetchJobs sequencer g))).
Proof.
  intros Hg. unfold fetchJobs, bind, await, assign.
  destruct (numJobs sequencer) as [jobAmount|e]; [|exact Hg].
  destruct (toNumber_cases jobAmount) as [[_ ->]|[_ ->]]; [|exact Hg].
  cbn [iterations].
  pose proof (jobAddressesFrom_globals sequencer (Z.to_nat jobAmount) 0 g) as Hfst.
  destruct (jobAddressesFrom sequencer 0 (Z.to_nat jobAmount) g) as [g' [l|e]];
    cbn in *; subst g'; [|exact Hg].
  apply storeJobs_allUndefined, Hg.
Qed.

Lemma scanNetworks_jobs (sequencer : Sequencer) (todo : nat) :
  forall index g, jobs (fst (scanNetworks sequencer index todo g)) = jobs g.
Proof.
  induction todo as [|todo IH]; intros index g; [reflexivity|].
  rewrite scanNetworks_step.
  destruct (networkAt sequencer index) as [network|e]; [|reflexivity].
  destruct (String.eqb network Constants.KEEP3R_NETWORK_TAG); [reflexivity|].
  apply IH.
Qed.

Lemma fetchAndUpdateNetworksData_jobs (sequencer : Sequencer) (g : Globals) :
  jobs (fst (fetchAndUpdateNetworksData sequencer g)) = jobs g.
Proof.
  unfold fetchAndUpdateNetworksData, bind, await, assign, read.
  destruct (numNetworks sequencer) as [n|e]; [|reflexivity].
  destruct (toNumber_cases n) as [[_ ->]|[_ ->]]; [|reflexivity].
  cbn [networksAmount set_networksAmount iterations].
  pose proof (scanNetworks_jobs sequencer (Z.to_nat n) 0
                (set_networksAmount g (Num n))) as Hscan.
  destruct (scanNetworks sequencer 0 (Z.to_nat n) (set_networksAmount g (Num n)))
    as [g' [[|]|e]]; cbn in *; exact Hscan.
Qed.

Lemma fetchBlocksInWindow_jobs (sequencer : Sequencer) (g : Globals) :
  jobs (fst (fetchBlocksInWindow sequencer g)) = jobs g.
Proof.
  unfold fetchBlocksInWindow, bind, await, assign.
  destruct (totalWindowSize sequencer) as [window|e]; [|reflexivity].
  destruct (toNumber_cases window) as [[_ ->]|[_ ->]]; reflexivity.
Qed.

Lemma listen_allUndefined (l : Listener) (event : SequencerEvent)
  (sequencer : Sequencer) (g : Globals) :
  allUndefined (jobs g) ->
  fst (listen l event sequencer g) = []
  /\ allUndefined (jobs (snd (listen l event sequencer g))).
Proof.
  intros Hg.
  destruct l, event; unfold listen; try (split; [reflexivity|exact Hg]).
  - destruct (BigNumber.toNumber windowSize); split;
      solve [reflexivity | exact Hg].
  - split; [reflexivity|]. apply set_allUndefined, Hg.
  - rewrite onRemoveJob_calls_nothing by exact Hg.
    split; [reflexivity|]. apply delete_allUndefined, Hg.
  - split; [reflexivity|]. cbn [snd]. rewrite fetchAndUpdateNetworksData_jobs. exact Hg.
  - split; [reflexivity|]. cbn [snd]. rewrite fetchAndUpdateNetworksData_jobs. exact Hg.
Qed.

Lemma emitEvent_allUndefined (ls : list Listener) (event : SequencerEvent)
  (sequencer : Sequencer) :
  forall g,
    allUndefined (jobs g) ->
    fst (emitEvent ls event sequencer g) = []
    /\ allUndefined (jobs (snd (emitEvent ls event sequencer g))).
Proof.
  induction ls as [|l rest IH]; intros g Hg; cbn; [split; [reflexivity|exact Hg]|].
  destruct (listen_allUndefined l event sequencer g Hg) as [Hc Hj].
  destruct (listen l event sequencer g) as [called g'] eqn:El. cbn in Hc, Hj.
  destruct (IH g' Hj) as [Hc' Hj'].
  destruct (emitEvent rest event sequencer g') as [called' g''] eqn:Ee.
  cbn in *. subst. split; [reflexivity|assumption].
Qed.

End Jobs.

(** ** Invariants of the two processes *)
Section ProcessInvariants.

#[local] Arguments fetchBlocksInWindow : simpl never.
#[local] Arguments fetchJobs : simpl never.
#[local] Arguments fetchAndUpdateNetworksData : simpl never.
#[local] Arguments emitEvent : simpl never.

Lemma fold_left_invariant {A B} (f : A -> B -> A) (P : A -> Prop) :
  (forall a b, P a -> P (f a b)) ->
  forall l a, P a -> P (fold_left f l a).
Proof.
  intros Hstep l. induction l as [|b l IH]; intros a Ha; cbn; auto.
Qed.

(** *** The Flashbots script *)

Lemma flashbots_run_globals (g : Globals) :
  FlashbotsScript.after (FlashbotsScript.run g) = g.
Proof.
  unfold FlashbotsScript.run.
  destruct (JsNumber.strict_eq (keep3rSequencerPosition g) (Num (-1)));
    reflexivity.
Qed.

Lemma flashbots_tryToWorkJob_globals (job : Address) (block : Block)
  (g : Globals) :
  FlashbotsScript.after (FlashbotsScript.tryToWorkJob job block g) = g.
Proof.
  unfold FlashbotsScript.tryToWorkJob. destruct (inProgress g job); reflexivity.
Qed.

Lemma flashbots_workJobs_globals (jobAddresses : list Address) (block : Block) :
  forall g,
    FlashbotsScript.after (FlashbotsScript.workJobs jobAddresses block g) = g.
Proof.
  induction jobAddresses as [|a rest IH]; intros g; [reflexivity|].
  cbn. rewrite flashbots_tryToWorkJob_globals. apply IH.
Qed.

Lemma flashbots_onBlock_globals (id : nat) (w : Window) (block : Block)
  (g : Globals) :
  FlashbotsScript.after (FlashbotsScript.onBlock id w block g) = g.
Proof.
  unfold FlashbotsScript.onBlock.
  destruct (JsNumber.lt _ _); [reflexivity|].
  destruct (JsNumber.ge _ _).
  - cbn. apply flashbots_run_globals.
  - apply flashbots_workJobs_globals.
Qed.

Lemma flashbots_resume_jobs (lib : FlashbotsScript.Library)
  (s : FlashbotsScript.Suspended) (r : FlashbotsScript.Response)
  (g : Globals) (st : FlashbotsScript.Stretch) :
  FlashbotsScript.resume lib s r g = Some st ->
  jobs (FlashbotsScript.after st) = jobs g.
Proof.
  destruct s, r; cbn; try discriminate.
  - destruct r; intros [= <-]; reflexivity.
  - intros [= <-]. destruct r as [[[|] args]|e]; reflexivity.
  - intros [= <-]. unfold FlashbotsScript.tryToWorkJob_nonce.
    destruct r as [n|e]; [|reflexivity].
    destruct (FlashbotsScript.getMainnetGasType2Parameters _ _ _ _); reflexivity.
  - intros [= <-]. unfold FlashbotsScript.tryToWorkJob_populated.
    destruct r as [txs|e]; [|reflexivity].
    destruct (FlashbotsScript.createBundlesWithSameTxs _ _ _ _); reflexivity.
  - intros [= <-]. destruct r as [[|]|e]; reflexivity.
Qed.

Lemma flashbots_deliver_jobs (block : Block) (to : list (nat * Window)) :
  forall p,
    jobs (FlashbotsScript.globals (FlashbotsScript.deliver block to p))
    = jobs (FlashbotsScript.globals p).
Proof.
  induction to as [|[id w] rest IH]; intros p; [reflexivity|].
  cbn [FlashbotsScript.deliver]. rewrite IH.
  destruct (FlashbotsScript.isActive p id); [|reflexivity].
  cbn. rewrite flashbots_onBlock_globals. reflexivity.
Qed.

Lemma flashbots_step_allUndefined (lib : FlashbotsScript.Library)
  (p : FlashbotsScript.Process) (i : FlashbotsScript.Input) :
  allUndefined (jobs (FlashbotsScript.globals p)) ->
  allUndefined (jobs (FlashbotsScript.globals (FlashbotsScript.step lib p i))).
Proof.
  intros Hp. destruct i as [i|block|i r|event sequencer]; cbn.
  - destruct (nth_error _ _); exact Hp.
  - rewrite flashbots_deliver_jobs. exact Hp.
  - destruct (nth_error _ _) as [s|]; [|exact Hp].
    destruct (FlashbotsScript.resume lib s r _) as [st|] eqn:Hr; [|exact Hp].
    cbn. rewrite (flashbots_resume_jobs _ _ _ _ _ Hr). exact Hp.
  - destruct (emitEvent_allUndefined (FlashbotsScript.listeners p) event
                sequencer _ Hp) as [_ Hj].
    destruct (emitEvent _ _ _ _) as [called g]. exact Hj.
Qed.

Lemma flashbots_main_allUndefined (sequencer : Sequencer) :
  allUndefined (jobs (FlashbotsScript.globals (FlashbotsScript.main sequencer))).
Proof.
  rewrite flashbots_main_unfold.
  pose proof (fetchBlocksInWindow_jobs sequencer FlashbotsScript.initialGlobals) as H1.
  destruct (fetchBlocksInWindow sequencer FlashbotsScript.initialGlobals)
    as [g1 [[]|e]]; cbn in H1.
  2: { cbn. rewrite H1. constructor. }
  assert (Hg1 : allUndefined (jobs g1)) by (rewrite H1; constructor).
  pose proof (fetchJobs_allUndefined sequencer g1 Hg1) as H2.
  destruct (fetchJobs sequencer g1) as [g2 [[]|e]]; cbn in H2; [|exact H2].
  pose proof (fetchAndUpdateNetworksData_jobs sequencer g2) as H3.
  destruct (fetchAndUpdateNetworksData sequencer g2) as [g3 [[]|e]]; cbn in H3.
  - cbn. rewrite flashbots_run_globals, H3. exact H2.
  - cbn. rewrite H3. exact H2.
Qed.

(** *** The broadcastor script *)

Lemma broadcastor_workJobs_globals (jobAddresses : list Address) (block : Block) :
  forall g,
    BroadcastorScript.after (BroadcastorScript.workJobs jobAddresses block g) = g.
Proof.
  induction jobAddresses as [|a rest IH]; intros g; [reflexivity|].
  cbn. apply IH.
Qed.

Lemma broadcastor_onBlock_globals (w : Window) (block : Block) (g : Globals) :
  BroadcastorScript.after (BroadcastorScript.onBlock w block g) = g.
Proof.
  unfold BroadcastorScript.onBlock.
  destruct (JsNumber.lt _ _); [reflexivity|].
  apply broadcastor_workJobs_globals.
Qed.

Lemma broadcastor_resume_globals (s : BroadcastorScript.Suspended)
  (r : BroadcastorScript.Response) (g : Globals)
  (st : BroadcastorScript.Stretch) :
  BroadcastorScript.resume s r g = Some st -> BroadcastorScript.after st = g.
Proof.
  destruct s, r; cbn; try discriminate; intros [= <-]; [|reflexivity].
  destruct r as [[[|] args]|e]; reflexivity.
Qed.

Lemma broadcastor_deliver_globals (block : Block) (to : list (nat * Window)) :
  forall p,
    BroadcastorScript.globals (BroadcastorScript.deliver block to p)
    = BroadcastorScript.globals p.
Proof.
  induction to as [|[id w] rest IH]; intros p; [reflexivity|].
  cbn [BroadcastorScript.deliver]. rewrite IH.
  cbn. apply broadcastor_onBlock_globals.
Qed.

Lemma broadcastor_step_allUndefined (p : BroadcastorScript.Process)
  (i : BroadcastorScript.Input) :
  allUndefined (jobs (BroadcastorScript.globals p)) ->
  allUndefined (jobs (BroadcastorScript.globals (BroadcastorScript.step p i))).
Proof.
  intros Hp. destruct i as [block|i r|event sequencer]; cbn.
  - rewrite broadcastor_deliver_globals. exact Hp.
  - destruct (nth_error _ _) as [s|]; [|exact Hp].
    destruct (BroadcastorScript.resume s r _) as [st|] eqn:Hr; [|exact Hp].
    cbn. rewrite (broadcastor_resume_globals _ _ _ _ Hr). exact Hp.
  - destruct (emitEvent_allUndefined (BroadcastorScript.listeners p) event
                sequencer _ Hp) as [_ Hj].
    destruct (emitEvent _ _ _ _) as [called g]. exact Hj.
Qed.

Lemma broadcastor_run_allUndefined (sequencer : Sequencer)
  (latest : completion Block) (p : BroadcastorScript.Process) :
  allUndefined (jobs (BroadcastorScript.globals p)) ->
  allUndefined
    (jobs (BroadcastorScript.globals (BroadcastorScript.run sequencer latest p))).
Proof.
  intros Hp. unfold BroadcastorScript.run. cbn.
  destruct (JsNumber.strict_eq _ _); [exact Hp|].
  pose proof (fetchBlocksInWindow_jobs sequencer (BroadcastorScript.globals p)) as H1.
  destruct (fetchBlocksInWindow sequencer (BroadcastorScript.globals p))
    as [g1 [[]|e]]; cbn in H1.
  2: { cbn. rewrite H1. exact Hp. }
  assert (Hg1 : allUndefined (jobs g1)) by (rewrite H1; exact Hp).
  pose proof (fetchJobs_allUndefined sequencer g1 Hg1) as H2.
  destruct (fetchJobs sequencer g1) as [g2 [[]|e]]; cbn in H2; [|exact H2].
  pose proof (fetchAndUpdateNetworksData_jobs sequencer g2) as H3.
  destruct (fetchAndUpdateNetworksData sequencer g2) as [g3 [[]|e]]; cbn in H3.
  - destruct latest; cbn; rewrite H3; exact H2.
  - cbn. rewrite H3. exact H2.
Qed.

End ProcessInvariants.


(** ** The in-progress flag in [tryToWorkJob] *)
Section InProgressFlag.

Variable lib : FlashbotsScript.Library.

Lemma inProgress_set (g : Globals) (job : Address) (b : bool) :
  inProgress (set_jobWorkInProgress g job b) job = b.
Proof. unfold inProgress. cbn. rewrite lookup_insert_eq. reflexivity. Qed.

Lemma sends_app (job : Address) (l l' : list FlashbotsScript.Effect) :
  sends job (l ++ l') = (sends job l + sends job l')%nat.
Proof. unfold sends. rewrite List.filter_app, length_app. reflexivity. Qed.

(** The guard: a call that finds the flag up returns at once, having asked
    and sent nothing. *)
Lemma tryToWorkJob_guard (job : Address) (block : Block) (g : Globals) :
  inProgress g job = true ->
  FlashbotsScript.tryToWorkJob job block g
  = FlashbotsScript.finished g
      [FlashbotsScript.Console (FlashbotsScript.WorkInProgress job)].
Proof. intros H. unfold FlashbotsScript.tryToWorkJob. rewrite H. reflexivity. Qed.

Lemma tryToWorkJob_guard_example :
  FlashbotsScript.tryToWorkJob exampleJob (blockAt 105)
    (set_jobWorkInProgress FlashbotsScript.initialGlobals exampleJob true)
  = FlashbotsScript.finished
      (set_jobWorkInProgress FlashbotsScript.initialGlobals exampleJob true)
      [FlashbotsScript.Console (FlashbotsScript.WorkInProgress exampleJob)].
Proof. apply tryToWorkJob_guard. vm_compute. reflexivity. Defined.

Lemma tryToWorkJob_stage (job : Address) (block : Block) (g : Globals) :
  stage job (FlashbotsScript.tryToWorkJob job block g).
Proof.
  unfold FlashbotsScript.tryToWorkJob, stage.
  destruct (inProgress g job); cbn; [intros H; congruence|].
  split; reflexivity.
Qed.

Lemma finally_concludes (job : Address) (g : Globals)
  (effects : list FlashbotsScript.Effect) :
  FlashbotsScript.waiting (FlashbotsScript.finally job g effects) = []
  /\ inProgress (FlashbotsScript.after (FlashbotsScript.finally job g effects)) job
     = false.
Proof. split; [reflexivity|]. cbn. apply inProgress_set. Qed.

Lemma resume_stage (job : Address) (s s' : FlashbotsScript.Stretch)
  (t : FlashbotsScript.Suspended) (r : FlashbotsScript.Response) :
  stage job s ->
  FlashbotsScript.waiting s = [t] ->
  FlashbotsScript.resume lib t r (FlashbotsScript.after s) = Some s' ->
  stage job
    {| FlashbotsScript.after := FlashbotsScript.after s';
       FlashbotsScript.did := FlashbotsScript.did s ++ FlashbotsScript.did s';
       FlashbotsScript.waiting := FlashbotsScript.waiting s' |}.
Proof.
  unfold stage. intros Hs Hw. rewrite Hw in Hs. cbn [FlashbotsScript.waiting
    FlashbotsScript.did FlashbotsScript.after]. rewrite sends_app.
  destruct t, r as [r|r|r|r|r]; cbn [FlashbotsScript.resume]; try discriminate;
    cbn in Hs; [contradiction|..]; intros [= <-].
  - destruct Hs as [-> Hs]. rewrite Hs.
    destruct r as [[[|] args]|e]; cbn; try congruence. split; reflexivity.
  - destruct Hs as [-> Hs]. rewrite Hs.
    unfold FlashbotsScript.tryToWorkJob_nonce.
    destruct r as [n|e]; [|intros _; apply inProgress_set].
    destruct (FlashbotsScript.getMainnetGasType2Parameters _ _ _ _);
      [split; reflexivity|intros _; apply inProgress_set].
  - destruct Hs as [-> Hs]. rewrite Hs.
    unfold FlashbotsScript.tryToWorkJob_populated.
    destruct r as [txs|e]; [|intros _; apply inProgress_set].
    destruct (FlashbotsScript.createBundlesWithSameTxs _ _ _ _);
      [reflexivity|intros _; apply inProgress_set].
  - subst job0.
    destruct r as [[|]|e]; intros _; apply inProgress_set.
Qed.

Lemma continue_stage (job : Address) (answers : list FlashbotsScript.Response) :
  forall s, stage job s -> stage job (FlashbotsScript.continue lib s answers).
Proof.
  induction answers as [|r rest IH]; intros s Hs; cbn [FlashbotsScript.continue].
  - destruct (FlashbotsScript.waiting s); exact Hs.
  - destruct (FlashbotsScript.waiting s) as [|t [|t' ts]] eqn:Hw; try exact Hs.
    destruct (FlashbotsScript.resume lib t r (FlashbotsScript.after s))
      as [s'|] eqn:Hr; [|exact Hs].
    apply IH. eapply resume_stage; eassumption.
Qed.

End InProgressFlag.

(** ** The broadcastor script never writes the in-progress mapping *)
Section FlagsUntouched.

#[local] Arguments fetchBlocksInWindow : simpl never.
#[local] Arguments fetchJobs : simpl never.
#[local] Arguments fetchAndUpdateNetworksData : simpl never.

Lemma storeJobs_flags (jobAddresses : list Address) :
  forall g, jobWorkInProgress (storeJobs jobAddresses g) = jobWorkInProgress g.
Proof.
  unfold storeJobs.
  induction jobAddresses as [|a rest IH]; intros g; cbn; [reflexivity|].
  rewrite IH. reflexivity.
Qed.

Lemma fetchBlocksInWindow_flags (sequencer : Sequencer) (g : Globals) :
  jobWorkInProgress (fst (fetchBlocksInWindow sequencer g)) = jobWorkInProgress g.
Proof.
  unfold fetchBlocksInWindow, bind, await, assign.
  destruct (totalWindowSize sequencer) as [window|e]; [|reflexivity].
  destruct (toNumber_cases window) as [[_ ->]|[_ ->]]; reflexivity.
Qed.

Lemma fetchJobs_flags (sequencer : Sequencer) (g : Globals) :
  jobWorkInProgress (fst (fetchJobs sequencer g)) = jobWorkInProgress g.
Proof.
  unfold fetchJobs, bind, await, assign.
  destruct (numJobs sequencer) as [jobAmount|e]; [|reflexivity].
  destruct (toNumber_cases jobAmount) as [[_ ->]|[_ ->]]; [|reflexivity].
  cbn [iterations].
  pose proof (jobAddressesFrom_globals sequencer (Z.to_nat jobAmount) 0 g) as Hfst.
  destruct (jobAddressesFrom sequencer 0 (Z.to_nat jobAmount) g) as [g' [l|e]];
    cbn in *; subst g'; [|reflexivity].
  apply storeJobs_flags.
Qed.

Lemma scanNetworks_flags (sequencer : Sequencer) (todo : nat) :
  forall index g,
    jobWorkInProgress (fst (scanNetworks sequencer index todo g))
    = jobWorkInProgress g.
Proof.
  induction todo as [|todo IH]; intros index g; [reflexivity|].
  rewrite scanNetworks_step.
  destruct (networkAt sequencer index) as [network|e]; [|reflexivity].
  destruct (String.eqb network Constants.KEEP3R_NETWORK_TAG); [reflexivity|].
  apply IH.
Qed.

Lemma fetchAndUpdateNetworksData_flags (sequencer : Sequencer) (g : Globals) :
  jobWorkInProgress (fst (fetchAndUpdateNetworksData sequencer g))
  = jobWorkInProgress g.
Proof.
  unfold fetchAndUpdateNetworksData, bind, await, assign, read.
  destruct (numNetworks sequencer) as [n|e]; [|reflexivity].
  destruct (toNumber_cases n) as [[_ ->]|[_ ->]]; [|reflexivity].
  cbn [networksAmount set_networksAmount iterations].
  pose proof (scanNetworks_flags sequencer (Z.to_nat n) 0
                (set_networksAmount g (Num n))) as Hscan.
  destruct (scanNetworks sequencer 0 (Z.to_nat n) (set_networksAmount g (Num n)))
    as [g' [[|]|e]]; cbn in *; exact Hscan.
Qed.

Lemma listen_flags (l : Listener) (event : SequencerEvent)
  (sequencer : Sequencer) (g : Globals) :
  jobWorkInProgress (snd (listen l event sequencer g)) = jobWorkInProgress g.
Proof.
  destruct l, event; unfold listen; try reflexivity;
    try (cbn [snd]; apply fetchAndUpdateNetworksData_flags).
  destruct (BigNumber.toNumber windowSize); reflexivity.
Qed.

Lemma emitEvent_flags (ls : list Listener) (event : SequencerEvent)
  (sequencer : Sequencer) :
  forall g,
    jobWorkInProgress (snd (emitEvent ls event sequencer g))
    = jobWorkInProgress g.
Proof.
  induction ls as [|l rest IH]; intros g; [reflexivity|].
  cbn [emitEvent].
  pose proof (listen_flags l event sequencer g) as Hl.
  destruct (listen l event sequencer g) as [called g'].
  specialize (IH g').
  destruct (emitEvent rest event sequencer g') as [called' g''].
  cbn in *. congruence.
Qed.

Lemma broadcastor_step_flags (p : BroadcastorScript.Process)
  (i : BroadcastorScript.Input) :
  jobWorkInProgress (BroadcastorScript.globals (BroadcastorScript.step p i))
  = jobWorkInProgress (BroadcastorScript.globals p).
Proof.
  destruct i as [block|i r|event sequencer]; cbn.
  - rewrite broadcastor_deliver_globals. reflexivity.
  - destruct (nth_error _ _) as [s|]; [|reflexivity].
    destruct (BroadcastorScript.resume s r _) as [st|] eqn:Hr; [|reflexivity].
    cbn. rewrite (broadcastor_resume_globals _ _ _ _ Hr). reflexivity.
  - pose proof (emitEvent_flags (BroadcastorScript.listeners p) event sequencer
                  (BroadcastorScript.globals p)) as He.
    destruct (emitEvent _ _ _ _) as [called g]. exact He.
Qed.

Lemma broadcastor_run_flags (sequencer : Sequencer)
  (latest : completion Block) (p : BroadcastorScript.Process) :
  jobWorkInProgress
    (BroadcastorScript.globals (BroadcastorScript.run sequencer latest p))
  = jobWorkInProgress (BroadcastorScript.globals p).
Proof.
  unfold BroadcastorScript.run. cbn.
  destruct (JsNumber.strict_eq _ _); [reflexivity|].
  pose proof (fetchBlocksInWindow_flags sequencer (BroadcastorScript.globals p)) as H1.
  destruct (fetchBlocksInWindow sequencer (BroadcastorScript.globals p))
    as [g1 [[]|e]]; cbn in H1; [|exact H1].
  pose proof (fetchJobs_flags sequencer g1) as H2.
  destruct (fetchJobs sequencer g1) as [g2 [[]|e]]; cbn in H2;
    [|cbn; congruence].
  pose proof (fetchAndUpdateNetworksData_flags sequencer g2) as H3.
  destruct (fetchAndUpdateNetworksData sequencer g2) as [g3 [[]|e]]; cbn in H3.
  - destruct latest; cbn; congruence.
  - cbn. congruence.
Qed.

Lemma broadcastor_flags_empty (sequencer : Sequencer)
  (latest : completion Block) (inputs : list BroadcastorScript.Input) :
  jobWorkInProgress
    (BroadcastorScript.globals
       (BroadcastorScript.exec (BroadcastorScript.main sequencer latest) inputs))
  = ∅.
Proof.
  unfold BroadcastorScript.exec.
  apply (fold_left_invariant BroadcastorScript.step
           (fun p => jobWorkInProgress (BroadcastorScript.globals p) = ∅)).
  - intros p i Hp. rewrite broadcastor_step_flags. exact Hp.
  - unfold BroadcastorScript.main. rewrite broadcastor_run_flags. reflexivity.
Qed.

End FlagsUntouched.

(** C3. A call of [tryToWorkJob] that is waiting for its broadcast concludes
    when the broadcast settles, whatever it settles with (included, not
    included, or an exception), and the flag of its job is false right then;
    and a whole call that has broadcast and has concluded leaves the flag
    false.  In the broadcastor script the flag is never written, so it is
    never true. *)
Theorem flag_false_after_broadcast :
  (forall (lib : FlashbotsScript.Library) (job : Address)
          (r : completion bool) (g : Globals),
      exists s : FlashbotsScript.Stretch,
        FlashbotsScript.resume lib (FlashbotsScript.Try_sendAndRetry job)
          (FlashbotsScript.Sent r) g = Some s
        /\ FlashbotsScript.waiting s = []
        /\ inProgress (FlashbotsScript.after s) job = false)
  /\ (forall (lib : FlashbotsScript.Library) (job : Address) (block : Block)
             (answers : list FlashbotsScript.Response) (g : Globals),
        let s := FlashbotsScript.attempt lib job block answers g in
        FlashbotsScript.waiting s = [] ->
        sends job (FlashbotsScript.did s) <> O ->
        inProgress (FlashbotsScript.after s) job = false)
  /\ (forall (sequencer : Sequencer) (latest : completion Block)
             (inputs : list BroadcastorScript.Input) (job : Address),
        inProgress
          (BroadcastorScript.globals
             (BroadcastorScript.exec (BroadcastorScript.main sequencer latest)
                inputs)) job = false).
Proof.
  split; [|split].
  - intros lib job r g. eexists. split; [reflexivity|].
    destruct r as [[|]|e]; (split; [reflexivity|cbn; apply inProgress_set]).
  - intros lib job block answers g s Hw Hsent.
    pose proof (continue_stage lib job answers _
                  (tryToWorkJob_stage job block g)) as Hstage.
    fold (FlashbotsScript.attempt lib job block answers g) in Hstage.
    unfold stage in Hstage. fold s in Hstage. rewrite Hw in Hstage.
    apply Hstage, Hsent.
  - intros sequencer latest inputs job. unfold inProgress.
    rewrite broadcastor_flags_empty. reflexivity.
Qed.

(** The answers that take one call through to an included broadcast. *)
Lemma flag_false_after_broadcast_witness :
  let s :=
    FlashbotsScript.attempt exampleLibrary exampleJob (blockAt 104)
      [FlashbotsScript.WorkableResult (Return (true, "0xab"));
       FlashbotsScript.TransactionCount (Return 7);
       FlashbotsScript.Populated (Return ["tx"]);
       FlashbotsScript.Sent (Return true)]
      FlashbotsScript.initialGlobals in
  sends exampleJob (FlashbotsScript.did s) = 1%nat
  /\ inProgress (FlashbotsScript.after s) exampleJob = false.
Proof.
  intros s. split; [vm_compute; reflexivity|].
  destruct flag_false_after_broadcast as (_ & Hattempt & _).
  apply (Hattempt exampleLibrary exampleJob (blockAt 104)
           [FlashbotsScript.WorkableResult (Return (true, "0xab"));
            FlashbotsScript.TransactionCount (Return 7);
            FlashbotsScript.Populated (Return ["tx"]);
            FlashbotsScript.Sent (Return true)]
           FlashbotsScript.initialGlobals).
  - vm_compute. reflexivity.
  - vm_compute. discriminate.
Defined.

(** C7, as the design document states it, fails: the call asks the job
    whether it is workable while the flag is still down, and on a negative
    answer it returns without ever writing the flag (nothing is set, nothing
    is cleared). *)
Lemma tryToWorkJob_asks_with_flag_down :
  let s :=
    FlashbotsScript.tryToWorkJob exampleJob (blockAt 104)
      FlashbotsScript.initialGlobals in
  FlashbotsScript.did s = [FlashbotsScript.JobWorkable exampleJob]
  /\ inProgress (FlashbotsScript.after s) exampleJob <> true
  /\ jobWorkInProgress
       (FlashbotsScript.after
          (FlashbotsScript.attempt exampleLibrary exampleJob (blockAt 104)
             [FlashbotsScript.WorkableResult (Return (false, "0x"))]
             FlashbotsScript.initialGlobals))
     !! exampleJob = None.
Proof. vm_compute. repeat split. discriminate. Qed.

(** C7, amended. A call of [tryToWorkJob] that passes the guard first asks
    the job whether it is workable, leaving the variables as they are.  On the
    answer "not workable" it returns without broadcasting and without writing
    the flag; on the answer "workable" it sets the flag to true before the
    calls that lead to the broadcast, none of which has been made yet. *)
Theorem tryToWorkJob_flag_set_after_workable
  (job : Address) (block : Block) (g : Globals) :
  inProgress g job = false ->
  FlashbotsScript.tryToWorkJob job block g
  = FlashbotsScript.suspend g [FlashbotsScript.JobWorkable job]
      (FlashbotsScript.Try_workable job block)
  /\ (forall (args : string) (g' : Globals),
        FlashbotsScript.tryToWorkJob_workable job block (Return (false, args)) g'
        = FlashbotsScript.finished g'
            [FlashbotsScript.Console (FlashbotsScript.NotWorkable job)])
  /\ (forall (args : string) (g' : Globals),
        let s :=
          FlashbotsScript.tryToWorkJob_workable job block (Return (true, args))
            g' in
        inProgress (FlashbotsScript.after s) job = true
        /\ sends job (FlashbotsScript.did s) = O
        /\ FlashbotsScript.waiting s
           = [FlashbotsScript.Try_getTransactionCount job block args]).
Proof.
  intros Hflag. split; [|split].
  - unfold FlashbotsScript.tryToWorkJob. rewrite Hflag. reflexivity.
  - reflexivity.
  - intros args g' s. subst s. cbn. rewrite inProgress_set.
    repeat split.
Qed.

Lemma tryToWorkJob_flag_set_after_workable_witness :
  FlashbotsScript.tryToWorkJob exampleJob (blockAt 104)
    FlashbotsScript.initialGlobals
  = FlashbotsScript.suspend FlashbotsScript.initialGlobals
      [FlashbotsScript.JobWorkable exampleJob]
      (FlashbotsScript.Try_workable exampleJob (blockAt 104)).
Proof.
  apply (tryToWorkJob_flag_set_after_workable exampleJob (blockAt 104)
           FlashbotsScript.initialGlobals).
  vm_compute. reflexivity.
Defined.

(** C2 at the input that breaks it.  In the Flashbots script two blocks of the
    window arrive before the job has answered the first workability call:
    both calls of [tryToWorkJob] pass the guard, both set the flag, and both
    broadcast, so two broadcasts for the one job are in flight together.  In
    the broadcastor script, which has no guard, two blocks of the window on
    which the job is workable give two broadcasts as well. *)
Theorem two_broadcasts_in_flight :
  (let p :=
     FlashbotsScript.exec exampleLibrary (FlashbotsScript.main keeperFirstOfTwo)
       [FlashbotsScript.Settles 0 (FlashbotsScript.LatestBlock (Return (blockAt 100)));
        FlashbotsScript.TimerFires 0;
        FlashbotsScript.BlockArrives (blockAt 104);
        FlashbotsScript.BlockArrives (blockAt 105);
        FlashbotsScript.Settles 0 (FlashbotsScript.WorkableResult (Return (true, "0xab")));
        FlashbotsScript.Settles 0 (FlashbotsScript.WorkableResult (Return (true, "0xab")));
        FlashbotsScript.Settles 0 (FlashbotsScript.TransactionCount (Return 7));
        FlashbotsScript.Settles 0 (FlashbotsScript.TransactionCount (Return 7));
        FlashbotsScript.Settles 0 (FlashbotsScript.Populated (Return ["tx"]));
        FlashbotsScript.Settles 0 (FlashbotsScript.Populated (Return ["tx"]))] in
   sends exampleJob (FlashbotsScript.history p) = 2%nat
   /\ FlashbotsScript.tasks p
      = [FlashbotsScript.Try_sendAndRetry exampleJob;
         FlashbotsScript.Try_sendAndRetry exampleJob])
  /\ (let p :=
        BroadcastorScript.exec
          (BroadcastorScript.main keeperFirstOfTwo (Return (blockAt 100)))
          [BroadcastorScript.BlockArrives (blockAt 104);
           BroadcastorScript.Settles 0
             (BroadcastorScript.WorkableResult (Return (true, "0xab")));
           BroadcastorScript.BlockArrives (blockAt 105);
           BroadcastorScript.Settles 1
             (BroadcastorScript.WorkableResult (Return (true, "0xab")))] in
      broadcasts exampleJob (BroadcastorScript.history p) = 2%nat
      /\ BroadcastorScript.tasks p
         = [BroadcastorScript.Work_broadcast exampleJob;
            BroadcastorScript.Work_broadcast exampleJob]).
Proof. vm_compute. repeat split. Qed.

(** ** The wait before the window *)
Section Waiting.

(** The wait in integer terms, when the distance to the window in
    milliseconds stays below [2^53]. *)
Lemma timeToWindow_exact (w : Window) (currentBlock : Block) (start : Z) :
  windowStart w = Num start ->
  0 <= start - number currentBlock ->
  (start - number currentBlock) * Constants.BLOCK_DURATION < 2 ^ 53 ->
  timeToWindow w currentBlock
  = Num ((start - number currentBlock) * Constants.BLOCK_DURATION
         - Constants.TOLERANCE_THRESHOLD).
Proof.
  intros Hstart Hpos Hsafe. unfold timeToWindow. rewrite Hstart.
  change Constants.TOLERANCE_THRESHOLD with 60000 in *.
  change Constants.BLOCK_DURATION with 12000 in *.
  cbv beta iota zeta delta [JsNumber.mul JsNumber.sub JsNumber.neg].
  cbv beta iota zeta delta [JsNumber.add JsNumber.neg].
  rewrite (round_exact (start + - number currentBlock)) by lia.
  rewrite (round_exact ((start + - number currentBlock) * 12000)) by lia.
  assert (H53 : 60000 < 2 ^ 53) by reflexivity.
  rewrite round_exact by lia.
  reflexivity.
Qed.

(** The timer waits at least one millisecond, and as long as it is asked to
    between 1 and [2^31 - 1]. *)
Lemma timerDelay_clamped (time : Z) :
  1 <= FlashbotsScript.timerDelay (Num time)
  /\ (time <= 2147483647 ->
      FlashbotsScript.timerDelay (Num time) = Z.max 1 time)
  /\ (2147483647 < time -> FlashbotsScript.timerDelay (Num time) = 1).
Proof.
  unfold FlashbotsScript.timerDelay.
  destruct (Z.leb_spec 1 time), (Z.leb_spec time 2147483647);
    cbn [andb]; repeat split; lia.
Qed.

(** C6, as the design document states it, fails: when the window starts at
    the current block the script computes a wait of -60000 ms, not 0, and
    that negative number is what it gives to [setTimeout]; the timer then
    waits 1 ms, not 0 either. *)
Lemma time_negative_at_window_start :
  let w := nextWindow keeperThirdOfFive (blockAt 26) in
  windowStart w = Num 26
  /\ timeToWindow w (blockAt 26) = Num (-60000)
  /\ timeToWindow w (blockAt 26)
     <> Num (Z.max 0 ((26 - 26) * Constants.BLOCK_DURATION
                      - Constants.TOLERANCE_THRESHOLD))
  /\ FlashbotsScript.did (FlashbotsScript.run_continue (blockAt 26) keeperThirdOfFive)
     = [FlashbotsScript.Console (FlashbotsScript.AlreadyStarted w);
        FlashbotsScript.SetTimeout w (Num (-60000))]
  /\ FlashbotsScript.timerDelay (timeToWindow w (blockAt 26)) = 1.
Proof. vm_compute. repeat split. discriminate. Qed.

(** C6, amended. For a window length and a whitelist size of at least 1, a
    position on the whitelist, and a block and a cycle small enough for the
    arithmetic to be exact ([|currentBlock|] plus the cycle, and the cycle in
    milliseconds, below [2^53]), the wait that [run] computes is
    [(windowStart - currentBlock) * BLOCK_DURATION - TOLERANCE_THRESHOLD] with
    no clamp: it is at least [- TOLERANCE_THRESHOLD], it is negative exactly
    when the window starts fewer than five blocks ahead, and the Flashbots
    script gives that very number to [setTimeout]; only the lines it logs
    depend on whether the number is positive.  The timer then waits that
    number of milliseconds when it is between 1 and [2^31 - 1] and 1 ms
    otherwise, so the wait performed is at least 1 ms and never negative. *)
Theorem time_is_not_clamped (g : Globals) (currentBlock : Block)
  (windowLength whitelistSize selfPosition : Z) :
  blocksInWindow g = Num windowLength ->
  networksAmount g = Num whitelistSize ->
  keep3rSequencerPosition g = Num selfPosition ->
  windowLength >= 1 ->
  whitelistSize >= 1 ->
  0 <= selfPosition < whitelistSize ->
  Z.abs (number currentBlock) + windowLength * whitelistSize < 2 ^ 53 ->
  windowLength * whitelistSize * Constants.BLOCK_DURATION < 2 ^ 53 ->
  let w := nextWindow g currentBlock in
  exists start : Z,
    windowStart w = Num start
    /\ number currentBlock <= start
    /\ let time := (start - number currentBlock) * Constants.BLOCK_DURATION
                   - Constants.TOLERANCE_THRESHOLD in
       timeToWindow w currentBlock = Num time
       /\ - Constants.TOLERANCE_THRESHOLD <= time
       /\ (time < 0 <-> start - number currentBlock < 5)
       /\ FlashbotsScript.run_continue currentBlock g
          = FlashbotsScript.finished g
              ((if 0 <? time then
                  [FlashbotsScript.Console (FlashbotsScript.NextWindow w);
                   FlashbotsScript.Console (FlashbotsScript.Sleeping (Num time))]
                else [FlashbotsScript.Console (FlashbotsScript.AlreadyStarted w)])
               ++ [FlashbotsScript.SetTimeout w (Num time)])
       /\ 1 <= FlashbotsScript.timerDelay (timeToWindow w currentBlock)
       /\ (time <= 2147483647 ->
           FlashbotsScript.timerDelay (timeToWindow w currentBlock)
           = Z.max 1 time)
       /\ (2147483647 < time ->
           FlashbotsScript.timerDelay (timeToWindow w currentBlock) = 1).
Proof.
  intros Hw Hn Hp Hwl Hws Hsp Hsafe Hms w.
  assert (Hm : 0 < windowLength * whitelistSize) by nia.
  assert (Ho : 0 <= selfPosition * windowLength
               < windowLength * whitelistSize) by nia.
  pose proof (next_start_facts (number currentBlock)
                (windowLength * whitelistSize) (selfPosition * windowLength) Hm)
    as [Hr _].
  cbv zeta in Hr.
  set (start := windowLength * whitelistSize
                * - (- (number currentBlock - selfPosition * windowLength)
                     / (windowLength * whitelistSize))
                + selfPosition * windowLength) in *.
  assert (Hstart : windowStart w = Num start).
  { subst w. unfold nextWindow. cbn [windowStart]. rewrite Hw, Hn, Hp.
    rewrite calculateNextMasterWindow_Num by assumption. reflexivity. }
  exists start. split; [exact Hstart|]. split; [lia|].
  assert (Htime : timeToWindow w currentBlock
                  = Num ((start - number currentBlock) * Constants.BLOCK_DURATION
                         - Constants.TOLERANCE_THRESHOLD)).
  { apply timeToWindow_exact; [exact Hstart | lia |].
    change Constants.BLOCK_DURATION with 12000 in *. nia. }
  cbv zeta. split; [exact Htime|].
  rewrite Htime.
  destruct (timerDelay_clamped
              ((start - number currentBlock) * Constants.BLOCK_DURATION
               - Constants.TOLERANCE_THRESHOLD)) as (Hd1 & Hd2 & Hd3).
  unfold Constants.TOLERANCE_THRESHOLD, Constants.BLOCK_DURATION in *.
  split; [lia|]. split; [lia|].
  split; [|split; [exact Hd1|split; [exact Hd2|exact Hd3]]].
  unfold FlashbotsScript.run_continue. fold w.
  unfold Constants.TOLERANCE_THRESHOLD, Constants.BLOCK_DURATION in *.
  rewrite Htime. reflexivity.
Qed.

Lemma time_is_not_clamped_witness :
  exists start : Z,
    windowStart (nextWindow keeperThirdOfFive (blockAt 100)) = Num start
    /\ 100 <= start
    /\ 1 <= FlashbotsScript.timerDelay
              (timeToWindow (nextWindow keeperThirdOfFive (blockAt 100))
                 (blockAt 100)).
Proof.
  destruct (time_is_not_clamped keeperThirdOfFive (blockAt 100) 13 5 2
              eq_refl eq_refl eq_refl ltac:(lia) ltac:(lia) ltac:(lia)
              ltac:(vm_compute; reflexivity) ltac:(vm_compute; reflexivity))
    as (start & Hs & Hle & _ & _ & _ & _ & Hdelay & _).
  exists start. repeat split; assumption.
Defined.

End Waiting.

(** ** Halting when the keeper is not whitelisted *)
Section Halting.

Variable lib : FlashbotsScript.Library.

(** A Flashbots process with no timer, no stream and no task stays so,
    whatever arrives, and does nothing more. *)
Lemma flashbots_idle_step (p : FlashbotsScript.Process)
  (i : FlashbotsScript.Input) :
  allUndefined (jobs (FlashbotsScript.globals p)) ->
  FlashbotsScript.timers p = [] ->
  FlashbotsScript.streams p = [] ->
  FlashbotsScript.tasks p = [] ->
  let p' := FlashbotsScript.step lib p i in
  FlashbotsScript.timers p' = []
  /\ FlashbotsScript.streams p' = []
  /\ FlashbotsScript.tasks p' = []
  /\ FlashbotsScript.history p' = FlashbotsScript.history p.
Proof.
  intros Hj Ht Hs Hk p'. subst p'.
  destruct i as [i|block|i r|event sequencer]; cbn.
  - rewrite Ht. destruct i; cbn; auto.
  - rewrite Hs. cbn. auto.
  - rewrite Hk. destruct i; cbn; auto.
  - destruct (emitEvent_allUndefined (FlashbotsScript.listeners p) event
                sequencer _ Hj) as [Hc _].
    destruct (emitEvent _ _ _ _) as [called g]. cbn in Hc. subst called.
    cbn. rewrite Ht, Hs, Hk, !app_nil_r. auto.
Qed.

(** In the Flashbots script a startup that finds the keeper off the
    whitelist halts: [run] logs the error and returns, and from then on the
    process computes no window, sets no timer, opens no stream and asks no
    job, whatever blocks and events arrive. *)
Lemma flashbots_halts_when_absent (sequencer : Sequencer) (g1 g2 g3 : Globals)
  (inputs : list FlashbotsScript.Input) :
  fetchBlocksInWindow sequencer FlashbotsScript.initialGlobals = (g1, Return tt) ->
  fetchJobs sequencer g1 = (g2, Return tt) ->
  fetchAndUpdateNetworksData sequencer g2 = (g3, Return tt) ->
  keep3rSequencerPosition g3 = Num (-1) ->
  let p := FlashbotsScript.exec lib (FlashbotsScript.main sequencer) inputs in
  FlashbotsScript.timers p = []
  /\ FlashbotsScript.streams p = []
  /\ FlashbotsScript.tasks p = []
  /\ FlashbotsScript.history p
     = [FlashbotsScript.Console FlashbotsScript.START;
        FlashbotsScript.Console FlashbotsScript.NotWhitelisted].
Proof.
  intros H1 H2 H3 Hpos p. subst p. unfold FlashbotsScript.exec.
  apply (fold_left_invariant (FlashbotsScript.step lib)
           (fun p => allUndefined (jobs (FlashbotsScript.globals p))
                     /\ FlashbotsScript.timers p = []
                     /\ FlashbotsScript.streams p = []
                     /\ FlashbotsScript.tasks p = []
                     /\ FlashbotsScript.history p
                        = [FlashbotsScript.Console FlashbotsScript.START;
                           FlashbotsScript.Console FlashbotsScript.NotWhitelisted])).
  - intros p i (Hj & Ht & Hs & Hk & Hh).
    destruct (flashbots_idle_step p i Hj Ht Hs Hk) as (Ht' & Hs' & Hk' & Hh').
    repeat split; try assumption.
    + apply flashbots_step_allUndefined, Hj.
    + rewrite Hh'. exact Hh.
  - split; [apply flashbots_main_allUndefined|].
    rewrite flashbots_main_unfold, H1, H2, H3.
    unfold FlashbotsScript.run. rewrite Hpos. cbn. auto.
Qed.

End Halting.

(** The Flashbots script against the sequencer that does not list the keeper:
    the startup logs the error, and blocks, a timer tick and the later
    addition of a network start nothing. *)
Lemma flashbots_halts_when_absent_example :
  let p :=
    FlashbotsScript.exec exampleLibrary (FlashbotsScript.main keeperAbsent)
      [FlashbotsScript.BlockArrives (blockAt 104);
       FlashbotsScript.TimerFires 0;
       FlashbotsScript.Emits (AddNetwork Constants.KEEP3R_NETWORK_TAG 13)
         keeperFirstOfTwo;
       FlashbotsScript.BlockArrives (blockAt 105)] in
  FlashbotsScript.timers p = []
  /\ FlashbotsScript.streams p = []
  /\ FlashbotsScript.tasks p = []
  /\ FlashbotsScript.history p
     = [FlashbotsScript.Console FlashbotsScript.START;
        FlashbotsScript.Console FlashbotsScript.NotWhitelisted].
Proof.
  eapply (flashbots_halts_when_absent exampleLibrary keeperAbsent);
    vm_compute; reflexivity.
Defined.

(** C4 at the input that breaks it.  The broadcastor script tests the
    position before it fetches it: started against a sequencer whose
    whitelist does not hold the keeper, [run] passes the test with the initial
    position 0, the fetch then sets the position to -1, and the script goes
    on to compute a window from it (104 to 117 after block 100), opens the
    block stream and, at block 104, asks the job whether it is workable. *)
Theorem broadcastor_runs_when_absent :
  let p := BroadcastorScript.main keeperAbsent (Return (blockAt 100)) in
  let w := {| windowStart := Num 104; windowEnd := Num 117 |} in
  keep3rSequencerPosition (BroadcastorScript.globals p) = Num (-1)
  /\ BroadcastorScript.history p
     = [BroadcastorScript.Console BroadcastorScript.START;
        BroadcastorScript.GetBlock;
        BroadcastorScript.Console (BroadcastorScript.AlreadyStarted w);
        BroadcastorScript.Stream 0]
  /\ BroadcastorScript.streams p = [(O, w)]
  /\ let p' := BroadcastorScript.exec p
                 [BroadcastorScript.BlockArrives (blockAt 104)] in
     BroadcastorScript.history p'
     = BroadcastorScript.history p ++ [BroadcastorScript.JobWorkable exampleJob]
     /\ BroadcastorScript.tasks p'
        = [BroadcastorScript.Work_workable exampleJob (blockAt 104)].
Proof. vm_compute. repeat split. Qed.

(** ** The end of the window *)
Section WindowEnd.

Variable lib : FlashbotsScript.Library.

(** In the Flashbots script the first block at or past the end of the window
    cancels the stream of the cycle and calls [run] for the next one. *)
Lemma flashbots_window_end (p : FlashbotsScript.Process) (id : nat)
  (w : Window) (block : Block) :
  FlashbotsScript.streams p = [(id, w)] ->
  JsNumber.lt (Num (number block)) (windowStart w) = false ->
  JsNumber.ge (Num (number block)) (windowEnd w) = true ->
  let p' := FlashbotsScript.step lib p (FlashbotsScript.BlockArrives block) in
  let next := FlashbotsScript.run (FlashbotsScript.globals p) in
  FlashbotsScript.streams p' = []
  /\ FlashbotsScript.history p'
     = FlashbotsScript.history p
       ++ [FlashbotsScript.Console FlashbotsScript.WindowFinished;
           FlashbotsScript.Unsubscribe id]
       ++ FlashbotsScript.did next
  /\ FlashbotsScript.tasks p'
     = FlashbotsScript.tasks p ++ FlashbotsScript.waiting next
  /\ FlashbotsScript.timers p' = FlashbotsScript.timers p.
Proof.
  intros Hs Hlt Hge p' next. subst p' next.
  cbn [FlashbotsScript.step]. rewrite Hs. cbn [FlashbotsScript.deliver].
  unfold FlashbotsScript.isActive. rewrite Hs. cbn [existsb fst].
  rewrite Nat.eqb_refl. cbn [orb].
  unfold FlashbotsScript.onBlock. rewrite Hlt, Hge.
  unfold FlashbotsScript.andThen, FlashbotsScript.run. cbn.
  destruct (JsNumber.strict_eq _ _); cbn; rewrite Hs; cbn;
    rewrite Nat.eqb_refl; cbn; rewrite ?app_nil_r; auto.
Qed.

End WindowEnd.

(** The Flashbots script over one cycle: the window 104 to 117 is computed at
    block 100, the job is asked at block 116, and block 117 cancels the
    stream and starts the next cycle with a new call for the latest block. *)
Lemma flashbots_window_end_example :
  let p :=
    FlashbotsScript.exec exampleLibrary (FlashbotsScript.main keeperFirstOfTwo)
      [FlashbotsScript.Settles 0 (FlashbotsScript.LatestBlock (Return (blockAt 100)));
       FlashbotsScript.TimerFires 0;
       FlashbotsScript.BlockArrives (blockAt 116);
       FlashbotsScript.Settles 0
         (FlashbotsScript.WorkableResult (Return (false, "0x")))] in
  let p' := FlashbotsScript.step exampleLibrary p
              (FlashbotsScript.BlockArrives (blockAt 117)) in
  FlashbotsScript.streams p
  = [(O, {| windowStart := Num 104; windowEnd := Num 117 |})]
  /\ FlashbotsScript.streams p' = []
  /\ FlashbotsScript.tasks p' = [FlashbotsScript.Run_getBlock]
  /\ FlashbotsScript.timers p' = [].
Proof.
  intros p p'.
  assert (Hs : FlashbotsScript.streams p
               = [(O, {| windowStart := Num 104; windowEnd := Num 117 |})])
    by (vm_compute; reflexivity).
  destruct (flashbots_window_end exampleLibrary p O
              {| windowStart := Num 104; windowEnd := Num 117 |} (blockAt 117)
              Hs eq_refl eq_refl) as (Hs' & _ & Hk & Ht).
  fold p' in Hs', Hk, Ht.
  split; [exact Hs|]. split; [exact Hs'|].
  split; [rewrite Hk|rewrite Ht]; vm_compute; reflexivity.
Defined.

(** C5 at the input that breaks it.  The broadcastor script never cancels its
    block stream: with the window 104 to 117, block 117 does not end the
    cycle; the stream stays subscribed, [run] is not called again, and the
    job is asked and, being workable, broadcast for that block. *)
Theorem broadcastor_keeps_stream_after_window :
  let p := BroadcastorScript.main keeperFirstOfTwo (Return (blockAt 100)) in
  let w := {| windowStart := Num 104; windowEnd := Num 117 |} in
  BroadcastorScript.streams p = [(O, w)]
  /\ let p' := BroadcastorScript.exec p
                 [BroadcastorScript.BlockArrives (blockAt 117);
                  BroadcastorScript.Settles 0
                    (BroadcastorScript.WorkableResult (Return (true, "0xab")))] in
     BroadcastorScript.streams p' = [(O, w)]
     /\ BroadcastorScript.history p'
        = BroadcastorScript.history p
          ++ [BroadcastorScript.JobWorkable exampleJob;
              BroadcastorScript.Broadcast exampleJob "0xab" (blockAt 117)].
Proof. vm_compute. repeat split. Qed.

(** ** One cycle at a time in the Flashbots script *)
Section OneCycle.

Variable lib : FlashbotsScript.Library.

Lemma filter_length_le {A} (f : A -> bool) (l : list A) :
  (length (List.filter f l) <= length l)%nat.
Proof.
  induction l as [|a l IH]; cbn; [lia|]. destruct (f a); cbn; lia.
Qed.

Lemma filter_keep_all {A} (f : A -> bool) (l : list A) :
  (forall a, f a = true) -> List.filter f l = l.
Proof.
  intros H. induction l as [|a l IH]; cbn; [reflexivity|].
  rewrite H, IH. reflexivity.
Qed.

Lemma remove_nth_filter {A} (f : A -> bool) (l : list A) (i : nat) (x : A) :
  nth_error l i = Some x ->
  (length (List.filter f (FlashbotsScript.remove_nth i l))
   + (if f x then 1 else 0)
   = length (List.filter f l))%nat.
Proof.
  revert i. induction l as [|a l IH]; intros [|i] H; cbn in H; try discriminate.
  - injection H as ->. unfold FlashbotsScript.remove_nth. cbn.
    rewrite skipn_O. destruct (f x); cbn; lia.
  - specialize (IH i H). unfold FlashbotsScript.remove_nth in *. cbn.
    destruct (f a); cbn; lia.
Qed.

Lemma quiet_finished (g : Globals) (lines : list FlashbotsScript.LogLine) :
  quiet (FlashbotsScript.finished g (map FlashbotsScript.Console lines)).
Proof.
  unfold quiet. cbn. repeat split.
  - induction lines; cbn; auto.
  - intros id. induction lines; cbn; auto.
Qed.

Lemma quiet_andThen (a : FlashbotsScript.Stretch)
  (k : Globals -> FlashbotsScript.Stretch) :
  quiet a -> quiet (k (FlashbotsScript.after a)) ->
  quiet (FlashbotsScript.andThen a k).
Proof.
  unfold quiet, FlashbotsScript.andThen, FlashbotsScript.newTimers,
    FlashbotsScript.cancelled.
  intros (Ha1 & Ha2 & Ha3) (Hb1 & Hb2 & Hb3). cbn. repeat split.
  - rewrite flat_map_app, Ha1, Hb1. reflexivity.
  - intros id. rewrite existsb_app, Ha2, Hb2. reflexivity.
  - rewrite List.filter_app, Ha3, Hb3. reflexivity.
Qed.

Lemma quiet_tryToWorkJob (job : Address) (block : Block) (g : Globals) :
  quiet (FlashbotsScript.tryToWorkJob job block g).
Proof.
  unfold FlashbotsScript.tryToWorkJob.
  destruct (inProgress g job); unfold quiet; cbn; auto.
Qed.

Lemma quiet_workJobs (jobAddresses : list Address) (block : Block) :
  forall g, quiet (FlashbotsScript.workJobs jobAddresses block g).
Proof.
  induction jobAddresses as [|a rest IH]; intros g; cbn.
  - unfold quiet. cbn. auto.
  - apply quiet_andThen; [apply quiet_tryToWorkJob|apply IH].
Qed.

Lemma quiet_resume (t : FlashbotsScript.Suspended)
  (r : FlashbotsScript.Response) (g : Globals) (s : FlashbotsScript.Stretch) :
  isRun t = false ->
  FlashbotsScript.resume lib t r g = Some s -> quiet s.
Proof.
  intros Ht. destruct t, r as [r|r|r|r|r]; try discriminate;
    cbn [FlashbotsScript.resume]; intros [= <-].
  - destruct r as [[[|] args]|e]; unfold quiet; cbn; auto.
  - unfold FlashbotsScript.tryToWorkJob_nonce.
    destruct r as [n|e]; [|unfold quiet; cbn; auto].
    destruct (FlashbotsScript.getMainnetGasType2Parameters _ _ _ _);
      unfold quiet; cbn; auto.
  - unfold FlashbotsScript.tryToWorkJob_populated.
    destruct r as [txs|e]; [|unfold quiet; cbn; auto].
    destruct (FlashbotsScript.createBundlesWithSameTxs _ _ _ _);
      unfold quiet; cbn; auto.
  - destruct r as [[|]|e]; unfold quiet; cbn; auto.
Qed.

Lemma cycles_absorb_quiet (p : FlashbotsScript.Process)
  (s : FlashbotsScript.Stretch) :
  quiet s -> cycles (FlashbotsScript.absorb p s) = cycles p.
Proof.
  intros (H1 & H2 & H3). unfold cycles, FlashbotsScript.absorb. cbn.
  rewrite H1, app_nil_r, List.filter_app, H3, app_nil_r.
  rewrite filter_keep_all; [reflexivity|].
  intros [id w]. cbn. rewrite H2. reflexivity.
Qed.

Lemma cycles_absorb_unsubscribe (p : FlashbotsScript.Process) (g : Globals)
  (called : list UnsubscribeFunction) :
  (cycles (FlashbotsScript.absorb p
             (FlashbotsScript.finished g (map FlashbotsScript.Unsubscribe called)))
   <= cycles p)%nat.
Proof.
  unfold cycles, FlashbotsScript.absorb.
  cbn [FlashbotsScript.timers FlashbotsScript.streams FlashbotsScript.tasks
       FlashbotsScript.did FlashbotsScript.waiting FlashbotsScript.finished].
  assert (Hnone : FlashbotsScript.newTimers
                    (map FlashbotsScript.Unsubscribe called) = []).
  { induction called; cbn; auto. }
  rewrite Hnone, !app_nil_r. cbn [List.filter].
  pose proof (filter_length_le
                (fun st : nat * Window =>
                   negb (FlashbotsScript.cancelled
                           (map FlashbotsScript.Unsubscribe called) (fst st)))
                (FlashbotsScript.streams p)).
  lia.
Qed.

Lemma cycles_step (p : FlashbotsScript.Process) (i : FlashbotsScript.Input) :
  (cycles p <= 1)%nat -> (cycles (FlashbotsScript.step lib p i) <= 1)%nat.
Proof.
  intros Hp. destruct i as [i|block|i r|event sequencer];
    cbn [FlashbotsScript.step].
  - destruct (nth_error (FlashbotsScript.timers p) i) as [w|] eqn:Hn; [|exact Hp].
    pose proof (remove_nth_filter (fun _ => true) _ _ _ Hn) as Hr.
    rewrite !filter_keep_all in Hr by reflexivity.
    unfold cycles in *. cbn. rewrite length_app. cbn. lia.
  - destruct (FlashbotsScript.streams p) as [|[id w] [|st sts]] eqn:Hs.
    + exact Hp.
    + cbn [FlashbotsScript.deliver]. unfold FlashbotsScript.isActive.
      rewrite Hs. cbn [existsb fst]. rewrite Nat.eqb_refl. cbn [orb].
      unfold FlashbotsScript.onBlock.
      destruct (JsNumber.lt _ _).
      * rewrite (cycles_absorb_quiet p
                   (FlashbotsScript.finished _
                      (map FlashbotsScript.Console
                         [FlashbotsScript.StillNotInWindow (number block)])))
          by apply quiet_finished.
        exact Hp.
      * destruct (JsNumber.ge _ _).
        -- unfold cycles in *. rewrite Hs in Hp. cbn in Hp.
           assert (Ht : FlashbotsScript.timers p = []).
           { destruct (FlashbotsScript.timers p); [reflexivity|cbn in Hp; lia]. }
           assert (Hk : List.filter isRun (FlashbotsScript.tasks p) = []).
           { destruct (List.filter isRun (FlashbotsScript.tasks p));
               [reflexivity|cbn in Hp; lia]. }
           unfold FlashbotsScript.andThen, FlashbotsScript.run. cbn.
           destruct (JsNumber.strict_eq _ _); cbn; rewrite Hs, Ht; cbn;
             rewrite Nat.eqb_refl; cbn; rewrite List.filter_app, Hk; cbn; lia.
        -- rewrite cycles_absorb_quiet by apply quiet_workJobs. exact Hp.
    + unfold cycles in Hp. rewrite Hs in Hp. cbn in Hp. lia.
  - destruct (nth_error (FlashbotsScript.tasks p) i) as [t|] eqn:Hn; [|exact Hp].
    destruct (FlashbotsScript.resume lib t r (FlashbotsScript.globals p))
      as [s|] eqn:Hr; [|exact Hp].
    pose proof (remove_nth_filter isRun _ _ _ Hn) as Hrem.
    destruct (isRun t) eqn:Ht.
    + destruct t; try discriminate. destruct r as [r|r|r|r|r]; try discriminate.
      cbn in Hr. unfold cycles in *.
      destruct r as [currentBlock|e]; injection Hr as <-.
      * unfold FlashbotsScript.run_continue.
        destruct (JsNumber.gt _ _); cbn; rewrite length_app, app_nil_r; cbn;
          (rewrite filter_keep_all by reflexivity); lia.
      * cbn. rewrite !app_nil_r.
        rewrite filter_keep_all by reflexivity. lia.
    + rewrite cycles_absorb_quiet by (eapply quiet_resume; eassumption).
      unfold cycles in *. cbn. lia.
  - destruct (emitEvent _ _ _ _) as [called g].
    pose proof (cycles_absorb_unsubscribe p g called). lia.
Qed.

(** Whatever the sequencer answers at startup and whatever arrives later, the
    Flashbots script has at most one cycle alive: a stream is never left
    running next to the timer, the stream or the call of [run] of another
    cycle. *)
Lemma flashbots_one_cycle_at_a_time (sequencer : Sequencer)
  (inputs : list FlashbotsScript.Input) :
  (cycles (FlashbotsScript.exec lib (FlashbotsScript.main sequencer) inputs)
   <= 1)%nat.
Proof.
  unfold FlashbotsScript.exec.
  apply (fold_left_invariant (FlashbotsScript.step lib)
           (fun p => (cycles p <= 1)%nat)).
  - intros p i. apply cycles_step.
  - rewrite flashbots_main_unfold.
    destruct (fetchBlocksInWindow sequencer FlashbotsScript.initialGlobals)
      as [g1 [[]|e]]; [|cbn; lia].
    destruct (fetchJobs sequencer g1) as [g2 [[]|e]]; [|cbn; lia].
    destruct (fetchAndUpdateNetworksData sequencer g2) as [g3 [[]|e]];
      [|cbn; lia].
    unfold FlashbotsScript.run.
    destruct (JsNumber.strict_eq _ _); cbn; lia.
Qed.

End OneCycle.

(** * Further properties of the code *)

(** ** More on the window arithmetic *)
Section WindowMathMore.

(** Zero times the rounded quotient by zero is NaN: the quotient is
    infinite or NaN. *)
Lemma mul_zero_ceil_div_zero (x : Number) :
  JsNumber.mul (Num 0) (JsNumber.ceil_div x (Num 0)) = NaN.
Proof.
  destruct x as [v| | |]; try reflexivity.
  cbn [JsNumber.ceil_div Z.eqb]. unfold JsNumber.sign_inf.
  destruct (Z.sgn v); reflexivity.
Qed.

Lemma zero_cycle_NaN (b w n p : Z) :
  w * n = 0 ->
  Misc.calculateNextMasterWindow (Num b) (Num w) (Num n) (Num p) = NaN.
Proof.
  intros Hz. unfold Misc.calculateNextMasterWindow.
  assert (Hfull : JsNumber.mul (Num w) (Num n) = Num 0)
    by (cbn [JsNumber.mul]; rewrite Hz; reflexivity).
  rewrite Hfull, mul_zero_ceil_div_zero.
  destruct (JsNumber.mul (Num p) (Num w)); reflexivity.
Qed.

(** With a window length of 0 or an empty whitelist the full cycle is 0, the
    quotient is infinite or undefined, and [calculateNextMasterWindow]
    returns NaN whatever the block and the position. *)
Theorem calculateNextMasterWindow_zero_cycle
  (currentBlock windowLength whitelistSize selfPosition : Z) :
  windowLength * whitelistSize = 0 ->
  Misc.calculateNextMasterWindow (Num currentBlock) (Num windowLength)
    (Num whitelistSize) (Num selfPosition) = NaN.
Proof. apply zero_cycle_NaN. Qed.

Lemma calculateNextMasterWindow_zero_cycle_witness :
  Misc.calculateNextMasterWindow (Num 100) (Num 13) (Num 0) (Num 0) = NaN.
Proof. apply calculateNextMasterWindow_zero_cycle. reflexivity. Defined.

(** The value of a valid call is the one block of [[b, b + m)] congruent to
    the offset. *)
Lemma next_start_unique (b m off x : Z) :
  0 < m -> b <= x < b + m -> x mod m = off mod m ->
  x = m * - ((- (b - off)) / m) + off.
Proof.
  intros Hm Hx Hc.
  pose proof (next_start_facts b m off Hm) as [Hr Hrc]. cbv zeta in Hr, Hrc.
  set (r := m * - (- (b - off) / m) + off) in *.
  destruct (Z.lt_trichotomy x r) as [Hlt|[Heq|Hgt]]; [|exact Heq|].
  - pose proof (congruent_below m x r Hm ltac:(congruence) Hlt). lia.
  - pose proof (congruent_below m r x Hm ltac:(congruence) Hgt). lia.
Qed.

(** For a block that leaves room for one cycle below [2^53], every block
    of the computed window falls in the keeper's slot of the rotation:
    dividing its number by the window length and reducing modulo the
    whitelist size gives the keeper's position.  The window starts where the
    slot starts: with more than one network the block just before it is in
    another keeper's slot. *)
Theorem calculateNextMasterWindow_slot
  (currentBlock windowLength whitelistSize selfPosition : Z) :
  windowLength >= 1 ->
  whitelistSize >= 1 ->
  0 <= selfPosition < whitelistSize ->
  Z.abs currentBlock + windowLength * whitelistSize < 2 ^ 53 ->
  exists r : Z,
    Misc.calculateNextMasterWindow (Num currentBlock) (Num windowLength)
      (Num whitelistSize) (Num selfPosition) = Num r
    /\ (forall b : Z,
          r <= b < r + windowLength ->
          (b / windowLength) mod whitelistSize = selfPosition)
    /\ (whitelistSize > 1 ->
        ((r - 1) / windowLength) mod whitelistSize <> selfPosition).
Proof.
  intros Hw Hn Hp Hsafe.
  assert (Hm : 0 < windowLength * whitelistSize) by nia.
  assert (Ho : 0 <= selfPosition * windowLength
               < windowLength * whitelistSize) by nia.
  rewrite calculateNextMasterWindow_Num by assumption.
  clear Hsafe Ho.
  set (k := - (- (currentBlock + - (selfPosition * windowLength))
              / (windowLength * whitelistSize))).
  exists (windowLength * whitelistSize * k + selfPosition * windowLength).
  split; [reflexivity|].
  assert (Hslot : forall j, 0 <= j < windowLength ->
            (windowLength * whitelistSize * k + selfPosition * windowLength + j)
            / windowLength = whitelistSize * k + selfPosition).
  { intros j Hj. symmetry.
    apply (Z.div_unique_pos _ _ _ j); [lia|]. ring. }
  split.
  - intros b Hb.
    replace b with (windowLength * whitelistSize * k
                    + selfPosition * windowLength
                    + (b - (windowLength * whitelistSize * k
                            + selfPosition * windowLength))) by ring.
    rewrite Hslot by lia.
    rewrite Z.add_comm, Z.mul_comm, Z.mod_add by lia.
    apply Z.mod_small. lia.
  - intros Hmany Heq.
    assert (Hprev : (windowLength * whitelistSize * k
                     + selfPosition * windowLength - 1) / windowLength
                    = whitelistSize * k + selfPosition - 1).
    { symmetry. apply (Z.div_unique_pos _ _ _ (windowLength - 1)); [lia|]. ring. }
    rewrite Hprev in Heq.
    destruct (Z.eq_dec selfPosition 0) as [H0|H0].
    + replace (whitelistSize * k + selfPosition - 1)
        with (whitelistSize - 1 + (k - 1) * whitelistSize) in Heq by (subst; ring).
      rewrite Z.mod_add, Z.mod_small in Heq by lia. lia.
    + replace (whitelistSize * k + selfPosition - 1)
        with (selfPosition - 1 + k * whitelistSize) in Heq by ring.
      rewrite Z.mod_add, Z.mod_small in Heq by lia. lia.
Qed.

Lemma calculateNextMasterWindow_slot_witness :
  exists r : Z,
    Misc.calculateNextMasterWindow (Num 100) (Num 13) (Num 5) (Num 2) = Num r
    /\ (r / 13) mod 5 = 2.
Proof.
  destruct (calculateNextMasterWindow_slot 100 13 5 2
              ltac:(lia) ltac:(lia) ltac:(lia) ltac:(lia))
    as (r & Hr & Hin & _).
  exists r. split; [exact Hr|]. apply Hin. lia.
Defined.

(** For a block that leaves room for three cycles below [2^53], the
    computed start is less than one full cycle ahead, computing again from it
    gives it back, and from any later block up to one full cycle after it
    (from inside the keeper's own window, or from its end) the function gives
    the start of the next cycle. *)
Theorem calculateNextMasterWindow_next_cycle
  (currentBlock windowLength whitelistSize selfPosition : Z) :
  windowLength >= 1 ->
  whitelistSize >= 1 ->
  0 <= selfPosition < whitelistSize ->
  Z.abs currentBlock + 3 * (windowLength * whitelistSize) <= 2 ^ 53 ->
  let fullCycle := windowLength * whitelistSize in
  exists r : Z,
    Misc.calculateNextMasterWindow (Num currentBlock) (Num windowLength)
      (Num whitelistSize) (Num selfPosition) = Num r
    /\ r < currentBlock + fullCycle
    /\ Misc.calculateNextMasterWindow (Num r) (Num windowLength)
         (Num whitelistSize) (Num selfPosition) = Num r
    /\ (forall b : Z,
          r < b <= r + fullCycle ->
          Misc.calculateNextMasterWindow (Num b) (Num windowLength)
            (Num whitelistSize) (Num selfPosition) = Num (r + fullCycle)).
Proof.
  intros Hw Hn Hp Hsafe fullCycle.
  assert (Hm : 0 < fullCycle) by (subst fullCycle; nia).
  assert (Ho : 0 <= selfPosition * windowLength < fullCycle)
    by (subst fullCycle; nia).
  pose proof (next_start_facts currentBlock fullCycle
                (selfPosition * windowLength) Hm) as [Hr Hc].
  cbv zeta in Hr, Hc.
  set (r := fullCycle * - (- (currentBlock - selfPosition * windowLength)
                           / fullCycle) + selfPosition * windowLength) in *.
  fold fullCycle in Hsafe.
  exists r. split; [|split; [lia|split]].
  - rewrite calculateNextMasterWindow_Num by (fold fullCycle; lia).
    reflexivity.
  - rewrite calculateNextMasterWindow_Num by (fold fullCycle; lia).
    f_equal. symmetry.
    apply (next_start_unique r fullCycle (selfPosition * windowLength) r Hm);
      [lia|exact Hc].
  - intros b Hb.
    rewrite calculateNextMasterWindow_Num by (fold fullCycle; lia).
    f_equal. symmetry.
    apply (next_start_unique b fullCycle (selfPosition * windowLength)
             (r + fullCycle) Hm); [lia|].
    rewrite <- Hc. rewrite <- (Z.mul_1_l fullCycle) at 1.
    apply Z.mod_add. lia.
Qed.

Lemma calculateNextMasterWindow_next_cycle_witness :
  Misc.calculateNextMasterWindow (Num 169) (Num 13) (Num 5) (Num 2) = Num 221.
Proof.
  destruct (calculateNextMasterWindow_next_cycle 100 13 5 2
              ltac:(lia) ltac:(lia) ltac:(lia) ltac:(lia))
    as (r & Hr & _ & _ & Hnext).
  assert (r = 156) by (vm_compute in Hr; congruence). subst r.
  apply (Hnext 169). cbn. lia.
Defined.

End WindowMathMore.

(** ** The stream callback and one call of [tryToWorkJob] *)
Section Dispatch.

Variable lib : FlashbotsScript.Library.

Lemma flashbots_workJobs_dispatch (jobAddresses : list Address) (block : Block)
  (g : Globals) :
  FlashbotsScript.workJobs jobAddresses block g
  = {| FlashbotsScript.after := g;
       FlashbotsScript.did := dispatched g jobAddresses;
       FlashbotsScript.waiting := started g block jobAddresses |}.
Proof.
  induction jobAddresses as [|job rest IH]; [reflexivity|].
  cbn [FlashbotsScript.workJobs]. unfold FlashbotsScript.andThen.
  rewrite flashbots_tryToWorkJob_globals, IH.
  unfold FlashbotsScript.tryToWorkJob, dispatched, started. cbn.
  destruct (inProgress g job); reflexivity.
Qed.


(** The stream callback of the Flashbots script, for a window with integer
    bounds.  Before the window it only logs.  On a block of the window it
    goes through the tracked jobs in the order of [Object.keys]: a job whose
    flag is up is logged as in progress and nothing else happens for it, any
    other job is asked whether it is workable; the variables are not
    touched.  At or past the end of the window it asks no job: it cancels its
    stream and calls [run]. *)
Theorem flashbots_onBlock_dispatch (unsubscribe : nat) (w : Window)
  (block : Block) (g : Globals) (start stop : Z) :
  windowStart w = Num start ->
  windowEnd w = Num stop ->
  (number block < start ->
   FlashbotsScript.onBlock unsubscribe w block g
   = FlashbotsScript.finished g
       [FlashbotsScript.Console
          (FlashbotsScript.StillNotInWindow (number block))])
  /\ (start <= number block < stop ->
      FlashbotsScript.onBlock unsubscribe w block g
      = {| FlashbotsScript.after := g;
           FlashbotsScript.did := dispatched g (JsObject.keys (jobs g));
           FlashbotsScript.waiting :=
             started g block (JsObject.keys (jobs g)) |})
  /\ (start <= number block -> stop <= number block ->
      FlashbotsScript.onBlock unsubscribe w block g
      = FlashbotsScript.andThen
          (FlashbotsScript.finished g
             [FlashbotsScript.Console FlashbotsScript.WindowFinished;
              FlashbotsScript.Unsubscribe unsubscribe])
          FlashbotsScript.run
      /\ forall job,
           asked job
             (FlashbotsScript.did
                (FlashbotsScript.onBlock unsubscribe w block g)) = O).
Proof.
  intros Hs He. unfold FlashbotsScript.onBlock. rewrite Hs, He.
  unfold JsNumber.ge. cbn [JsNumber.lt JsNumber.strict_eq].
  split; [|split].
  - intros Hlt. destruct (Z.ltb_spec (number block) start); [reflexivity|lia].
  - intros [Hge Hlt].
    destruct (Z.ltb_spec (number block) start); [lia|].
    destruct (Z.ltb_spec stop (number block)); [lia|].
    destruct (Z.eqb_spec (number block) stop); [lia|]. cbn [orb].
    apply flashbots_workJobs_dispatch.
  - intros Hge Hend.
    destruct (Z.ltb_spec (number block) start); [lia|].
    assert (Hor : (stop <? number block) || (number block =? stop) = true).
    { destruct (Z.ltb_spec stop (number block)); [reflexivity|].
      destruct (Z.eqb_spec (number block) stop); [reflexivity|lia]. }
    rewrite Hor. split; [reflexivity|].
    intros job. unfold FlashbotsScript.andThen, FlashbotsScript.run.
    destruct (JsNumber.strict_eq _ _); reflexivity.
Qed.

Lemma flashbots_onBlock_dispatch_witness :
  FlashbotsScript.onBlock O {| windowStart := Num 104; windowEnd := Num 117 |}
    (blockAt 110) zeroWindow
  = {| FlashbotsScript.after := zeroWindow;
       FlashbotsScript.did := [FlashbotsScript.JobWorkable exampleJob];
       FlashbotsScript.waiting :=
         [FlashbotsScript.Try_workable exampleJob (blockAt 110)] |}.
Proof.
  apply (flashbots_onBlock_dispatch O
           {| windowStart := Num 104; windowEnd := Num 117 |} (blockAt 110)
           zeroWindow 104 117 eq_refl eq_refl).
  cbn. lia.
Defined.

Lemma onlyFor_sends (job job' : Address)
  (effects : list FlashbotsScript.Effect) :
  onlyFor job effects -> job' <> job -> sends job' effects = O.
Proof.
  unfold onlyFor, sends. intros H Hne.
  induction H as [|e l He _ IH]; [reflexivity|].
  cbn. destruct e; cbn; try exact IH.
  subst job0. destruct (String.eqb_spec job job'); [congruence|exact IH].
Qed.

Lemma sends_one (job : Address) (txs : list FlashbotsScript.TransactionRequest)
  (bundles : list FlashbotsScript.Bundle) :
  sends job [FlashbotsScript.SendAndRetryUntilNotWorkable job txs bundles]
  = 1%nat.
Proof. unfold sends. cbn. rewrite String.eqb_refl. reflexivity. Qed.

Lemma counted_tryToWorkJob (job : Address) (block : Block) (g : Globals) :
  counted job (FlashbotsScript.tryToWorkJob job block g).
Proof.
  unfold FlashbotsScript.tryToWorkJob, counted, onlyFor.
  destruct (inProgress g job); cbn; repeat constructor.
Qed.

Lemma counted_resume (job : Address) (s s' : FlashbotsScript.Stretch)
  (t : FlashbotsScript.Suspended) (r : FlashbotsScript.Response) :
  counted job s ->
  FlashbotsScript.waiting s = [t] ->
  FlashbotsScript.resume lib t r (FlashbotsScript.after s) = Some s' ->
  counted job
    {| FlashbotsScript.after := FlashbotsScript.after s';
       FlashbotsScript.did := FlashbotsScript.did s ++ FlashbotsScript.did s';
       FlashbotsScript.waiting := FlashbotsScript.waiting s' |}.
Proof.
  unfold counted. intros [Ho Hs] Hw. rewrite Hw in Hs.
  cbn [FlashbotsScript.waiting FlashbotsScript.did FlashbotsScript.after].
  rewrite sends_app. unfold onlyFor in *. rewrite Forall_app.
  destruct t, r as [r|r|r|r|r]; cbn [FlashbotsScript.resume]; try discriminate;
    cbn in Hs; [contradiction|..]; intros [= <-];
    destruct Hs as [-> Hs]; rewrite Hs.
  - destruct r as [[[|] args]|e]; cbn; repeat split; auto.
  - unfold FlashbotsScript.tryToWorkJob_nonce.
    destruct r as [n|e]; [|cbn; repeat split; auto].
    destruct (FlashbotsScript.getMainnetGasType2Parameters _ _ _ _);
      cbn; repeat split; auto.
  - unfold FlashbotsScript.tryToWorkJob_populated.
    destruct r as [txs|e]; [|cbn; repeat split; auto].
    destruct (FlashbotsScript.createBundlesWithSameTxs _ _ _ _);
      cbn [FlashbotsScript.suspend FlashbotsScript.catch FlashbotsScript.finally
           FlashbotsScript.finished FlashbotsScript.did FlashbotsScript.waiting].
    + rewrite sends_one. repeat split; auto.
    + cbn. repeat split; auto.
  - destruct r as [[|]|e]; cbn; repeat split; auto.
Qed.

Lemma counted_continue (job : Address) (answers : list FlashbotsScript.Response) :
  forall s, counted job s -> counted job (FlashbotsScript.continue lib s answers).
Proof.
  induction answers as [|r rest IH]; intros s Hs; cbn [FlashbotsScript.continue].
  - destruct (FlashbotsScript.waiting s); exact Hs.
  - destruct (FlashbotsScript.waiting s) as [|t [|t' ts]] eqn:Hw; try exact Hs.
    destruct (FlashbotsScript.resume lib t r (FlashbotsScript.after s))
      as [s'|] eqn:Hr; [|exact Hs].
    apply IH. eapply counted_resume; eassumption.
Qed.

(** One call of [tryToWorkJob], whatever the answers it gets: it broadcasts
    at most once, never for another job, and only when it found the flag down
    and the job answered that it is workable. *)
Theorem tryToWorkJob_broadcasts_once (job : Address) (block : Block)
  (answers : list FlashbotsScript.Response) (g : Globals) :
  let s := FlashbotsScript.attempt lib job block answers g in
  (sends job (FlashbotsScript.did s) <= 1)%nat
  /\ (forall job', job' <> job -> sends job' (FlashbotsScript.did s) = O)
  /\ (sends job (FlashbotsScript.did s) <> O ->
      inProgress g job = false
      /\ exists args rest,
           answers
           = FlashbotsScript.WorkableResult (Return (true, args)) :: rest).
Proof.
  intros s.
  pose proof (counted_continue job answers _ (counted_tryToWorkJob job block g))
    as [Ho Hc].
  fold (FlashbotsScript.attempt lib job block answers g) in Ho, Hc.
  fold s in Ho, Hc.
  split; [|split].
  - destruct (FlashbotsScript.waiting s) as [|[] [|]]; try contradiction;
      try lia; destruct Hc as [_ Hc]; lia.
  - intros job' Hne. eapply onlyFor_sends; eassumption.
  - subst s. unfold FlashbotsScript.attempt, FlashbotsScript.tryToWorkJob.
    destruct (inProgress g job) eqn:Hflag.
    + destruct answers; cbn; intros H; exfalso; apply H; reflexivity.
    + destruct answers as [|r rest]; [cbn; intros H; exfalso; apply H; reflexivity|].
      cbn [FlashbotsScript.continue FlashbotsScript.suspend
           FlashbotsScript.waiting FlashbotsScript.after].
      destruct r as [r|r|r|r|r]; cbn [FlashbotsScript.resume];
        try (cbn; intros H; exfalso; apply H; reflexivity).
      destruct r as [[[|] args]|e].
      * intros _. split; [reflexivity|]. eauto.
      * destruct rest; cbn; intros H; exfalso; apply H; reflexivity.
      * destruct rest; cbn; intros H; exfalso; apply H; reflexivity.
Qed.

End Dispatch.

(** ** The flag is up only while a call holds it *)
Section FlagHolder.

Variable lib : FlashbotsScript.Library.

Lemma inProgress_set_other (g : Globals) (job job' : Address) (b : bool) :
  job <> job' ->
  inProgress (set_jobWorkInProgress g job b) job' = inProgress g job'.
Proof.
  intros Hne. unfold inProgress. cbn. rewrite lookup_insert_ne by exact Hne.
  reflexivity.
Qed.

Lemma In_remove_nth {A} (l : list A) (i : nat) (x y : A) :
  nth_error l i = Some x -> In y l -> y <> x ->
  In y (FlashbotsScript.remove_nth i l).
Proof.
  revert i. induction l as [|a l IH]; intros [|i] Hn Hin Hne; cbn in Hn;
    try discriminate.
  - injection Hn as ->. unfold FlashbotsScript.remove_nth. cbn.
    rewrite skipn_O. destruct Hin; [congruence|assumption].
  - unfold FlashbotsScript.remove_nth in *. cbn.
    destruct Hin as [->|Hin]; [left; reflexivity|right].
    apply (IH i); assumption.
Qed.

Lemma flashbots_deliver_flags (block : Block) (to : list (nat * Window)) :
  forall p,
    FlashbotsScript.globals (FlashbotsScript.deliver block to p)
    = FlashbotsScript.globals p
    /\ forall t, In t (FlashbotsScript.tasks p) ->
                 In t (FlashbotsScript.tasks (FlashbotsScript.deliver block to p)).
Proof.
  induction to as [|[id w] rest IH]; intros p; [split; auto|].
  cbn [FlashbotsScript.deliver].
  destruct (FlashbotsScript.isActive p id).
  - destruct (IH (FlashbotsScript.absorb p
                    (FlashbotsScript.onBlock id w block
                       (FlashbotsScript.globals p)))) as [Hg Ht].
    split.
    + rewrite Hg. cbn. apply flashbots_onBlock_globals.
    + intros t Hin. apply Ht. cbn. apply in_or_app. left. exact Hin.
  - apply IH.
Qed.

Lemma held_step (p : FlashbotsScript.Process) (i : FlashbotsScript.Input) :
  held p -> held (FlashbotsScript.step lib p i).
Proof.
  intros Hp. destruct i as [i|block|i r|event sequencer];
    cbn [FlashbotsScript.step].
  - destruct (nth_error (FlashbotsScript.timers p) i); exact Hp.
  - destruct (flashbots_deliver_flags block (FlashbotsScript.streams p) p)
      as [Hg Ht].
    intros job Hflag. rewrite Hg in Hflag.
    destruct (Hp job Hflag) as (t & Hin & Hh). exists t. auto.
  - destruct (nth_error (FlashbotsScript.tasks p) i) as [t|] eqn:Hn; [|exact Hp].
    destruct (FlashbotsScript.resume lib t r (FlashbotsScript.globals p))
      as [s|] eqn:Hr; [|exact Hp].
    intros job Hflag. cbn in Hflag |- *.
    assert (Hkeep : forall t', In t' (FlashbotsScript.tasks p) -> t' <> t ->
              In t' (FlashbotsScript.remove_nth i (FlashbotsScript.tasks p)
                     ++ FlashbotsScript.waiting s)).
    { intros t' Hin Hne. apply in_or_app. left.
      eapply In_remove_nth; eassumption. }
    assert (Hold : inProgress (FlashbotsScript.globals p) job = true ->
              (forall t', holding job t' = true -> t' <> t) ->
              exists t', In t' (FlashbotsScript.remove_nth i (FlashbotsScript.tasks p)
                                ++ FlashbotsScript.waiting s)
                         /\ holding job t' = true).
    { intros Hf Hne. destruct (Hp job Hf) as (t' & Hin & Hh).
      exists t'. split; [apply Hkeep; auto|exact Hh]. }
    assert (Hnew : forall t', In t' (FlashbotsScript.waiting s) ->
              holding job t' = true ->
              exists t', In t' (FlashbotsScript.remove_nth i (FlashbotsScript.tasks p)
                                ++ FlashbotsScript.waiting s)
                         /\ holding job t' = true).
    { intros t' Hin Hh. exists t'. split; [apply in_or_app; right|]; assumption. }
    destruct t, r as [r|r|r|r|r]; cbn [FlashbotsScript.resume] in Hr;
      try discriminate.
    + destruct r; injection Hr as <-; cbn in Hflag;
        apply Hold; auto; intros t' Hh; destruct t'; discriminate.
    + injection Hr as <-.
      destruct r as [[[|] args]|e]; cbn in Hflag |- *.
      * destruct (String.eqb_spec job0 job) as [->|Hne].
        -- apply (Hnew (FlashbotsScript.Try_getTransactionCount job block args));
             [left; reflexivity|cbn; apply String.eqb_refl].
        -- rewrite inProgress_set_other in Hflag by exact Hne.
           apply Hold; auto. intros t' Hh; destruct t'; discriminate.
      * apply Hold; auto. intros t' Hh; destruct t'; discriminate.
      * apply Hold; auto. intros t' Hh; destruct t'; discriminate.
    + injection Hr as <-.
      assert (Hother : job0 <> job ->
                forall t', holding job t' = true ->
                           t' <> FlashbotsScript.Try_getTransactionCount job0 block args).
      { intros Hne t' Hh ->. cbn in Hh.
        destruct (String.eqb_spec job0 job); congruence. }
      unfold FlashbotsScript.tryToWorkJob_nonce in *.
      destruct (String.eqb_spec job0 job) as [->|Hne].
      * destruct r as [n|e]; [|cbn in Hflag; rewrite inProgress_set in Hflag;
                                discriminate].
        destruct (FlashbotsScript.getMainnetGasType2Parameters _ _ _ _);
          cbn in Hflag |- *.
        -- apply (Hnew (FlashbotsScript.Try_populateTransactions job
                          (number block + Constants.FUTURE_BLOCKS)));
             [left; reflexivity|cbn; apply String.eqb_refl].
        -- rewrite inProgress_set in Hflag. discriminate.
      * destruct r as [n|e];
          [destruct (FlashbotsScript.getMainnetGasType2Parameters _ _ _ _)|];
          cbn in Hflag |- *;
          rewrite ?inProgress_set_other in Hflag by exact Hne;
          apply Hold; auto.
    + injection Hr as <-.
      assert (Hother : job0 <> job ->
                forall t', holding job t' = true ->
                           t' <> FlashbotsScript.Try_populateTransactions job0
                                   firstBlockOfBatch).
      { intros Hne t' Hh ->. cbn in Hh.
        destruct (String.eqb_spec job0 job); congruence. }
      unfold FlashbotsScript.tryToWorkJob_populated in *.
      destruct (String.eqb_spec job0 job) as [->|Hne].
      * destruct r as [txs|e]; [|cbn in Hflag; rewrite inProgress_set in Hflag;
                                  discriminate].
        destruct (FlashbotsScript.createBundlesWithSameTxs _ _ _ _);
          cbn in Hflag |- *.
        -- apply (Hnew (FlashbotsScript.Try_sendAndRetry job));
             [left; reflexivity|cbn; apply String.eqb_refl].
        -- rewrite inProgress_set in Hflag. discriminate.
      * destruct r as [txs|e];
          [destruct (FlashbotsScript.createBundlesWithSameTxs _ _ _ _)|];
          cbn in Hflag |- *;
          rewrite ?inProgress_set_other in Hflag by exact Hne;
          apply Hold; auto.
    + injection Hr as <-.
      assert (Hother : job0 <> job ->
                forall t', holding job t' = true ->
                           t' <> FlashbotsScript.Try_sendAndRetry job0).
      { intros Hne t' Hh ->. cbn in Hh.
        destruct (String.eqb_spec job0 job); congruence. }
      destruct (String.eqb_spec job0 job) as [->|Hne].
      * destruct r as [[|]|e]; cbn in Hflag; rewrite inProgress_set in Hflag;
          discriminate.
      * destruct r as [[|]|e]; cbn in Hflag |- *;
          rewrite inProgress_set_other in Hflag by exact Hne;
          apply Hold; auto.
  - pose proof (emitEvent_flags (FlashbotsScript.listeners p) event sequencer
                  (FlashbotsScript.globals p)) as He.
    destruct (emitEvent _ _ _ _) as [called g]. cbn in He.
    intros job Hflag. cbn in Hflag |- *.
    unfold inProgress in Hflag. rewrite He in Hflag.
    destruct (Hp job Hflag) as (t & Hin & Hh).
    exists t. split; [apply in_or_app; left; exact Hin|exact Hh].
Qed.

Lemma held_main (sequencer : Sequencer) : held (FlashbotsScript.main sequencer).
Proof.
  intros job Hflag. exfalso. revert Hflag. rewrite flashbots_main_unfold.
  pose proof (fetchBlocksInWindow_flags sequencer FlashbotsScript.initialGlobals) as H1.
  destruct (fetchBlocksInWindow sequencer FlashbotsScript.initialGlobals)
    as [g1 [[]|e]]; cbn in H1.
  2: { unfold inProgress. cbn. rewrite H1. cbn. discriminate. }
  pose proof (fetchJobs_flags sequencer g1) as H2.
  destruct (fetchJobs sequencer g1) as [g2 [[]|e]]; cbn in H2.
  2: { unfold inProgress. cbn. rewrite H2, H1. cbn. discriminate. }
  pose proof (fetchAndUpdateNetworksData_flags sequencer g2) as H3.
  destruct (fetchAndUpdateNetworksData sequencer g2) as [g3 [[]|e]]; cbn in H3.
  - unfold inProgress. cbn. rewrite flashbots_run_globals, H3, H2, H1. cbn.
    discriminate.
  - unfold inProgress. cbn. rewrite H3, H2, H1. cbn. discriminate.
Qed.

(** In the Flashbots script, whatever the sequencer answers at startup and
    whatever arrives afterwards, in whatever order, the flag of a job is true
    only while a call of [tryToWorkJob] for that job is between setting the
    flag and its [finally]: a flag is never left up with nothing in flight to
    take it down. *)
Theorem flag_up_only_while_held (sequencer : Sequencer)
  (inputs : list FlashbotsScript.Input) (job : Address) :
  let p := FlashbotsScript.exec lib (FlashbotsScript.main sequencer) inputs in
  inProgress (FlashbotsScript.globals p) job = true ->
  exists t, In t (FlashbotsScript.tasks p) /\ holding job t = true.
Proof.
  intros p. subst p. revert job. change (held (FlashbotsScript.exec lib
    (FlashbotsScript.main sequencer) inputs)).
  unfold FlashbotsScript.exec.
  apply (fold_left_invariant (FlashbotsScript.step lib) held).
  - intros p i. apply held_step.
  - apply held_main.
Qed.

End FlagHolder.

(** After the job has answered that it is workable, the flag is up and the
    call that set it is waiting for the nonce. *)
Lemma flag_up_only_while_held_witness :
  exists t,
    In t (FlashbotsScript.tasks
            (FlashbotsScript.exec exampleLibrary
               (FlashbotsScript.main keeperFirstOfTwo)
               [FlashbotsScript.Settles 0
                  (FlashbotsScript.LatestBlock (Return (blockAt 100)));
                FlashbotsScript.TimerFires 0;
                FlashbotsScript.BlockArrives (blockAt 104);
                FlashbotsScript.Settles 0
                  (FlashbotsScript.WorkableResult (Return (true, "0xab")))]))
    /\ holding exampleJob t = true.
Proof.
  apply (flag_up_only_while_held exampleLibrary keeperFirstOfTwo
           [FlashbotsScript.Settles 0
              (FlashbotsScript.LatestBlock (Return (blockAt 100)));
            FlashbotsScript.TimerFires 0;
            FlashbotsScript.BlockArrives (blockAt 104);
            FlashbotsScript.Settles 0
              (FlashbotsScript.WorkableResult (Return (true, "0xab")))]
           exampleJob).
  vm_compute. reflexivity.
Defined.

(** ** The fetch functions and the job listeners *)
Section FetchMore.

Variable sequencer : Sequencer.

Lemma get_set_same {V} (o : list (Address * V)) (k : Address) (v : V) :
  JsObject.get (JsObject.set o k v) k = Some v.
Proof.
  induction o as [|[k' v'] o IH]; cbn.
  - rewrite String.eqb_refl. reflexivity.
  - destruct (String.eqb k' k) eqn:E; cbn; rewrite E; [reflexivity|exact IH].
Qed.

Lemma get_set_other {V} (o : list (Address * V)) (k k' : Address) (v : V) :
  k <> k' -> JsObject.get (JsObject.set o k v) k' = JsObject.get o k'.
Proof.
  intros Hne. induction o as [|[k0 v0] o IH]; cbn.
  - destruct (String.eqb_spec k k'); [congruence|reflexivity].
  - destruct (String.eqb_spec k0 k) as [->|Hk]; cbn.
    + destruct (String.eqb_spec k k'); [congruence|reflexivity].
    + destruct (String.eqb k0 k'); [reflexivity|exact IH].
Qed.

Lemma set_same_value {V} (o : list (Address * V)) (k : Address) (v : V) :
  JsObject.get o k = Some v -> JsObject.set o k v = o.
Proof.
  induction o as [|[k' v'] o IH]; cbn; [discriminate|].
  destruct (String.eqb k' k).
  - intros [= ->]. reflexivity.
  - intros H. rewrite IH by exact H. reflexivity.
Qed.

Lemma get_None_not_key {V} (o : list (Address * V)) (k : Address) :
  JsObject.get o k = None <-> ~ In k (JsObject.keys o).
Proof.
  unfold JsObject.keys. induction o as [|[k' v'] o IH]; cbn; [tauto|].
  destruct (String.eqb_spec k' k) as [->|Hne].
  - split; [discriminate|tauto].
  - rewrite IH. tauto.
Qed.

Lemma keys_set_grows {V} (o : list (Address * V)) (k : Address) (v : V) :
  exists added, JsObject.keys (JsObject.set o k v) = JsObject.keys o ++ added.
Proof.
  unfold JsObject.keys. induction o as [|[k' v'] o IH]; cbn.
  - exists [k]. reflexivity.
  - destruct (String.eqb k' k); cbn.
    + exists []. rewrite app_nil_r. reflexivity.
    + destruct IH as [added IH]. exists added. rewrite IH. reflexivity.
Qed.

Lemma delete_not_key {V} (o : list (Address * V)) (k : Address) :
  ~ In k (JsObject.keys o) -> JsObject.delete o k = o.
Proof.
  unfold JsObject.keys. induction o as [|[k' v'] o IH]; cbn; [reflexivity|].
  intros Hin. destruct (String.eqb_spec k' k) as [->|Hne]; [tauto|].
  rewrite IH by tauto. reflexivity.
Qed.

Lemma delete_set_new {V} (o : list (Address * V)) (k : Address) (v : V) :
  ~ In k (JsObject.keys o) -> JsObject.delete (JsObject.set o k v) k = o.
Proof.
  unfold JsObject.keys. induction o as [|[k' v'] o IH]; cbn.
  - rewrite String.eqb_refl. reflexivity.
  - intros Hin. destruct (String.eqb_spec k' k) as [->|Hne]; [tauto|].
    cbn. destruct (String.eqb_spec k' k); [congruence|].
    rewrite IH by tauto. reflexivity.
Qed.

Lemma set_jobs_same (g : Globals) : set_jobs g (jobs g) = g.
Proof. destruct g. reflexivity. Qed.

Lemma storeJobs_storeAll (jobAddresses : list Address) :
  forall g, storeJobs jobAddresses g
            = set_jobs g (storeAll jobAddresses (jobs g)).
Proof.
  unfold storeJobs, storeAll.
  induction jobAddresses as [|a rest IH]; intros g; cbn.
  - symmetry. apply set_jobs_same.
  - rewrite IH. reflexivity.
Qed.

Lemma storeAll_get_other (jobAddresses : list Address) (k : Address) :
  ~ In k jobAddresses ->
  forall o, JsObject.get (storeAll jobAddresses o) k = JsObject.get o k.
Proof.
  unfold storeAll.
  induction jobAddresses as [|a rest IH]; intros Hin o; cbn; [reflexivity|].
  cbn in Hin. rewrite IH by tauto. apply get_set_other. tauto.
Qed.

Lemma storeAll_get_stored (jobAddresses : list Address) (k : Address) :
  forall o,
    In k jobAddresses \/ JsObject.get o k = Some None ->
    JsObject.get (storeAll jobAddresses o) k = Some None.
Proof.
  unfold storeAll.
  induction jobAddresses as [|a rest IH]; intros o H; cbn.
  - destruct H as [[]|H]. exact H.
  - apply IH. destruct (String.eqb_spec a k) as [->|Hne].
    + right. apply get_set_same.
    + destruct H as [[H|H]|H]; [congruence|left; exact H|].
      right. rewrite get_set_other by exact Hne. exact H.
Qed.

Lemma storeAll_fixed (jobAddresses : list Address) :
  forall o,
    (forall k, In k jobAddresses -> JsObject.get o k = Some None) ->
    storeAll jobAddresses o = o.
Proof.
  unfold storeAll.
  induction jobAddresses as [|a rest IH]; intros o H; cbn; [reflexivity|].
  rewrite set_same_value by (apply H; left; reflexivity).
  apply IH. intros k Hk. apply H. right. exact Hk.
Qed.

Lemma storeAll_keys_grow (jobAddresses : list Address) :
  forall o, exists added,
    JsObject.keys (storeAll jobAddresses o) = JsObject.keys o ++ added.
Proof.
  induction jobAddresses as [|a rest IH]; intros o.
  - exists []. rewrite app_nil_r. reflexivity.
  - change (storeAll (a :: rest) o) with (storeAll rest (JsObject.set o a None)).
    destruct (IH (JsObject.set o a None)) as [added1 H1].
    destruct (keys_set_grows o a None) as [added0 H0].
    exists (added0 ++ added1). rewrite H1, H0, app_assoc. reflexivity.
Qed.

(** What [jobAddressesFrom] collects does not depend on the variables. *)
Lemma jobAddressesFrom_result (todo : nat) :
  forall index, exists c,
    forall g, jobAddressesFrom sequencer index todo g = (g, c).
Proof.
  induction todo as [|todo IH]; intros index.
  - exists (Return []). reflexivity.
  - destruct (IH (index + 1)) as [c Hc].
    destruct (jobAt sequencer index) as [a|e] eqn:Ha.
    + destruct c as [l|e].
      * exists (Return (a :: l)). intros g. cbn [jobAddressesFrom].
        unfold bind, await, ret. rewrite Ha, Hc. reflexivity.
      * exists (Throw e). intros g. cbn [jobAddressesFrom].
        unfold bind, await, ret. rewrite Ha, Hc. reflexivity.
    + exists (Throw e). intros g. cbn [jobAddressesFrom].
      unfold bind, await. rewrite Ha. reflexivity.
Qed.

Lemma jobAddressesFrom_resolved (a : Z -> Address) (todo : nat) :
  forall index g,
    (forall i, index <= i < index + Z.of_nat todo ->
               jobAt sequencer i = Return (a i)) ->
    jobAddressesFrom sequencer index todo g
    = (g, Return (map (fun k => a (index + Z.of_nat k)) (List.seq 0 todo))).
Proof.
  induction todo as [|todo IH]; intros index g H; [reflexivity|].
  cbn [jobAddressesFrom]. unfold bind, await, ret.
  rewrite (H index) by lia.
  rewrite (IH (index + 1)) by (intros i Hi; apply H; lia).
  cbn [List.seq map]. rewrite Z.add_0_r. do 3 f_equal.
  rewrite <- seq_shift, map_map.
  apply map_ext. intros k. f_equal. lia.
Qed.

(** What the scan of the networks does to the variables and how it ends do
    not depend on the variables. *)
Lemma scanNetworks_result (todo : nat) :
  forall index, exists (found : option Z) (c : completion bool),
    forall g,
      scanNetworks sequencer index todo g
      = (match found with
         | Some i => set_keep3rSequencerPosition g (Num i)
         | None => g
         end, c).
Proof.
  induction todo as [|todo IH]; intros index.
  - exists None, (Return false). reflexivity.
  - destruct (networkAt sequencer index) as [network|e] eqn:Hn.
    + destruct (String.eqb network Constants.KEEP3R_NETWORK_TAG) eqn:Ht.
      * exists (Some index), (Return true). intros g.
        rewrite scanNetworks_step, Hn, Ht. reflexivity.
      * destruct (IH (index + 1)) as (found & c & H).
        exists found, c. intros g. rewrite scanNetworks_step, Hn, Ht. apply H.
    + exists None, (Throw e). intros g. rewrite scanNetworks_step, Hn.
      reflexivity.
Qed.

Lemma fetchJobs_twice (g : Globals) :
  fetchJobs sequencer (fst (fetchJobs sequencer g)) = fetchJobs sequencer g.
Proof.
  unfold fetchJobs, bind, await, assign.
  destruct (numJobs sequencer) as [n|e] eqn:Hn; cbn; rewrite ?Hn;
    [|reflexivity].
  destruct (BigNumber.toNumber n) as [amount|e] eqn:Hamount; cbn;
    rewrite ?Hn, ?Hamount; [|reflexivity].
  destruct (jobAddressesFrom_result (iterations amount) 0) as [c Hc].
  rewrite !Hc. destruct c as [l|e]; cbn; rewrite ?Hn, ?Hamount, ?Hc;
    [|reflexivity].
  rewrite !storeJobs_storeAll. cbn. f_equal. f_equal.
  apply storeAll_fixed. intros k Hk.
  apply storeAll_get_stored. left. exact Hk.
Qed.

(** Each of the fetch functions, run a second time against a sequencer that
    answers as it did the first time, leaves the variables as the first run
    left them, whether the reads resolve or reject.  The functions that read
    one call after the other also end the same way (they return again, or
    throw the same error); the jobs fetch of the Flashbots version, which
    sends its reads together, returns again exactly when it returned the
    first time. *)
Theorem fetch_twice_same (g : Globals) :
  fetchBlocksInWindow sequencer (fst (fetchBlocksInWindow sequencer g))
  = fetchBlocksInWindow sequencer g
  /\ fetchJobs sequencer (fst (fetchJobs sequencer g)) = fetchJobs sequencer g
  /\ fst (FlashbotsScript.fetchJobs sequencer
            (fst (FlashbotsScript.fetchJobs sequencer g)))
     = fst (FlashbotsScript.fetchJobs sequencer g)
  /\ (snd (FlashbotsScript.fetchJobs sequencer
             (fst (FlashbotsScript.fetchJobs sequencer g))) = Return tt
      <-> snd (FlashbotsScript.fetchJobs sequencer g) = Return tt)
  /\ fetchAndUpdateNetworksData sequencer
       (fst (fetchAndUpdateNetworksData sequencer g))
     = fetchAndUpdateNetworksData sequencer g.
Proof.
  split; [|split; [apply fetchJobs_twice|split; [|split]]].
  - unfold fetchBlocksInWindow, bind, await, assign.
    destruct (totalWindowSize sequencer) as [w|e] eqn:Hw; cbn; rewrite ?Hw;
      [|reflexivity].
    destruct (BigNumber.toNumber w) as [window|e] eqn:Hwindow; cbn;
      rewrite ?Hw, ?Hwindow; reflexivity.
  - destruct (flashbots_fetchJobs_agrees sequencer g)
      as [Hsame | (e & e' & Hthrow & _)].
    + rewrite Hsame.
      destruct (flashbots_fetchJobs_agrees sequencer
                  (fst (fetchJobs sequencer g)))
        as [-> | (e & e' & -> & _)]; [|reflexivity].
      rewrite fetchJobs_twice. reflexivity.
    + rewrite Hthrow. cbn [fst]. rewrite Hthrow. reflexivity.
  - destruct (flashbots_fetchJobs_agrees sequencer g)
      as [Hsame | (e & e' & Hthrow & _)].
    + rewrite Hsame.
      destruct (flashbots_fetchJobs_agrees sequencer
                  (fst (fetchJobs sequencer g)))
        as [-> | (e & e' & -> & Hseq)].
      * rewrite fetchJobs_twice. reflexivity.
      * rewrite fetchJobs_twice in Hseq. rewrite Hseq. cbn [snd].
        split; discriminate.
    + rewrite Hthrow. cbn [fst]. rewrite Hthrow. reflexivity.
  - unfold fetchAndUpdateNetworksData, bind, await, assign, read.
    destruct (numNetworks sequencer) as [n|e] eqn:Hn; cbn; rewrite ?Hn;
      [|reflexivity].
    destruct (BigNumber.toNumber n) as [amount|e] eqn:Hamount; cbn;
      rewrite ?Hn, ?Hamount; [|reflexivity].
    destruct (scanNetworks_result (iterations amount) 0) as (found & c & Hs).
    rewrite !Hs.
    destruct c as [[|]|e], found as [i|]; cbn; rewrite ?Hn, ?Hamount; cbn;
      rewrite ?Hs; reflexivity.
Qed.

End FetchMore.

Section FetchEdges.

Variable sequencer : Sequencer.

(** A rejected address makes the loop of awaits throw; the error is that of
    the first rejected address. *)
Lemma jobAddressesFrom_rejected (k : Z) (e : string) (todo : nat) :
  forall index g,
    index <= k < index + Z.of_nat todo ->
    jobAt sequencer k = Throw e ->
    (exists e', jobAddressesFrom sequencer index todo g = (g, Throw e'))
    /\ ((forall i, index <= i < k -> exists x, jobAt sequencer i = Return x) ->
        jobAddressesFrom sequencer index todo g = (g, Throw e)).
Proof.
  induction todo as [|todo IH]; intros index g Hk Hat; [lia|].
  cbn [jobAddressesFrom]. unfold bind, await, ret.
  destruct (Z.eq_dec index k) as [->|Hne].
  - rewrite Hat. split; [eexists|intros _]; reflexivity.
  - destruct (IH (index + 1) g ltac:(lia) Hat) as [[e' He'] Hfirst].
    destruct (jobAt sequencer index) as [x|e0] eqn:Hx.
    + rewrite He'. split; [eexists; reflexivity|].
      intros Hbefore. rewrite Hfirst in He'.
      * congruence.
      * intros i Hi. apply Hbefore. lia.
    + split; [eexists; reflexivity|].
      intros Hbefore. destruct (Hbefore index ltac:(lia)) as [x Hx'].
      congruence.
Qed.

(** The jobs fetch of either version stores nothing unless every read
    resolves.  When the count cannot be read, or is no JavaScript number, or
    when one of the addresses below the count cannot be read, the call throws
    and leaves the variables as they were; the version that reads one address
    after the other throws the error of the first address that rejects.  When
    the count and the addresses resolve the call returns; every address read
    is then a key of [jobs] holding [undefined], every other key reads as
    before, the keys it found are still the first keys in the same order, and
    the other variables are untouched. *)
Theorem fetchJobs_all_or_nothing (g : Globals) (n : Z) (a : Z -> Address) :
  (snd (fetchJobs sequencer g) <> Return tt -> fst (fetchJobs sequencer g) = g)
  /\ (snd (FlashbotsScript.fetchJobs sequencer g) <> Return tt ->
      fst (FlashbotsScript.fetchJobs sequencer g) = g)
  /\ (forall e, numJobs sequencer = Throw e ->
        fetchJobs sequencer g = (g, Throw e)
        /\ FlashbotsScript.fetchJobs sequencer g = (g, Throw e))
  /\ (numJobs sequencer = Return n -> 2 ^ 53 <= Z.abs n ->
      fetchJobs sequencer g = (g, Throw "overflow")
      /\ FlashbotsScript.fetchJobs sequencer g = (g, Throw "overflow"))
  /\ (numJobs sequencer = Return n -> n < 2 ^ 53 ->
      forall k e, 0 <= k < n -> jobAt sequencer k = Throw e ->
        (exists e', fetchJobs sequencer g = (g, Throw e'))
        /\ (exists e', FlashbotsScript.fetchJobs sequencer g = (g, Throw e'))
        /\ ((forall i, 0 <= i < k -> exists x, jobAt sequencer i = Return x) ->
            fetchJobs sequencer g = (g, Throw e)))
  /\ (numJobs sequencer = Return n -> 0 <= n < 2 ^ 53 ->
      (forall i, 0 <= i < n -> jobAt sequencer i = Return (a i)) ->
      exists g',
        fetchJobs sequencer g = (g', Return tt)
        /\ FlashbotsScript.fetchJobs sequencer g = (g', Return tt)
        /\ (forall i, 0 <= i < n ->
              JsObject.get (jobs g') (a i) = Some None)
        /\ (forall k, (forall i, 0 <= i < n -> a i <> k) ->
              JsObject.get (jobs g') k = JsObject.get (jobs g) k)
        /\ (exists added,
              JsObject.keys (jobs g') = JsObject.keys (jobs g) ++ added)
        /\ set_jobs g' (jobs g) = g).
Proof.
  assert (Hnothing : snd (fetchJobs sequencer g) <> Return tt ->
                     fst (fetchJobs sequencer g) = g).
  { unfold fetchJobs, bind, await, assign.
    destruct (numJobs sequencer) as [m|e]; [|reflexivity].
    destruct (BigNumber.toNumber m) as [amount|e]; [|reflexivity].
    destruct (jobAddressesFrom_result sequencer (iterations amount) 0)
      as [c Hc].
    rewrite Hc. destruct c as [l|e]; cbn; [congruence|reflexivity]. }
  assert (Hflashbots : forall e,
            fetchJobs sequencer g = (g, Throw e) ->
            exists e', FlashbotsScript.fetchJobs sequencer g = (g, Throw e')).
  { intros e He.
    destruct (flashbots_fetchJobs_agrees sequencer g)
      as [-> | (e1 & e2 & -> & _)]; eexists; [exact He|reflexivity]. }
  split; [exact Hnothing|]. split; [|split; [|split; [|split]]].
  - destruct (flashbots_fetchJobs_agrees sequencer g)
      as [-> | (e1 & e2 & -> & _)]; [exact Hnothing|reflexivity].
  - intros e Hn.
    unfold FlashbotsScript.fetchJobs, fetchJobs, bind, await. rewrite Hn.
    split; reflexivity.
  - intros Hn Hbig.
    unfold FlashbotsScript.fetchJobs, fetchJobs, bind, await. rewrite Hn.
    destruct (toNumber_cases n) as [[Hsafe _]|[_ ->]]; [lia|].
    split; reflexivity.
  - intros Hn Hsafe k e Hk Hat.
    assert (Hseq : (exists e', fetchJobs sequencer g = (g, Throw e'))
                   /\ ((forall i, 0 <= i < k ->
                          exists x, jobAt sequencer i = Return x) ->
                       fetchJobs sequencer g = (g, Throw e))).
    { unfold fetchJobs, bind, await, assign. rewrite Hn.
      rewrite toNumber_safe by lia. cbn [iterations].
      destruct (jobAddressesFrom_rejected k e (Z.to_nat n) 0 g
                  ltac:(lia) Hat) as [[e' He'] Hfirst].
      split; [rewrite He'; eexists; reflexivity|].
      intros Hbefore. rewrite Hfirst by exact Hbefore. reflexivity. }
    destruct Hseq as [[e' He'] Hfirst].
    split; [exists e'; exact He'|]. split; [|exact Hfirst].
    apply (Hflashbots e'), He'.
  - intros Hn Hsafe Hreads.
    assert (Hseq : fetchJobs sequencer g
                   = (storeJobs
                        (map (fun k => a (0 + Z.of_nat k))
                           (List.seq 0 (Z.to_nat n))) g, Return tt)).
    { unfold fetchJobs, bind, await, assign. rewrite Hn.
      rewrite toNumber_safe by lia. cbn [iterations].
      rewrite (jobAddressesFrom_resolved sequencer a)
        by (intros i Hi; apply Hreads; lia).
      reflexivity. }
    set (l := map (fun k => a (0 + Z.of_nat k)) (List.seq 0 (Z.to_nat n)))
      in *.
    assert (Hl : forall k, In k l <-> exists i, 0 <= i < n /\ a i = k).
    { intros k. subst l. rewrite in_map_iff. split.
      - intros (j & Hj & Hin). apply in_seq in Hin.
        exists (Z.of_nat j). split; [lia|]. rewrite <- Hj. f_equal.
      - intros (i & Hi & Hk). exists (Z.to_nat i). split.
        + rewrite <- Hk. f_equal. lia.
        + apply in_seq. lia. }
    eexists. split; [exact Hseq|]. split.
    { destruct (flashbots_fetchJobs_agrees sequencer g)
        as [-> | (e1 & e2 & _ & He2)]; [exact Hseq|congruence]. }
    rewrite storeJobs_storeAll. cbn [jobs set_jobs].
    split; [|split; [|split]].
    + intros i Hi. apply storeAll_get_stored. left. apply Hl. eauto.
    + intros k Hk. apply storeAll_get_other. rewrite Hl.
      intros (i & Hi & Heq). exact (Hk i Hi Heq).
    + apply storeAll_keys_grow.
    + destruct g. reflexivity.
Qed.

(** [fetchAndUpdateNetworksData] on a read that fails.  When the whitelist
    size cannot be read, or is no JavaScript number, nothing changes.  When a
    member cannot be read before the keeper's tag is found, the call throws
    with [networksAmount] already set to the new size and
    [keep3rSequencerPosition] left at its old value. *)
Theorem fetchAndUpdateNetworksData_rejected (g : Globals) (n k : Z)
  (e : string) :
  (numNetworks sequencer = Throw e ->
   fetchAndUpdateNetworksData sequencer g = (g, Throw e))
  /\ (numNetworks sequencer = Return n -> 2 ^ 53 <= Z.abs n ->
      fetchAndUpdateNetworksData sequencer g = (g, Throw "overflow"))
  /\ (numNetworks sequencer = Return n ->
      n < 2 ^ 53 ->
      0 <= k < n ->
      (forall i, 0 <= i < k ->
         exists t, networkAt sequencer i = Return t
                   /\ t <> Constants.KEEP3R_NETWORK_TAG) ->
      networkAt sequencer k = Throw e ->
      fetchAndUpdateNetworksData sequencer g
      = (set_networksAmount g (Num n), Throw e)
      /\ networksAmount (fst (fetchAndUpdateNetworksData sequencer g))
         = Num n
      /\ keep3rSequencerPosition
           (fst (fetchAndUpdateNetworksData sequencer g))
         = keep3rSequencerPosition g).
Proof.
  split; [|split].
  - intros Hn. unfold fetchAndUpdateNetworksData, bind, await. rewrite Hn.
    reflexivity.
  - intros Hn Hbig. unfold fetchAndUpdateNetworksData, bind, await.
    rewrite Hn.
    destruct (toNumber_cases n) as [[Hsafe _]|[_ ->]]; [lia|reflexivity].
  - intros Hn Hsafe Hk Hbefore Hat.
    assert (Hscan : forall todo index g0,
              index <= k < index + Z.of_nat todo ->
              (forall i, index <= i < k ->
                 exists t, networkAt sequencer i = Return t
                           /\ t <> Constants.KEEP3R_NETWORK_TAG) ->
              scanNetworks sequencer index todo g0 = (g0, Throw e)).
    { induction todo as [|todo IH]; intros index g0 Hr Hb; [lia|].
      rewrite scanNetworks_step.
      destruct (Z.eq_dec index k) as [->|Hne].
      - rewrite Hat. reflexivity.
      - destruct (Hb index ltac:(lia)) as (t & Ht & Htag). rewrite Ht.
        destruct (String.eqb_spec t Constants.KEEP3R_NETWORK_TAG); [congruence|].
        apply IH; [lia|]. intros i Hi. apply Hb. lia. }
    assert (Heq : fetchAndUpdateNetworksData sequencer g
                  = (set_networksAmount g (Num n), Throw e)).
    { unfold fetchAndUpdateNetworksData, bind, await, assign, read.
      rewrite Hn, toNumber_safe by lia.
      cbn [networksAmount set_networksAmount iterations].
      rewrite Hscan; [reflexivity|lia|].
      intros i Hi. apply Hbefore. lia. }
    rewrite Heq. repeat split; reflexivity.
Qed.

End FetchEdges.

Lemma fetchJobs_all_or_nothing_witness :
  (exists e', fetchJobs secondJobUnreadable FlashbotsScript.initialGlobals
              = (FlashbotsScript.initialGlobals, Throw e'))
  /\ exists g',
       fetchJobs keeperFirstOfTwo FlashbotsScript.initialGlobals
       = (g', Return tt)
       /\ JsObject.get (jobs g') exampleJob = Some None.
Proof.
  split.
  - destruct (fetchJobs_all_or_nothing secondJobUnreadable
                FlashbotsScript.initialGlobals 2 (fun _ => exampleJob))
      as (_ & _ & _ & _ & H & _).
    destruct (H eq_refl ltac:(lia) 1 "timeout" ltac:(lia) eq_refl)
      as [He _].
    exact He.
  - destruct (fetchJobs_all_or_nothing keeperFirstOfTwo
                FlashbotsScript.initialGlobals 1 (fun _ => exampleJob))
      as (_ & _ & _ & _ & _ & H).
    destruct H as (g' & Hg & _ & Hget & _).
    + reflexivity.
    + lia.
    + intros i Hi. cbn. destruct (Z.eqb_spec i 0); [reflexivity|lia].
    + exists g'. split; [exact Hg|]. apply (Hget 0). lia.
Defined.

(** The keeper second of three, with the second member unreadable: the size
    becomes 3 and the position stays where it was. *)
Lemma fetchAndUpdateNetworksData_rejected_witness :
  fetchAndUpdateNetworksData
    {| totalWindowSize := Return 13;
       numJobs := Return 0;
       jobAt := fun _ => Throw "no job";
       jobAtSettles := Z.to_nat;
       numNetworks := Return 3;
       networkAt := fun i =>
         if i =? 0 then Return otherNetwork else Throw "timeout" |}
    keeperThirdOfFive
  = (set_networksAmount keeperThirdOfFive (Num 3), Throw "timeout").
Proof.
  eapply (fetchAndUpdateNetworksData_rejected _ keeperThirdOfFive 3 1 "timeout").
  - reflexivity.
  - lia.
  - lia.
  - intros i Hi. exists otherNetwork. split.
    + cbn. destruct (Z.eqb_spec i 0); [reflexivity|lia].
    + vm_compute. discriminate.
  - reflexivity.
Defined.

(** ** The job listeners *)
Section JobEvents.

(** The two job listeners on a mapping that holds only [undefined].  Adding
    a job makes it a key; adding a tracked job changes nothing; adding a job
    that was not tracked and then removing it gives back the variables as
    they were; removing a job that is not tracked changes nothing. *)
Theorem job_events_round_trip (g : Globals) (jobAddress : Address) :
  allUndefined (jobs g) ->
  JsObject.get (jobs (onAddJob jobAddress g)) jobAddress = Some None
  /\ (In jobAddress (JsObject.keys (jobs g)) -> onAddJob jobAddress g = g)
  /\ (~ In jobAddress (JsObject.keys (jobs g)) ->
      snd (onRemoveJob jobAddress (onAddJob jobAddress g)) = g
      /\ snd (onRemoveJob jobAddress g) = g).
Proof.
  intros Hg. split; [|split].
  - cbn. apply get_set_same.
  - intros Hin. unfold onAddJob.
    destruct (JsObject.get (jobs g) jobAddress) as [v|] eqn:Hget.
    + pose proof (get_allUndefined _ _ _ Hg Hget). subst v.
      rewrite set_same_value by exact Hget. apply set_jobs_same.
    + apply get_None_not_key in Hget. contradiction.
  - intros Hnot. unfold onRemoveJob, onAddJob. cbn [snd jobs set_jobs].
    split.
    + rewrite delete_set_new by exact Hnot. destruct g. reflexivity.
    + rewrite delete_not_key by exact Hnot. apply set_jobs_same.
Qed.

Lemma job_events_round_trip_witness :
  snd (onRemoveJob exampleJob (onAddJob exampleJob keeperThirdOfFive))
  = keeperThirdOfFive.
Proof.
  apply (job_events_round_trip keeperThirdOfFive exampleJob).
  - constructor.
  - cbn. tauto.
Defined.

End JobEvents.

(** ** What the job mapping keeps, in both processes *)
Section JobsInvariant.

(** A property of the mapping that assigning [undefined] to a key and
    deleting a key keep. *)
Variable P : list (Address * option UnsubscribeFunction) -> Prop.
Hypothesis P_set : forall o k, P o -> P (JsObject.set o k None).
Hypothesis P_delete : forall o k, P o -> P (JsObject.delete o k).








End JobsInvariant.

(** ** A removed job is not asked again *)
Section RemovedJob.











End RemovedJob.


(** ** The broadcastor script: its callback and its one stream *)
Section BroadcastorMore.

#[local] Arguments fetchBlocksInWindow : simpl never.
#[local] Arguments fetchJobs : simpl never.
#[local] Arguments fetchAndUpdateNetworksData : simpl never.

Lemma broadcastor_workJobs_dispatch (jobAddresses : list Address)
  (block : Block) (g : Globals) :
  BroadcastorScript.workJobs jobAddresses block g
  = {| BroadcastorScript.after := g;
       BroadcastorScript.did := map BroadcastorScript.JobWorkable jobAddresses;
       BroadcastorScript.waiting :=
         map (fun job => BroadcastorScript.Work_workable job block)
           jobAddresses |}.
Proof.
  induction jobAddresses as [|job rest IH]; [reflexivity|].
  cbn [BroadcastorScript.workJobs]. unfold BroadcastorScript.andThen.
  cbn [BroadcastorScript.workJob BroadcastorScript.suspend
       BroadcastorScript.after BroadcastorScript.did BroadcastorScript.waiting].
  rewrite IH. reflexivity.
Qed.

(** The stream callback of the broadcastor script, for a window with an
    integer start.  Before the start it only logs.  On every block from the
    start on, with no upper bound and no look at the in-progress mapping, it
    asks every tracked job whether it is workable, in the order of
    [Object.keys]; the call for a job then broadcasts exactly when the job
    answers that it is workable, and not when it answers no or the call is
    rejected. *)
Theorem broadcastor_onBlock_dispatch (w : Window) (block : Block)
  (g : Globals) (start : Z) :
  windowStart w = Num start ->
  (number block < start ->
   BroadcastorScript.onBlock w block g
   = BroadcastorScript.finished g
       [BroadcastorScript.Console
          (BroadcastorScript.StillNotInWindow (number block))])
  /\ (start <= number block ->
      BroadcastorScript.onBlock w block g
      = {| BroadcastorScript.after := g;
           BroadcastorScript.did :=
             map BroadcastorScript.JobWorkable (JsObject.keys (jobs g));
           BroadcastorScript.waiting :=
             map (fun job => BroadcastorScript.Work_workable job block)
               (JsObject.keys (jobs g)) |})
  /\ (forall (job : Address) (r : completion (bool * string)) (g' : Globals),
        exists s,
          BroadcastorScript.resume (BroadcastorScript.Work_workable job block)
            (BroadcastorScript.WorkableResult r) g' = Some s
          /\ BroadcastorScript.after s = g'
          /\ BroadcastorScript.did s
             = match r with
               | Return (true, args) =>
                   [BroadcastorScript.Broadcast job args block]
               | _ => []
               end).
Proof.
  intros Hs. unfold BroadcastorScript.onBlock. rewrite Hs. cbn [JsNumber.lt].
  split; [|split].
  - intros Hlt. destruct (Z.ltb_spec (number block) start); [reflexivity|lia].
  - intros Hge. destruct (Z.ltb_spec (number block) start); [lia|].
    apply broadcastor_workJobs_dispatch.
  - intros job r g'. eexists. split; [reflexivity|].
    destruct r as [[[|] args]|e]; split; reflexivity.
Qed.

Lemma broadcastor_onBlock_dispatch_witness :
  BroadcastorScript.onBlock {| windowStart := Num 104; windowEnd := Num 117 |}
    (blockAt 500) zeroWindow
  = {| BroadcastorScript.after := zeroWindow;
       BroadcastorScript.did := [BroadcastorScript.JobWorkable exampleJob];
       BroadcastorScript.waiting :=
         [BroadcastorScript.Work_workable exampleJob (blockAt 500)] |}.
Proof.
  apply (broadcastor_onBlock_dispatch
           {| windowStart := Num 104; windowEnd := Num 117 |} (blockAt 500)
           zeroWindow 104 eq_refl).
  cbn. lia.
Defined.

Lemma broadcastor_onBlock_cancels_nothing (w : Window) (block : Block)
  (g : Globals) (id : nat) :
  BroadcastorScript.cancelled
    (BroadcastorScript.did (BroadcastorScript.onBlock w block g)) id = false.
Proof.
  unfold BroadcastorScript.onBlock.
  destruct (JsNumber.lt _ _); [reflexivity|].
  rewrite broadcastor_workJobs_dispatch. cbn [BroadcastorScript.did].
  induction (JsObject.keys (jobs g)) as [|j l IH]; [reflexivity|exact IH].
Qed.

Lemma broadcastor_resume_cancels_nothing (t : BroadcastorScript.Suspended)
  (r : BroadcastorScript.Response) (g : Globals)
  (s : BroadcastorScript.Stretch) (id : nat) :
  BroadcastorScript.resume t r g = Some s ->
  BroadcastorScript.cancelled (BroadcastorScript.did s) id = false.
Proof.
  destruct t, r; cbn; try discriminate; intros [= <-]; [|reflexivity].
  destruct r as [[[|] args]|e]; reflexivity.
Qed.

Lemma broadcastor_absorb_streams (p : BroadcastorScript.Process)
  (s : BroadcastorScript.Stretch) :
  (forall id, BroadcastorScript.cancelled (BroadcastorScript.did s) id = false) ->
  BroadcastorScript.streams (BroadcastorScript.absorb p s)
  = BroadcastorScript.streams p.
Proof.
  intros H. cbn. apply filter_keep_all. intros [id w]. cbn. rewrite H.
  reflexivity.
Qed.

Lemma broadcastor_deliver_streams (block : Block) (to : list (nat * Window)) :
  forall p,
    BroadcastorScript.streams (BroadcastorScript.deliver block to p)
    = BroadcastorScript.streams p.
Proof.
  induction to as [|[id w] rest IH]; intros p; [reflexivity|].
  cbn [BroadcastorScript.deliver]. rewrite IH.
  apply broadcastor_absorb_streams. intros id'.
  apply broadcastor_onBlock_cancels_nothing.
Qed.

Lemma broadcastor_step_streams (p : BroadcastorScript.Process)
  (i : BroadcastorScript.Input) :
  allUndefined (jobs (BroadcastorScript.globals p)) ->
  BroadcastorScript.streams (BroadcastorScript.step p i)
  = BroadcastorScript.streams p.
Proof.
  intros Hp. destruct i as [block|i r|event sequencer];
    cbn [BroadcastorScript.step].
  - apply broadcastor_deliver_streams.
  - destruct (nth_error _ _) as [t|]; [|reflexivity].
    destruct (BroadcastorScript.resume t r _) as [s|] eqn:Hr; [|reflexivity].
    rewrite broadcastor_absorb_streams; [reflexivity|].
    intros id. eapply broadcastor_resume_cancels_nothing. exact Hr.
  - destruct (emitEvent_allUndefined (BroadcastorScript.listeners p) event
                sequencer _ Hp) as [Hc _].
    destruct (emitEvent _ _ _ _) as [called g]. cbn in Hc. subst called.
    apply broadcastor_absorb_streams. reflexivity.
Qed.

(** In the broadcastor script the block streams never change after the
    start: no block, settled call or sequencer event cancels the stream that
    [run] opened or opens another one; and [run] opens at most one. *)
Theorem broadcastor_stream_never_cancelled (sequencer : Sequencer)
  (latest : completion Block) (inputs : list BroadcastorScript.Input) :
  BroadcastorScript.streams
    (BroadcastorScript.exec (BroadcastorScript.main sequencer latest) inputs)
  = BroadcastorScript.streams (BroadcastorScript.main sequencer latest)
  /\ (length (BroadcastorScript.streams
                (BroadcastorScript.main sequencer latest)) <= 1)%nat.
Proof.
  split.
  - unfold BroadcastorScript.exec.
    assert (H : allUndefined
                  (jobs (BroadcastorScript.globals
                           (fold_left BroadcastorScript.step inputs
                              (BroadcastorScript.main sequencer latest))))
                /\ BroadcastorScript.streams
                     (fold_left BroadcastorScript.step inputs
                        (BroadcastorScript.main sequencer latest))
                   = BroadcastorScript.streams
                       (BroadcastorScript.main sequencer latest)).
    { apply (fold_left_invariant BroadcastorScript.step
               (fun p => allUndefined (jobs (BroadcastorScript.globals p))
                         /\ BroadcastorScript.streams p
                            = BroadcastorScript.streams
                                (BroadcastorScript.main sequencer latest))).
      - intros p i [Hj Hs]. split.
        + apply broadcastor_step_allUndefined, Hj.
        + rewrite broadcastor_step_streams by exact Hj. exact Hs.
      - split; [|reflexivity].
        apply broadcastor_run_allUndefined. constructor. }
    apply H.
  - unfold BroadcastorScript.main, BroadcastorScript.run. cbn.
    destruct (fetchBlocksInWindow sequencer BroadcastorScript.initialGlobals)
      as [g1 [[]|e]]; [|cbn; lia].
    destruct (fetchJobs sequencer g1) as [g2 [[]|e]]; [|cbn; lia].
    destruct (fetchAndUpdateNetworksData sequencer g2) as [g3 [[]|e]];
      [|cbn; lia].
    destruct latest; cbn; lia.
Qed.

(** The test for a keeper that is not whitelisted never stops the one call
    of [run] in the broadcastor script: whenever the reads at the start
    resolve, [run] opens the block stream for the window computed from what
    it fetched, whatever position the fetch found. *)
Theorem broadcastor_run_always_streams (sequencer : Sequencer)
  (currentBlock : Block) (g1 g2 g3 : Globals) :
  fetchBlocksInWindow sequencer BroadcastorScript.initialGlobals
  = (g1, Return tt) ->
  fetchJobs sequencer g1 = (g2, Return tt) ->
  fetchAndUpdateNetworksData sequencer g2 = (g3, Return tt) ->
  let p := BroadcastorScript.main sequencer (Return currentBlock) in
  BroadcastorScript.globals p = g3
  /\ BroadcastorScript.streams p = [(O, nextWindow g3 currentBlock)].
Proof.
  intros H1 H2 H3 p. subst p.
  unfold BroadcastorScript.main, BroadcastorScript.run.
  cbn [BroadcastorScript.absorb BroadcastorScript.globals BroadcastorScript.boot
       BroadcastorScript.finished BroadcastorScript.after
       BroadcastorScript.initialGlobals keep3rSequencerPosition
       JsNumber.strict_eq Z.eqb].
  change (fetchBlocksInWindow sequencer
            {| jobWorkInProgress := ∅; blocksInWindow := NaN;
               networksAmount := NaN; keep3rSequencerPosition := Num 0;
               jobs := [] |})
    with (fetchBlocksInWindow sequencer BroadcastorScript.initialGlobals).
  rewrite H1, H2, H3. split; reflexivity.
Qed.

End BroadcastorMore.

Lemma broadcastor_run_always_streams_witness :
  BroadcastorScript.streams
    (BroadcastorScript.main keeperAbsent (Return (blockAt 100)))
  = [(O, nextWindow
           (fst (fetchAndUpdateNetworksData keeperAbsent
                   (fst (fetchJobs keeperAbsent
                           (fst (fetchBlocksInWindow keeperAbsent
                                   BroadcastorScript.initialGlobals))))))
           (blockAt 100))].
Proof.
  eapply (broadcastor_run_always_streams keeperAbsent (blockAt 100));
    vm_compute; reflexivity.
Defined.

(** ** A zero window length in the Flashbots script *)
Section ZeroWindow.

(** When the window length fetched is 0 or the whitelist is empty, [run]
    computes a window whose start and end are NaN and gives NaN to
    [setTimeout], logging that the window has already started; the stream
    callback then finds every block neither before the start nor past the
    end, so it goes through the tracked jobs on every block and never ends
    the cycle. *)
Theorem flashbots_zero_cycle_works_every_block (g : Globals)
  (currentBlock block : Block) (unsubscribe : nat)
  (windowLength whitelistSize selfPosition : Z) :
  blocksInWindow g = Num windowLength ->
  networksAmount g = Num whitelistSize ->
  keep3rSequencerPosition g = Num selfPosition ->
  windowLength * whitelistSize = 0 ->
  let w := nextWindow g currentBlock in
  w = {| windowStart := NaN; windowEnd := NaN |}
  /\ FlashbotsScript.run_continue currentBlock g
     = FlashbotsScript.finished g
         [FlashbotsScript.Console (FlashbotsScript.AlreadyStarted w);
          FlashbotsScript.SetTimeout w NaN]
  /\ FlashbotsScript.onBlock unsubscribe w block g
     = {| FlashbotsScript.after := g;
          FlashbotsScript.did := dispatched g (JsObject.keys (jobs g));
          FlashbotsScript.waiting :=
            started g block (JsObject.keys (jobs g)) |}.
Proof.
  intros Hw Hn Hp Hz w.
  assert (Hwin : w = {| windowStart := NaN; windowEnd := NaN |}).
  { subst w. unfold nextWindow. rewrite Hw, Hn, Hp.
    rewrite zero_cycle_NaN by exact Hz. reflexivity. }
  split; [exact Hwin|]. split.
  - unfold FlashbotsScript.run_continue. fold w. rewrite Hwin. reflexivity.
  - rewrite Hwin. unfold FlashbotsScript.onBlock. cbn.
    apply flashbots_workJobs_dispatch.
Qed.

Lemma flashbots_zero_cycle_works_every_block_witness :
  FlashbotsScript.did
    (FlashbotsScript.onBlock O (nextWindow zeroWindow (blockAt 100))
       (blockAt 7) zeroWindow)
  = [FlashbotsScript.JobWorkable exampleJob].
Proof.
  destruct (flashbots_zero_cycle_works_every_block zeroWindow (blockAt 100)
              (blockAt 7) O 0 2 0 eq_refl eq_refl eq_refl eq_refl)
    as (_ & _ & H).
  rewrite H. reflexivity.
Defined.

End ZeroWindow.

(** ** The position modulo the whitelist size, and the window length under
    events *)
Section PositionAndWindowLength.

(** The function in integer terms for any integer position, when the block,
    the offset and one cycle together stay below [2^53]. *)
Lemma calculateNextMasterWindow_any_position (b w n p : Z) :
  0 < w * n ->
  Z.abs b + Z.abs (p * w) + w * n < 2 ^ 53 ->
  Misc.calculateNextMasterWindow (Num b) (Num w) (Num n) (Num p)
  = Num (w * n * - ((- (b + - (p * w))) / (w * n)) + p * w).
Proof.
  intros Hm Hsafe.
  pose proof (next_start_facts b (w * n) (p * w) Hm) as [Hr _].
  cbv zeta in Hr.
  replace (b - p * w) with (b + - (p * w)) in Hr by lia.
  apply calculateNextMasterWindow_exact; lia.
Qed.

(** For a window length and a whitelist size of at least 1, and as long as
    the block, the offset and one cycle together stay below [2^53], the
    result depends on the position only modulo the whitelist size, for any
    integer position: in particular the position -1 of a keeper that is not
    whitelisted gives the window of the last place of the whitelist. *)
Theorem calculateNextMasterWindow_position_mod
  (currentBlock windowLength whitelistSize position k : Z) :
  windowLength >= 1 ->
  whitelistSize >= 1 ->
  (Z.abs currentBlock + Z.abs (position * windowLength)
   + windowLength * whitelistSize < 2 ^ 53 ->
   Z.abs currentBlock
   + Z.abs ((position + k * whitelistSize) * windowLength)
   + windowLength * whitelistSize < 2 ^ 53 ->
   Misc.calculateNextMasterWindow (Num currentBlock) (Num windowLength)
     (Num whitelistSize) (Num (position + k * whitelistSize))
   = Misc.calculateNextMasterWindow (Num currentBlock) (Num windowLength)
       (Num whitelistSize) (Num position))
  /\ (Z.abs currentBlock + 2 * (windowLength * whitelistSize) < 2 ^ 53 ->
      Misc.calculateNextMasterWindow (Num currentBlock) (Num windowLength)
        (Num whitelistSize) (Num (-1))
      = Misc.calculateNextMasterWindow (Num currentBlock) (Num windowLength)
          (Num whitelistSize) (Num (whitelistSize - 1))).
Proof.
  intros Hw Hn.
  assert (Hm : 0 < windowLength * whitelistSize) by nia.
  assert (Hshift : forall p j,
            Z.abs currentBlock + Z.abs (p * windowLength)
            + windowLength * whitelistSize < 2 ^ 53 ->
            Z.abs currentBlock
            + Z.abs ((p + j * whitelistSize) * windowLength)
            + windowLength * whitelistSize < 2 ^ 53 ->
            Misc.calculateNextMasterWindow (Num currentBlock) (Num windowLength)
              (Num whitelistSize) (Num (p + j * whitelistSize))
            = Misc.calculateNextMasterWindow (Num currentBlock)
                (Num windowLength) (Num whitelistSize) (Num p)).
  { intros p j Hp Hpj.
    rewrite !calculateNextMasterWindow_any_position by assumption.
    f_equal. symmetry.
    pose proof (next_start_facts currentBlock (windowLength * whitelistSize)
                  (p * windowLength) Hm) as [Hr Hc].
    cbv zeta in Hr, Hc.
    apply (next_start_unique currentBlock (windowLength * whitelistSize)
             ((p + j * whitelistSize) * windowLength)); [exact Hm|exact Hr|].
    etransitivity; [exact Hc|].
    replace ((p + j * whitelistSize) * windowLength)
      with (p * windowLength + j * (windowLength * whitelistSize)) by ring.
    symmetry. apply Z.mod_add. lia. }
  split; [apply Hshift|].
  intros Hsafe.
  replace (-1) with (whitelistSize - 1 + (-1) * whitelistSize) by ring.
  apply Hshift.
  - nia.
  - replace ((whitelistSize - 1 + -1 * whitelistSize) * windowLength)
      with (- windowLength) by ring.
    nia.
Qed.

Lemma calculateNextMasterWindow_position_mod_witness :
  Misc.calculateNextMasterWindow (Num 100) (Num 13) (Num 5) (Num (-1))
  = Misc.calculateNextMasterWindow (Num 100) (Num 13) (Num 5) (Num (5 - 1)).
Proof.
  apply (calculateNextMasterWindow_position_mod 100 13 5 0 0); lia.
Defined.

Lemma scanNetworks_window (sequencer : Sequencer) (todo : nat) :
  forall index g,
    blocksInWindow (fst (scanNetworks sequencer index todo g))
    = blocksInWindow g.
Proof.
  induction todo as [|todo IH]; intros index g; [reflexivity|].
  rewrite scanNetworks_step.
  destruct (networkAt sequencer index) as [network|e]; [|reflexivity].
  destruct (String.eqb network Constants.KEEP3R_NETWORK_TAG); [reflexivity|].
  apply IH.
Qed.

Lemma fetchAndUpdateNetworksData_window (sequencer : Sequencer) (g : Globals) :
  blocksInWindow (fst (fetchAndUpdateNetworksData sequencer g))
  = blocksInWindow g.
Proof.
  unfold fetchAndUpdateNetworksData, bind, await, assign, read.
  destruct (numNetworks sequencer) as [n|e]; [|reflexivity].
  destruct (toNumber_cases n) as [[_ ->]|[_ ->]]; [|reflexivity].
  cbn [networksAmount set_networksAmount iterations].
  pose proof (scanNetworks_window sequencer (Z.to_nat n) 0
                (set_networksAmount g (Num n))) as Hscan.
  destruct (scanNetworks sequencer 0 (Z.to_nat n) (set_networksAmount g (Num n)))
    as [g' [[|]|e]]; cbn in *; exact Hscan.
Qed.

Lemma listen_window (l : Listener) (event : SequencerEvent)
  (sequencer : Sequencer) (g : Globals) :
  match event with
  | AddNetwork _ _ => True
  | _ => blocksInWindow (snd (listen l event sequencer g)) = blocksInWindow g
  end.
Proof.
  destruct l, event; unfold listen, onRemoveJob; cbn [snd]; auto;
    apply fetchAndUpdateNetworksData_window.
Qed.

Lemma emitEvent_window (event : SequencerEvent) (sequencer : Sequencer)
  (ls : list Listener) :
  forall g,
    match event with
    | AddNetwork _ _ => True
    | _ => blocksInWindow (snd (emitEvent ls event sequencer g))
           = blocksInWindow g
    end.
Proof.
  induction ls as [|l rest IH]; intros g.
  - destruct event; cbn; auto.
  - pose proof (listen_window l event sequencer g) as Hl.
    specialize (IH (snd (listen l event sequencer g))).
    destruct event; [exact I|..]; cbn [emitEvent];
      destruct (listen l _ sequencer g) as [called g']; cbn [snd] in *;
      destruct (emitEvent rest _ sequencer g') as [called' g''];
      cbn [snd] in *; congruence.
Qed.

(** A size that is no JavaScript number makes the listener of the window
    length throw: no listener of the event changes the window length. *)
Lemma emitEvent_window_overflow (network : string) (window : Z)
  (sequencer : Sequencer) (ls : list Listener) :
  2 ^ 53 <= Z.abs window ->
  forall g,
    blocksInWindow (snd (emitEvent ls (AddNetwork network window) sequencer g))
    = blocksInWindow g.
Proof.
  intros Hbig. induction ls as [|l rest IH]; intros g; [reflexivity|].
  cbn [emitEvent].
  assert (Hl : blocksInWindow
                 (snd (listen l (AddNetwork network window) sequencer g))
               = blocksInWindow g).
  { destruct l; unfold listen; cbn [snd]; try reflexivity.
    - destruct (toNumber_cases window) as [[Hsafe _]|[_ ->]];
        [lia|reflexivity].
    - apply fetchAndUpdateNetworksData_window. }
  destruct (listen l (AddNetwork network window) sequencer g) as [called g'].
  cbn [snd] in Hl. specialize (IH g').
  destruct (emitEvent rest (AddNetwork network window) sequencer g')
    as [c g''].
  cbn [snd] in *. congruence.
Qed.

(** After the start the window length follows the events only: an
    [AddNetwork] event sets [blocksInWindow] to the size the event carries
    (when the listener of [fetchBlocksInWindowAndSubscribeToChanges] is
    registered and the size is below [2^53]; from [2^53] on that listener
    throws and the window length stays), and a [RemoveNetwork], [AddJob] or
    [RemoveJob] event leaves it as it is; in neither case is the sequencer
    asked for its window size. *)
Theorem blocksInWindow_follows_AddNetwork (ls : list Listener)
  (event : SequencerEvent) (sequencer : Sequencer) (g : Globals) :
  match event with
  | AddNetwork _ window =>
      (In BlocksInWindow_AddNetwork ls ->
       Z.abs window < 2 ^ 53 ->
       blocksInWindow (snd (emitEvent ls event sequencer g)) = Num window)
      /\ (2 ^ 53 <= Z.abs window ->
          blocksInWindow (snd (emitEvent ls event sequencer g))
          = blocksInWindow g)
  | _ => blocksInWindow (snd (emitEvent ls event sequencer g))
         = blocksInWindow g
  end.
Proof.
  pose proof (emitEvent_window event sequencer ls g) as Hother.
  destruct event as [net w|net|job|job]; try exact Hother.
  split; [|intros Hbig; apply emitEvent_window_overflow, Hbig].
  intros Hin Hsafe. revert Hin.
  assert (Hadd : forall ls g,
            (In BlocksInWindow_AddNetwork ls \/ blocksInWindow g = Num w) ->
            blocksInWindow (snd (emitEvent ls (AddNetwork net w) sequencer g))
            = Num w).
  { clear - Hsafe. induction ls as [|l rest IH]; intros g Hcase.
    - destruct Hcase as [[]|H]. exact H.
    - cbn [emitEvent].
      assert (Hstep : In BlocksInWindow_AddNetwork rest
                      \/ blocksInWindow
                           (snd (listen l (AddNetwork net w) sequencer g))
                         = Num w).
      { destruct l; unfold listen; cbn [snd];
          try (destruct Hcase as [[Heq|Hin]|Hg];
               [discriminate|left; exact Hin|right];
               rewrite ?fetchAndUpdateNetworksData_window; exact Hg).
        right. rewrite (toNumber_safe w Hsafe). reflexivity. }
      destruct (listen l (AddNetwork net w) sequencer g) as [called g'].
      cbn [snd] in Hstep. specialize (IH g' Hstep).
      destruct (emitEvent rest (AddNetwork net w) sequencer g') as [c g''].
      exact IH. }
  intros Hin. apply Hadd. left. exact Hin.
Qed.

End PositionAndWindowLength.

(** With the listeners of a completed start, an [AddNetwork] event carrying
    the size 26 sets the window length to 26 although the sequencer read in
    the same turn would answer 13. *)
Lemma blocksInWindow_follows_AddNetwork_witness :
  blocksInWindow
    (snd (emitEvent
            [BlocksInWindow_AddNetwork; Jobs_AddJob; Jobs_RemoveJob;
             Networks_AddNetwork; Networks_RemoveNetwork]
            (AddNetwork otherNetwork 26) keeperFirstOfTwo keeperThirdOfFive))
  = Num 26.
Proof.
  apply (blocksInWindow_follows_AddNetwork
           [BlocksInWindow_AddNetwork; Jobs_AddJob; Jobs_RemoveJob;
            Networks_AddNetwork; Networks_RemoveNetwork]
           (AddNetwork otherNetwork 26) keeperFirstOfTwo keeperThirdOfFive).
  - cbn. tauto.
  - lia.
Defined.
